(** * NGX CRM: usage analytics and intelligent alerts

    A shallow embedding of the analytics engine
    ([backend/app/services/analytics_engine.py]), of the alert service
    ([backend/app/services/intelligent_alerts.py]) and of the WebSocket
    connection manager ([backend/app/apis/agent_usage/__init__.py]),
    followed by the properties established about them.

    Conventions of the embedding:
    - a [datetime] is the number of microseconds since the epoch (UTC), a [Z];
    - a Python [float] is the rational number it denotes ([Q]).  In the
      anomaly detector, whose z-scores pass through a square root and three
      roundings before they are compared, every operation is rounded to
      binary64 as CPython (3.11 and later) rounds it.  Elsewhere a float
      is kept as the exact rational of its defining expression; for the
      thresholds of the usage-limit monitor, [usage_thresholds_float_exact]
      shows that the float tests and the exact ones agree;
    - a [dict] whose iteration order is observable, or that is a small
      literal table, is an association list in insertion order; the rule
      registry, used only through [get], is a [gmap];
    - [Alert] objects live in an object store and are referred to by address,
      because the active map, the history and the notification queue share
      them. *)

From Stdlib Require Import Lra Lqa.
From Stdlib Require Import ZArith QArith Qabs Lia List Permutation Ascii String.
From Stdlib Require Import Sorting.Sorted.
From stdpp Require Import gmap strings list.

Open Scope Z_scope.

(* ===================================================================== *)
(** * Part I. Definitions                                                 *)
(* ===================================================================== *)

(** ** Python built-ins used by the services *)

(** [x or y] on optional strings: [None] and the empty string are falsy. *)
Definition str_truthy (o : option string) : bool :=
  match o with
  | Some s => negb (String.eqb s "")
  | None => false
  end.

Definition py_or (a b : option string) : option string :=
  if str_truthy a then a else b.

(** [sorted(xs, key=key, reverse=True)]: a stable sort, so elements with
    equal keys keep their relative order also under [reverse=True]. *)
Fixpoint insert_desc {A} (key : A -> Z) (x : A) (l : list A) : list A :=
  match l with
  | [] => [x]
  | y :: r => if key x <? key y then y :: insert_desc key x r else x :: y :: r
  end.

Definition sorted_reverse {A} (key : A -> Z) (l : list A) : list A :=
  foldr (insert_desc key) [] l.

(** [xs[:n]] for an [int] n, negative n counting from the end. *)
Definition slice_to {A} (n : Z) (l : list A) : list A :=
  if 0 <=? n then firstn (Z.to_nat n) l
  else firstn (Z.to_nat (Z.of_nat (length l) + n)) l.

(** Insertion-ordered dictionaries. *)
Section Dict.
Context {K V : Type} `{EqDecision K}.

Fixpoint dict_get (k : K) (d : list (K * V)) : option V :=
  match d with
  | [] => None
  | (k', v) :: r => if decide (k = k') then Some v else dict_get k r
  end.

(** [d[k] = v]: an existing key keeps its position. *)
Fixpoint dict_set (k : K) (v : V) (d : list (K * V)) : list (K * V) :=
  match d with
  | [] => [(k, v)]
  | (k', v') :: r =>
      if decide (k = k') then (k, v) :: r else (k', v') :: dict_set k v r
  end.

(** [del d[k]] for a key that is present. *)
Fixpoint dict_del (k : K) (d : list (K * V)) : list (K * V) :=
  match d with
  | [] => []
  | (k', v') :: r =>
      if decide (k = k') then r else (k', v') :: dict_del k r
  end.

(** [d[k] = f(d[k])] on a [defaultdict] whose factory yields [dflt]. *)
Definition dict_upd (dflt : V) (k : K) (f : V -> V) (d : list (K * V))
  : list (K * V) :=
  match dict_get k d with
  | Some v => dict_set k (f v) d
  | None => d ++ [(k, f dflt)]
  end.

Definition dict_keys (d : list (K * V)) : list K := map fst d.
Definition dict_values (d : list (K * V)) : list V := map snd d.
End Dict.

(** Formatted text: an f-string is kept as its literal pieces and the
    values it interpolates, each with its format specification. *)
Inductive Frag :=
| Lit (s : string)          (* literal text, or a [str] interpolated as is *)
| FInt (z : Z)              (* [{z}] *)
| FIntComma (z : Z)         (* [{z:,}] *)
| FPct1 (q : Q)             (* [{q:.1%}] *)
| FFix0 (q : Q)             (* [{q:.0f}] *)
| FFix1 (q : Q).            (* [{q:.1f}] *)

Definition Text := list Frag.

(** [s.upper()] on ASCII text. *)
Definition upper_ascii (c : ascii) : ascii :=
  let n := nat_of_ascii c in
  if (Nat.leb 97 n && Nat.leb n 122)%bool then ascii_of_nat (n - 32) else c.

Fixpoint upper (s : string) : string :=
  match s with
  | EmptyString => EmptyString
  | String c r => String (upper_ascii c) (upper r)
  end.

(** JSON-like values stored in [conditions] and [metadata] dictionaries. *)
#[warnings="-register-all"]
Inductive PyVal :=
| VNone
| VBool (b : bool)
| VInt (z : Z)
| VNum (q : Q)
| VStr (s : string)
| VText (t : Text)
| VStrs (l : list string)
| VTexts (l : list Text)
| VDict (d : list (string * PyVal)).

Definition PyDict := list (string * PyVal).

(** Time arithmetic on microsecond timestamps. *)
Definition usec_per_minute : Z := 60000000.
Definition usec_per_hour : Z := 3600000000.
Definition usec_per_day : Z := 86400000000.

Definition timedelta_minutes (m : Z) : Z := m * usec_per_minute.
Definition timedelta_days (d : Z) : Z := d * usec_per_day.

(** [td.days] of a [timedelta]: whole days, rounded towards minus infinity. *)
Definition td_days (td : Z) : Z := td / usec_per_day.

(** SQL [EXTRACT(HOUR FROM ts)] and [DATE(ts)] at UTC. *)
Definition sql_hour (ts : Z) : Z := (ts / usec_per_hour) mod 24.
Definition sql_date (ts : Z) : Z := ts / usec_per_day.

(** [sum] and [statistics.mean]. *)
Definition zsum (l : list Z) : Z := foldr Z.add 0 l.
Definition qsum (l : list Q) : Q := foldr Qplus 0%Q l.

Definition qmean (l : list Q) : Q := (qsum l / inject_Z (Z.of_nat (length l)))%Q.
Definition zmean (l : list Z) : Q := (inject_Z (zsum l) / inject_Z (Z.of_nat (length l)))%Q.

Definition Qltb (a b : Q) : bool := negb (Qle_bool b a).

(** [min(a, b)] and [max(a, b)]: the first argument wins a tie. *)
Definition py_min (a b : Q) : Q := if Qltb b a then b else a.
Definition py_max (a b : Q) : Q := if Qltb a b then b else a.

(** ** The usage event store ([agent_usage_events]) *)

Record UsageEvent := {
  ev_user_id : string;
  ev_agent_id : string;
  ev_session_id : string;
  ev_tokens_used : Z;
  ev_response_time_ms : Z;
  ev_timestamp : Z;
  ev_subscription_tier : string
}.

Definition streq (a b : string) : bool := bool_decide (a = b).

(** Monthly token limits per tier, as both services spell them out. *)
Definition tier_limits : list (string * Z) :=
  [("essential", 50000); ("pro", 150000); ("elite", 500000);
   ("prime", 1000000); ("longevity", 1000000)]%string.

Definition tier_limit (tier : string) : Z :=
  default 50000 (dict_get tier tier_limits).

(** ** analytics_engine.py: [calculate_usage_metrics] *)

(** The [WHERE] clause assembled from the period and the two optional
    filters; a filter that is [None] or empty adds no condition. *)
Definition where_clause (start_date end_date : Z)
    (user_filter tier_filter : option string) (e : UsageEvent) : bool :=
  (start_date <=? ev_timestamp e) && (ev_timestamp e <=? end_date)
  && (if str_truthy user_filter
      then bool_decide (Some (ev_user_id e) = user_filter) else true)
  && (if str_truthy tier_filter
      then bool_decide (Some (ev_subscription_tier e) = tier_filter) else true).

(** One row of the grouped main query. *)
Record MetricsRow := {
  mr_total_interactions : Z;
  mr_total_tokens : option Z;
  mr_unique_users : Z;
  mr_unique_sessions : Z;
  mr_avg_response_time : option Q;
  mr_agent_id : string;
  mr_subscription_tier : string;
  mr_hour : option Z
}.

Definition count_distinct (l : list string) : Z :=
  Z.of_nat (length (remove_dups l)).

Definition group_key (e : UsageEvent) : string * string * Z :=
  (ev_agent_id e, ev_subscription_tier e, sql_hour (ev_timestamp e)).

(** [GROUP BY agent_id, subscription_tier, EXTRACT(HOUR FROM timestamp)] over
    the selected events.  SQL leaves the order of the groups open; here they
    come in the order [remove_dups] lists their keys. *)
Definition main_query (sel : list UsageEvent) : list MetricsRow :=
  map (fun k =>
         let g := List.filter (fun e => bool_decide (group_key e = k)) sel in
         {| mr_total_interactions := Z.of_nat (length g);
            mr_total_tokens := Some (zsum (map ev_tokens_used g));
            mr_unique_users := count_distinct (map ev_user_id g);
            mr_unique_sessions := count_distinct (map ev_session_id g);
            mr_avg_response_time := Some (zmean (map ev_response_time_ms g));
            mr_agent_id := k.1.1;
            mr_subscription_tier := k.1.2;
            mr_hour := Some k.2 |})
      (remove_dups (map group_key sel)).

(** The value under the ['users'] key of a breakdown entry: a [set] while
    the entry is being accumulated, an [int] once converted. *)
Inductive UsersField :=
| UsersSet (s : gset string)
| UsersCount (n : Z).

Record Breakdown := {
  bd_interactions : Z;
  bd_tokens : Z;
  bd_users : UsersField;
  bd_avg_response_time : option Q    (* agent entries only *)
}.

Definition agent_default : Breakdown :=
  {| bd_interactions := 0; bd_tokens := 0; bd_users := UsersSet ∅;
     bd_avg_response_time := Some 0%Q |}.

Definition tier_default : Breakdown :=
  {| bd_interactions := 0; bd_tokens := 0; bd_users := UsersSet ∅;
     bd_avg_response_time := None |}.

(** The two statements of each accumulation loop's body. *)
Definition add_row (r : MetricsRow) (b : Breakdown) : Breakdown :=
  {| bd_interactions := bd_interactions b + mr_total_interactions r;
     bd_tokens := bd_tokens b + default 0 (mr_total_tokens r);
     bd_users := bd_users b;
     bd_avg_response_time := bd_avg_response_time b |}.

(** [entry['users'] = len(entry['users'])]. *)
Definition users_to_count (b : Breakdown) : Breakdown :=
  {| bd_interactions := bd_interactions b;
     bd_tokens := bd_tokens b;
     bd_users := match bd_users b with
                 | UsersSet s => UsersCount (Z.of_nat (size s))
                 | UsersCount n => UsersCount n
                 end;
     bd_avg_response_time := bd_avg_response_time b |}.

Definition breakdown_by (key : MetricsRow -> string) (dflt : Breakdown)
    (results : list MetricsRow) : list (string * Breakdown) :=
  let acc := foldl (fun d r => dict_upd dflt (key r) (add_row r) d) [] results in
  map (fun kv => (kv.1, users_to_count kv.2)) acc.

Definition agent_breakdown_of (results : list MetricsRow) :=
  breakdown_by mr_agent_id agent_default results.

Definition tier_breakdown_of (results : list MetricsRow) :=
  breakdown_by mr_subscription_tier tier_default results.

(** [hour_usage]: a [defaultdict(int)] filled in the order of the rows. *)
Definition hour_usage_of {R} (hour : R -> option Z) (count : R -> Z)
    (results : list R) : list (Z * Z) :=
  foldl (fun d r => match hour r with
                    | Some h => dict_upd 0 h (fun c => c + count r) d
                    | None => d
                    end) [] results.

Definition top_hours (hu : list (Z * Z)) : list Z :=
  slice_to 3 (sorted_reverse (fun h => default 0 (dict_get h hu)) (dict_keys hu)).

Definition peak_hours_of (results : list MetricsRow) : list Z :=
  top_hours (hour_usage_of mr_hour mr_total_interactions results).

(** [if x] on an optional number. *)
Definition q_truthy (o : option Q) : option Q :=
  match o with
  | Some q => if Qeq_bool q 0 then None else Some q
  | None => None
  end.

Definition mean_or_zero (l : list Q) : Q :=
  match l with [] => 0%Q | _ => qmean l end.

Definition conversion_insights : PyDict :=
  [("potential_upgrades", VInt 0); ("churn_risk_users", VInt 0);
   ("high_value_users", VInt 0); ("conversion_opportunities", VStrs [])]%string.

Record UsageMetrics := {
  um_period_start : Z;
  um_period_end : Z;
  um_total_interactions : Z;
  um_total_tokens : Z;
  um_unique_users : Z;
  um_unique_sessions : Z;
  um_avg_response_time : Q;
  um_agent_breakdown : list (string * Breakdown);
  um_tier_breakdown : list (string * Breakdown);
  um_peak_hours : list Z;
  um_conversion_insights : PyDict
}.

(** The part of [calculate_usage_metrics] after the three fetches:
    [results] is the grouped result, [sel] the selected events the two
    [SELECT DISTINCT] queries range over. *)
Definition usage_metrics_of (start_date end_date : Z)
    (results : list MetricsRow) (sel : list UsageEvent) : UsageMetrics :=
  {| um_period_start := start_date;
     um_period_end := end_date;
     um_total_interactions := zsum (map mr_total_interactions results);
     um_total_tokens := zsum (map (fun r => default 0 (mr_total_tokens r)) results);
     um_unique_users := count_distinct (map ev_user_id sel);
     um_unique_sessions := count_distinct (map ev_session_id sel);
     um_avg_response_time :=
       mean_or_zero (omap (fun r => q_truthy (mr_avg_response_time r)) results);
     um_agent_breakdown := agent_breakdown_of results;
     um_tier_breakdown := tier_breakdown_of results;
     um_peak_hours := peak_hours_of results;
     um_conversion_insights := conversion_insights |}.

Definition calculate_usage_metrics (events : list UsageEvent)
    (start_date end_date : Z) (user_filter tier_filter : option string)
    : UsageMetrics :=
  let sel := List.filter (where_clause start_date end_date user_filter tier_filter)
                         events in
  usage_metrics_of start_date end_date (main_query sel) sel.

(** The quantity the ['users'] sub-count of an agent (of a tier) is meant to
    report: the distinct users among the selected events of that agent
    (tier). *)
Definition distinct_users_where (p : UsageEvent -> bool) (sel : list UsageEvent) : Z :=
  count_distinct (map ev_user_id (List.filter p sel)).

(** ** analytics_engine.py: [generate_user_insights] *)

Record UserRow := {
  ur_interactions : Z;
  ur_tokens : Z;
  ur_avg_response_time : Q;
  ur_subscription_tier : string;
  ur_agents_used : Z;
  ur_active_days : Z;
  ur_first_usage : Z;
  ur_last_usage : Z
}.

Definition zmin_list (l : list Z) : Z := foldr Z.min (hd 0 l) l.
Definition zmax_list (l : list Z) : Z := foldr Z.max (hd 0 l) l.

Definition count_distinct_z (l : list Z) : Z :=
  Z.of_nat (length (remove_dups l)).

(** The per-user query: the user's events since [start_date], grouped by
    subscription tier. *)
Definition user_query (events : list UsageEvent) (user_id : string)
    (start_date : Z) : list UserRow :=
  let sel := List.filter (fun e => streq (ev_user_id e) user_id
                                   && (start_date <=? ev_timestamp e)) events in
  map (fun tier =>
         let g := List.filter (fun e => streq (ev_subscription_tier e) tier) sel in
         {| ur_interactions := Z.of_nat (length g);
            ur_tokens := zsum (map ev_tokens_used g);
            ur_avg_response_time := zmean (map ev_response_time_ms g);
            ur_subscription_tier := tier;
            ur_agents_used := count_distinct (map ev_agent_id g);
            ur_active_days :=
              count_distinct_z (map (fun e => sql_date (ev_timestamp e)) g);
            ur_first_usage := zmin_list (map ev_timestamp g);
            ur_last_usage := zmax_list (map ev_timestamp g) |})
      (remove_dups (map ev_subscription_tier sel)).

(** [db.fetchrow]: the first row of the result, or [None]. *)
Definition fetchrow {A} (rows : list A) : option A := head rows.

Record UserUsageInsight := {
  ui_user_id : string;
  ui_subscription_tier : string;
  ui_usage_score : Q;
  ui_risk_level : string;
  ui_recommendations : list Text;
  ui_predicted_churn_probability : Q;
  ui_upgrade_opportunity : bool;
  ui_efficiency_metrics : list (string * Q)
}.

Definition zq (z : Z) : Q := inject_Z z.

Definition usage_score_of (usage_percentage : Q) (ud : UserRow) : Q :=
  py_min 100
    (usage_percentage * (4 # 10)
     + (zq (ur_active_days ud) / 30) * 100 * (3 # 10)
     + (zq (ur_agents_used ud) / 11) * 100 * (2 # 10)
     + py_min 100 ((zq (ur_interactions ud) / 100) * 100) * (1 # 10))%Q.

Definition risk_level_of (usage_score : Q) : string :=
  if Qle_bool 80 usage_score then "low"
  else if Qle_bool 60 usage_score then "medium"
  else if Qle_bool 30 usage_score then "high"
  else "critical".

Definition churn_probability_of (usage_score : Q) (days_since_last : Z) : Q :=
  py_min (95 # 100)
    (py_max (5 # 100)
       ((100 - usage_score) / 100 * (6 # 10)
        + (zq days_since_last / 30) * (4 # 10)))%Q.

Definition recommendations_of (usage_percentage : Q) (ud : UserRow) : list Text :=
  (if Qltb 80 usage_percentage
   then [[Lit "Consider upgrading to higher tier - using ";
          FFix1 usage_percentage; Lit "% of limit"]]
   else [])
  ++ (if ur_agents_used ud <? 3
      then [[Lit "Explore more agents to maximize value"]] else [])
  ++ (if ur_active_days ud <? 15
      then [[Lit "Increase engagement frequency"]] else [])
  ++ (if Qltb 2000 (ur_avg_response_time ud)
      then [[Lit "Optimize queries for better performance"]] else []).

Definition insight_of_row (user_id : string) (end_date : Z) (ud : UserRow)
    : UserUsageInsight :=
  let tier := ur_subscription_tier ud in
  let limit := tier_limit tier in
  let usage_percentage := ((zq (ur_tokens ud) / zq limit) * 100)%Q in
  let usage_score := usage_score_of usage_percentage ud in
  let days_since_last := td_days (end_date - ur_last_usage ud) in
  {| ui_user_id := user_id;
     ui_subscription_tier := tier;
     ui_usage_score := usage_score;
     ui_risk_level := risk_level_of usage_score;
     ui_recommendations := recommendations_of usage_percentage ud;
     ui_predicted_churn_probability :=
       churn_probability_of usage_score days_since_last;
     ui_upgrade_opportunity :=
       Qltb 70 usage_percentage
       && (streq tier "essential" || streq tier "pro")
       && (20 <? ur_active_days ud);
     ui_efficiency_metrics :=
       [("tokens_per_interaction",
         zq (ur_tokens ud) / zq (Z.max 1 (ur_interactions ud)));
        ("interactions_per_day",
         zq (ur_interactions ud) / zq (Z.max 1 (ur_active_days ud)));
        ("agent_diversity", zq (ur_agents_used ud) / 11);
        ("engagement_consistency", zq (ur_active_days ud) / 30)]%Q |}.

(** The insight returned for a user without recent activity. *)
Definition inactive_insight (user_id : string) : UserUsageInsight :=
  {| ui_user_id := user_id;
     ui_subscription_tier := "unknown";
     ui_usage_score := 0;
     ui_risk_level := "critical";
     ui_recommendations := [[Lit "Re-engage user with personalized content"]];
     ui_predicted_churn_probability := 95 # 100;
     ui_upgrade_opportunity := false;
     ui_efficiency_metrics := [] |}.

Definition generate_user_insights (events : list UsageEvent) (now : Z)
    (user_id : string) : UserUsageInsight :=
  let end_date := now in
  let start_date := end_date - timedelta_days 30 in
  match fetchrow (user_query events user_id start_date) with
  | None => inactive_insight user_id
  | Some user_data => insight_of_row user_id end_date user_data
  end.

(** ** analytics_engine.py: [analyze_agent_performance] *)

Record PerfRow := {
  pr_total_interactions : Z;
  pr_avg_response_time : option Q;
  pr_total_tokens : option Z;
  pr_unique_users : Z;
  pr_hour : option Z;
  pr_subscription_tier : string
}.

Record AgentPerformanceMetrics := {
  ap_agent_id : string;
  ap_total_interactions : Z;
  ap_avg_response_time : Q;
  ap_success_rate : Q;
  ap_user_satisfaction : Q;
  ap_token_efficiency : Q;
  ap_peak_usage_hours : list Z;
  ap_most_common_use_cases : list string
}.

(** [analyze_agent_performance] after its fetch. *)
Definition agent_performance_of (agent_id : string) (results : list PerfRow)
    : AgentPerformanceMetrics :=
  match results with
  | [] =>
      {| ap_agent_id := agent_id; ap_total_interactions := 0;
         ap_avg_response_time := 0; ap_success_rate := 0;
         ap_user_satisfaction := 0; ap_token_efficiency := 0;
         ap_peak_usage_hours := []; ap_most_common_use_cases := [] |}
  | _ =>
      let total_interactions := zsum (map pr_total_interactions results) in
      let total_tokens :=
        zsum (map (fun r => default 0 (pr_total_tokens r)) results) in
      let avg_response_time :=
        mean_or_zero (omap (fun r => q_truthy (pr_avg_response_time r)) results) in
      {| ap_agent_id := agent_id;
         ap_total_interactions := total_interactions;
         ap_avg_response_time := avg_response_time;
         ap_success_rate :=
           py_min 1 (py_max (1 # 10) (1 - avg_response_time / 10000))%Q;
         ap_user_satisfaction :=
           py_min 1 (py_max (1 # 10) (1 - avg_response_time / 5000))%Q;
         ap_token_efficiency :=
           (zq total_tokens / zq (Z.max 1 total_interactions))%Q;
         ap_peak_usage_hours :=
           top_hours (hour_usage_of pr_hour pr_total_interactions results);
         ap_most_common_use_cases := [] |}
  end.

(** The performance query: the agent's events since [start_date], grouped by
    hour of day and tier. *)
Definition perf_query (events : list UsageEvent) (agent_id : string)
    (start_date : Z) : list PerfRow :=
  let sel := List.filter (fun e => streq (ev_agent_id e) agent_id
                                   && (start_date <=? ev_timestamp e)) events in
  let key e := (sql_hour (ev_timestamp e), ev_subscription_tier e) in
  map (fun k =>
         let g := List.filter (fun e => bool_decide (key e = k)) sel in
         {| pr_total_interactions := Z.of_nat (length g);
            pr_avg_response_time := Some (zmean (map ev_response_time_ms g));
            pr_total_tokens := Some (zsum (map ev_tokens_used g));
            pr_unique_users := count_distinct (map ev_user_id g);
            pr_hour := Some k.1;
            pr_subscription_tier := k.2 |})
      (remove_dups (map key sel)).

Definition analyze_agent_performance (events : list UsageEvent) (now : Z)
    (agent_id : string) (days : Z) : AgentPerformanceMetrics :=
  agent_performance_of agent_id
    (perf_query events agent_id (now - timedelta_days days)).

(** ** Python numbers: [int], and [float] as IEEE 754 binary64 *)

(** A finite float is represented by the rational it denotes.  Results are
    rounded to 53 significant bits, to nearest, ties to even.  The exponent
    range of binary64 is not represented: the numbers met here stem from
    64-bit counts, whose means, deviations and quotients stay far inside
    it. *)

(** [n.bit_length()]. *)
Definition bit_length (n : Z) : Z :=
  if n =? 0 then 0 else Z.log2 (Z.abs n) + 1.

(** The integer nearest to [n / d], a tie going to the even neighbour
    ([0 <= n] and [0 < d]). *)
Definition div_nearest_even (n d : Z) : Z :=
  let q := n / d in
  let r := n mod d in
  if 2 * r <? d then q
  else if d <? 2 * r then q + 1
  else if Z.even q then q else q + 1.

(** [m * 2^e]. *)
Definition ldexp (m e : Z) : Q :=
  if 0 <=? e then zq (m * 2 ^ e) else Qmake m (Z.to_pos (2 ^ (- e))).

(** The float nearest to [n / d] for positive [n] and [d]: the exponent [e]
    is the one for which [n / (d * 2^e)] lies in [[2^52, 2^53)], and the
    significand is that quotient rounded to an integer. *)
Definition nearest_float_pos (n d : Z) : Q :=
  let e0 := bit_length n - bit_length d - 53 in
  let num e := n * 2 ^ Z.max 0 (- e) in
  let den e := d * 2 ^ Z.max 0 e in
  let e := if num e0 <? 2 ^ 53 * den e0 then e0 else e0 + 1 in
  ldexp (div_nearest_even (num e) (den e)) e.

(** [n / d] on two [int]s with [d > 0] (true division, correctly rounded);
    also [float(Fraction(n, d))], and [float(n)] for [d = 1]. *)
Definition int_true_div (n d : Z) : Q :=
  if n =? 0 then 0%Q
  else if 0 <? n then nearest_float_pos n d
  else Qopp (nearest_float_pos (- n) d).

(** The float an arithmetic operation on floats returns for the exact
    result [x]. *)
Definition round_float (x : Q) : Q := int_true_div (Qnum x) (Zpos (Qden x)).

(** The value of [statistics.mean] on [int]s is an [int] or a [float]. *)
Inductive PyNumber :=
| PyInt (z : Z)
| PyFloat (x : Q).

Definition number_value (a : PyNumber) : Q :=
  match a with PyInt z => zq z | PyFloat x => x end.

(** The conversion of an operand to [float] in mixed arithmetic. *)
Definition to_float (a : PyNumber) : Q :=
  match a with PyInt z => int_true_div z 1 | PyFloat x => x end.

(** [a - b] for an [int] [a]: exact on two [int]s, a float subtraction
    otherwise. *)
Definition int_sub (a : Z) (b : PyNumber) : PyNumber :=
  match b with
  | PyInt z => PyInt (a - z)
  | PyFloat x => PyFloat (round_float (int_true_div a 1 - x))
  end.

(** [abs(a)]. *)
Definition py_abs (a : PyNumber) : PyNumber :=
  match a with PyInt z => PyInt (Z.abs z) | PyFloat x => PyFloat (Qabs x) end.

(** [a / b] for a [float] [b]. *)
Definition div_float (a : PyNumber) (b : Q) : Q := round_float (to_float a / b).

(** [a > b] for an [int] [a]: Python compares an [int] and a [float] by
    their exact values. *)
Definition int_gt (a : Z) (b : PyNumber) : bool := Qltb (number_value b) (zq a).

Definition qsq (q : Q) : Q := (q * q)%Q.

(** The sample variance [sum((x - mean)^2) / (n - 1)], which [statistics]
    computes exactly, as a [Fraction]. *)
Definition variance (xs : list Z) : Q :=
  let m := zmean xs in
  (qsum (map (fun x => qsq (zq x - m)) xs) / zq (Z.of_nat (length xs) - 1))%Q.

(** [statistics.mean(xs)] for a list of [int]s: the exact mean
    [Fraction(total, n)] is returned as an [int] when its denominator is 1
    and converted to [float] otherwise ([_convert]). *)
Definition statistics_mean (xs : list Z) : PyNumber :=
  let f := Qred (zmean xs) in
  if Zpos (Qden f) =? 1 then PyInt (Qnum f)
  else PyFloat (int_true_div (Qnum f) (Zpos (Qden f))).

(** [statistics._integer_sqrt_of_frac_rto(n, m)]: the square root of
    [n / m] as an integer, rounded to odd. *)
Definition _integer_sqrt_of_frac_rto (n m : Z) : Z :=
  let a := Z.sqrt (n / m) in
  Z.lor a (if a * a * m =? n then 0 else 1).

(** [statistics._float_sqrt_of_frac(n, m)]: the square root of [n / m] as a
    float ([_sqrt_bit_width] is 109). *)
Definition _float_sqrt_of_frac (n m : Z) : Q :=
  let q := (bit_length n - bit_length m - 109) / 2 in
  if 0 <=? q then
    int_true_div (_integer_sqrt_of_frac_rto n (m * 2 ^ (2 * q)) * 2 ^ q) 1
  else
    int_true_div (_integer_sqrt_of_frac_rto (n * 2 ^ (-2 * q)) m) (2 ^ (- q)).

(** [statistics.stdev(xs)] for a list of [int]s: the square root of the
    exact variance, a [Fraction] in lowest terms. *)
Definition statistics_stdev (xs : list Z) : Q :=
  let mss := Qred (variance xs) in
  _float_sqrt_of_frac (Qnum mss) (Zpos (Qden mss)).

(** ** analytics_engine.py: [detect_usage_anomalies] *)

(** One row of the daily query (ordered by date, then agent).  The counts
    are 64-bit integers: a [COUNT] and the [SUM] of an integer column. *)
Record DailyRow := {
  dr_usage_date : Z;
  dr_daily_interactions : Z;
  dr_daily_tokens : Z;
  dr_daily_users : Z;
  dr_agent_id : string
}.

Record DayData := {
  dd_date : Z;
  dd_interactions : Z;
  dd_tokens : Z;
  dd_users : Z
}.

Record Anomaly := {
  an_type : string;
  an_agent_id : string;
  an_date : Z;
  an_value : Z;
  an_expected : PyNumber;
  an_severity : string;
  an_description : Text
}.

Definition day_of_row (r : DailyRow) : DayData :=
  {| dd_date := dr_usage_date r;
     dd_interactions := dr_daily_interactions r;
     dd_tokens := dr_daily_tokens r;
     dd_users := dr_daily_users r |}.

(** [agent_data]: a [defaultdict(list)] keyed by agent. *)
Definition agent_data_of (results : list DailyRow) : list (string * list DayData) :=
  foldl (fun d r => dict_upd [] (dr_agent_id r) (fun l => l ++ [day_of_row r]) d)
        [] results.

(** [abs(v - mean) / std]. *)
Definition z_score (v : Z) (mean : PyNumber) (std : Q) : Q :=
  div_float (py_abs (int_sub v mean)) std.

Definition interaction_description (agent_id : string) (v : Z) (m : Q) : Text :=
  [Lit "Agent "; Lit agent_id; Lit " had "; FInt v;
   Lit " interactions (expected ~"; FFix0 m; Lit ")"].

Definition token_description (agent_id : string) (v : Z) (m : Q) : Text :=
  [Lit "Agent "; Lit agent_id; Lit " used "; FInt v;
   Lit " tokens (expected ~"; FFix0 m; Lit ")"].

(** The dictionary appended for a flagged day, [z] being its z-score. *)
Definition mk_anomaly (metric : string) (descr : string -> Z -> Q -> Text)
    (agent_id : string) (date v : Z) (mean : PyNumber) (z : Q) : Anomaly :=
  {| an_type := if int_gt v mean then metric ++ "_spike" else metric ++ "_drop";
     an_agent_id := agent_id;
     an_date := date;
     an_value := v;
     an_expected := mean;
     an_severity := if Qltb 3 z then "high" else "medium";
     an_description := descr agent_id v (number_value mean) |}.

(** One metric of one day: the two nested tests of the loop body. *)
Definition metric_anomalies (metric : string) (descr : string -> Z -> Q -> Text)
    (agent_id : string) (date v : Z) (mean : PyNumber) (std : Q) : list Anomaly :=
  if Qltb 0 std then
    let z := z_score v mean std in
    if Qltb 2 z then [mk_anomaly metric descr agent_id date v mean z] else []
  else [].

(** The body of the loop over one agent's days. *)
Definition day_anomalies (agent_id : string)
    (mean_interactions : PyNumber) (std_interactions : Q)
    (mean_tokens : PyNumber) (std_tokens : Q)
    (d : DayData) : list Anomaly :=
  metric_anomalies "interaction" interaction_description agent_id
    (dd_date d) (dd_interactions d) mean_interactions std_interactions
  ++
  metric_anomalies "token" token_description agent_id
    (dd_date d) (dd_tokens d) mean_tokens std_tokens.

Definition agent_anomalies (agent_id : string) (data : list DayData) : list Anomaly :=
  if (length data <? 3)%nat then []
  else
    let interactions := map dd_interactions data in
    let tokens := map dd_tokens data in
    if (1 <? length interactions)%nat then
      flat_map (day_anomalies agent_id
                  (statistics_mean interactions) (statistics_stdev interactions)
                  (statistics_mean tokens) (statistics_stdev tokens)) data
    else [].

(** [detect_usage_anomalies] after its fetch. *)
Definition detect_usage_anomalies (results : list DailyRow) : list Anomaly :=
  flat_map (fun kv => agent_anomalies kv.1 kv.2) (agent_data_of results).

(** ** intelligent_alerts.py: rules, alerts and the service state *)

Inductive AlertType :=
| USAGE_LIMIT_APPROACHING
| USAGE_LIMIT_EXCEEDED
| ANOMALY_DETECTED
| CHURN_RISK
| UPGRADE_OPPORTUNITY
| PERFORMANCE_DEGRADATION
| SUSPICIOUS_ACTIVITY
| AGENT_OVERLOAD
| USER_INACTIVE
| RAPID_USAGE_SPIKE.

Definition AlertType_value (t : AlertType) : string :=
  match t with
  | USAGE_LIMIT_APPROACHING => "usage_limit_approaching"
  | USAGE_LIMIT_EXCEEDED => "usage_limit_exceeded"
  | ANOMALY_DETECTED => "anomaly_detected"
  | CHURN_RISK => "churn_risk"
  | UPGRADE_OPPORTUNITY => "upgrade_opportunity"
  | PERFORMANCE_DEGRADATION => "performance_degradation"
  | SUSPICIOUS_ACTIVITY => "suspicious_activity"
  | AGENT_OVERLOAD => "agent_overload"
  | USER_INACTIVE => "user_inactive"
  | RAPID_USAGE_SPIKE => "rapid_usage_spike"
  end.

Inductive AlertSeverity := LOW | MEDIUM | HIGH | CRITICAL.

Definition AlertSeverity_value (s : AlertSeverity) : string :=
  match s with
  | LOW => "low" | MEDIUM => "medium" | HIGH => "high" | CRITICAL => "critical"
  end.

Inductive AlertChannel := EMAIL | SLACK | WEBHOOK | DASHBOARD | SMS.

Record AlertRule := {
  rule_id : string;
  rule_name : string;
  rule_alert_type : AlertType;
  rule_conditions : PyDict;
  rule_severity : AlertSeverity;
  rule_channels : list AlertChannel;
  rule_cooldown_minutes : Z;
  rule_enabled : bool
}.

Record Alert := {
  alert_id : string;
  alert_rule_id : string;
  alert_type : AlertType;
  alert_severity : AlertSeverity;
  alert_title : Text;
  alert_message : Text;
  alert_user_id : option string;
  alert_agent_id : option string;
  alert_metadata : PyDict;
  triggered_at : Z;
  resolved_at : option Z;
  acknowledged_at : option Z;
  acknowledged_by : option string;
  channels_sent : list AlertChannel;
  auto_resolved : bool
}.

(** The configurable thresholds of the service. *)
Definition threshold_usage_warning : Q := 8 # 10.
Definition threshold_usage_critical : Q := 95 # 100.
Definition threshold_churn_risk : Q := 7 # 10.
Definition threshold_response_time_degradation : Q := 5000.
Definition threshold_anomaly_z_score : Q := 25 # 10.
Definition threshold_inactivity_days : Z := 7.
Definition threshold_spike_multiplier : Q := 3.

Definition mk_rule (id name : string) (t : AlertType) (conds : PyDict)
    (sev : AlertSeverity) (chans : list AlertChannel) (cooldown : Z) : AlertRule :=
  {| rule_id := id; rule_name := name; rule_alert_type := t;
     rule_conditions := conds; rule_severity := sev; rule_channels := chans;
     rule_cooldown_minutes := cooldown; rule_enabled := true |}.

(** [_initialize_default_rules]: the six rules registered at construction. *)
Definition default_rules : gmap string AlertRule :=
  <["user_inactive" :=
      mk_rule "user_inactive" "Usuario Inactivo" USER_INACTIVE
        [("days_inactive", VInt threshold_inactivity_days);
         ("tier", VStrs ["pro"; "elite"; "prime"; "longevity"])]
        MEDIUM [DASHBOARD; EMAIL] 1440]>
  (<["anomaly" :=
      mk_rule "anomaly" "Anomalía en Uso Detectada" ANOMALY_DETECTED
        [("z_score", VNum threshold_anomaly_z_score)]
        MEDIUM [DASHBOARD; SLACK] 180]>
  (<["upgrade_opportunity" :=
      mk_rule "upgrade_opportunity" "Oportunidad de Upgrade" UPGRADE_OPPORTUNITY
        [("usage_percentage", VNum (85 # 100));
         ("tier", VStrs ["essential"; "pro"]);
         ("active_days", VInt 15)]
        LOW [DASHBOARD] 2880]>
  (<["churn_risk" :=
      mk_rule "churn_risk" "Riesgo de Churn Detectado" CHURN_RISK
        [("churn_probability", VNum threshold_churn_risk);
         ("tier", VStrs ["pro"; "elite"; "prime"; "longevity"])]
        HIGH [DASHBOARD; SLACK] 1440]>
  (<["usage_exceeded" :=
      mk_rule "usage_exceeded" "Límite de Uso Excedido" USAGE_LIMIT_EXCEEDED
        [("usage_percentage", VNum threshold_usage_critical)]
        CRITICAL [DASHBOARD; EMAIL; SLACK] 60]>
  (<["usage_approaching" :=
      mk_rule "usage_approaching" "Límite de Uso Aproximándose"
        USAGE_LIMIT_APPROACHING
        [("usage_percentage", VNum threshold_usage_warning);
         ("tier", VStrs ["essential"; "pro"; "elite"])]
        MEDIUM [DASHBOARD; EMAIL] 120]> ∅))))).

(** One row of the [usage_alerts] table. *)
Record UsageAlertRow := {
  ua_id : string;
  ua_user_id : option string;
  ua_alert_type : string;
  ua_message : Text;
  ua_threshold : Q;
  ua_current_value : Q;
  ua_triggered_at : Z;
  ua_severity : string;
  ua_metadata : PyDict;
  ua_acknowledged_at : option Z;
  ua_acknowledged_by : option string;
  ua_resolved_at : option Z
}.

(** The service instance together with the table it writes.  [heap] is the
    store of [Alert] objects; an address is an index into it.  The active
    map, the history and the queue hold addresses, so that an update made
    through one of them is seen through the others. *)
Record Service := {
  alert_rules : gmap string AlertRule;
  heap : list Alert;
  active_alerts : list (string * nat);
  alert_history : list nat;
  notification_queue : list (nat * list AlertChannel);
  usage_alerts : list UsageAlertRow
}.

Definition new_service : Service :=
  {| alert_rules := default_rules; heap := []; active_alerts := [];
     alert_history := []; notification_queue := []; usage_alerts := [] |}.

(** The alerts the active map currently points to, in the order of the map. *)
Definition active_values (s : Service) : list Alert :=
  omap (fun kv => heap s !! kv.2) (active_alerts s).

Definition active_lookup (s : Service) (id : string) : option Alert :=
  match dict_get id (active_alerts s) with
  | Some a => heap s !! a
  | None => None
  end.

(** [_is_in_cooldown]: is there a row whose [alert_type] column equals
    [alert_key] and that was triggered after the cooldown threshold? *)
Definition _is_in_cooldown (s : Service) (now : Z) (alert_key : string)
    (cooldown_minutes : Z) : bool :=
  let cooldown_threshold := now - timedelta_minutes cooldown_minutes in
  existsb (fun r => streq (ua_alert_type r) alert_key
                    && (cooldown_threshold <? ua_triggered_at r))
          (usage_alerts s).

(** [_save_alert_to_db]. *)
Definition row_of_alert (a : Alert) : UsageAlertRow :=
  {| ua_id := alert_id a;
     ua_user_id := alert_user_id a;
     ua_alert_type := AlertType_value (alert_type a);
     ua_message := alert_message a;
     ua_threshold := 0;
     ua_current_value := 0;
     ua_triggered_at := triggered_at a;
     ua_severity := AlertSeverity_value (alert_severity a);
     ua_metadata := alert_metadata a;
     ua_acknowledged_at := None;
     ua_acknowledged_by := None;
     ua_resolved_at := None |}.

Definition _save_alert_to_db (s : Service) (a : Alert) : Service :=
  {| alert_rules := alert_rules s; heap := heap s;
     active_alerts := active_alerts s; alert_history := alert_history s;
     notification_queue := notification_queue s;
     usage_alerts := usage_alerts s ++ [row_of_alert a] |}.

(** The arguments of one call of [_trigger_alert]. *)
Record Trigger := {
  tr_rule_id : string;
  tr_title : Text;
  tr_message : Text;
  tr_user_id : option string;
  tr_agent_id : option string;
  tr_metadata : option PyDict
}.

(** [f"{rule_id}_{user_id or agent_id or 'global'}"]. *)
Definition alert_key_of (t : Trigger) : string :=
  tr_rule_id t ++ "_"
  ++ default "global" (py_or (py_or (tr_user_id t) (tr_agent_id t)) (Some "global")).

(** [metadata or {}]. *)
Definition metadata_or_empty (m : option PyDict) : PyDict := default [] m.

(** [self.active_alerts[alert.id] = alert; self.alert_history.append(alert)]
    for a freshly constructed alert, which gets the next free address. *)
Definition register_alert (s : Service) (a : Alert) : Service :=
  let addr := length (heap s) in
  {| alert_rules := alert_rules s;
     heap := heap s ++ [a];
     active_alerts := dict_set (alert_id a) addr (active_alerts s);
     alert_history := alert_history s ++ [addr];
     notification_queue := notification_queue s;
     usage_alerts := usage_alerts s |}.

(** [self.notification_queue.put({'alert': alert, 'channels': channels})]. *)
Definition enqueue (s : Service) (addr : nat) (chans : list AlertChannel) : Service :=
  {| alert_rules := alert_rules s; heap := heap s;
     active_alerts := active_alerts s; alert_history := alert_history s;
     notification_queue := notification_queue s ++ [(addr, chans)];
     usage_alerts := usage_alerts s |}.

Definition new_alert (rule : AlertRule) (now : Z) (uuid : string) (t : Trigger)
    : Alert :=
  {| alert_id := uuid;
     alert_rule_id := tr_rule_id t;
     alert_type := rule_alert_type rule;
     alert_severity := rule_severity rule;
     alert_title := tr_title t;
     alert_message := tr_message t;
     alert_user_id := tr_user_id t;
     alert_agent_id := tr_agent_id t;
     alert_metadata := metadata_or_empty (tr_metadata t);
     triggered_at := now;
     resolved_at := None;
     acknowledged_at := None;
     acknowledged_by := None;
     channels_sent := [];
     auto_resolved := false |}.

(** [_trigger_alert], at time [now], with [uuid] the identifier drawn by
    [uuid.uuid4()]. *)
Definition _trigger_alert (s : Service) (now : Z) (uuid : string) (t : Trigger)
    : Service :=
  match alert_rules s !! tr_rule_id t with
  | None => s
  | Some rule =>
      if negb (rule_enabled rule) then s
      else if _is_in_cooldown s now (alert_key_of t) (rule_cooldown_minutes rule)
      then s
      else
        let alert := new_alert rule now uuid t in
        let addr := length (heap s) in
        let s1 := register_alert s alert in
        let s2 := _save_alert_to_db s1 alert in
        enqueue s2 addr (rule_channels rule)
  end.

(** A monitor cycle issues its calls one after the other; the [n]-th call
    of the cycle reads the clock and draws its identifier from [oracle n]. *)
Fixpoint run_triggers (oracle : nat -> Z * string) (n : nat) (s : Service)
    (calls : list Trigger) : Service :=
  match calls with
  | [] => s
  | t :: rest =>
      run_triggers oracle (S n)
        (_trigger_alert s (oracle n).1 (oracle n).2 t) rest
  end.

(** ** intelligent_alerts.py: the usage-limit monitor *)

(** One row of the monthly usage query (grouped by user and tier). *)
Record UsageRow := {
  us_user_id : string;
  us_subscription_tier : string;
  us_monthly_tokens : option Z;
  us_monthly_interactions : Z;
  us_active_days : Z;
  us_last_activity : Z
}.

(** What the calendar tells the cycle: the current month (1 to 12) and the
    whole days left until the first of the next month. *)
Record Calendar := {
  cal_month : Z;
  cal_days_remaining : Z
}.

(** What processing one row does: one call of [_trigger_alert], nothing, or
    an exception that the cycle's [except] turns into the end of the cycle. *)
Inductive RowOutcome :=
| Call (t : Trigger)
| NoCall
| Raise.

Definition usage_percentage_of (row : UsageRow) : Q :=
  let monthly_tokens := default 0 (us_monthly_tokens row) in
  let limit := tier_limit (us_subscription_tier row) in
  (zq monthly_tokens / zq limit)%Q.

Definition approaching_trigger (cal : Calendar) (row : UsageRow) : Trigger :=
  let tier := us_subscription_tier row in
  let tokens := default 0 (us_monthly_tokens row) in
  let pct := usage_percentage_of row in
  {| tr_rule_id := "usage_approaching";
     tr_user_id := Some (us_user_id row);
     tr_agent_id := None;
     tr_title := [Lit "Límite de uso aproximándose - "; Lit (upper tier)];
     tr_message := [Lit "Usuario "; Lit (us_user_id row); Lit " ha usado ";
                    FPct1 pct; Lit " de su límite mensual (";
                    FIntComma tokens; Lit "/"; FIntComma (tier_limit tier);
                    Lit " tokens)"];
     tr_metadata := Some [("usage_percentage", VNum pct);
                          ("tokens_used", VInt tokens);
                          ("tokens_limit", VInt (tier_limit tier));
                          ("tier", VStr tier);
                          ("days_remaining", VInt (cal_days_remaining cal))] |}.

Definition exceeded_trigger (row : UsageRow) : Trigger :=
  let tier := us_subscription_tier row in
  let tokens := default 0 (us_monthly_tokens row) in
  let pct := usage_percentage_of row in
  {| tr_rule_id := "usage_exceeded";
     tr_user_id := Some (us_user_id row);
     tr_agent_id := None;
     tr_title := [Lit "Límite de uso EXCEDIDO - "; Lit (upper tier)];
     tr_message := [Lit "⚠️ Usuario "; Lit (us_user_id row);
                    Lit " ha excedido su límite mensual ("; FPct1 pct;
                    Lit " - "; FIntComma tokens; Lit "/";
                    FIntComma (tier_limit tier); Lit " tokens)"];
     tr_metadata := Some [("usage_percentage", VNum pct);
                          ("tokens_used", VInt tokens);
                          ("tokens_limit", VInt (tier_limit tier));
                          ("tier", VStr tier);
                          ("overage", VInt (tokens - tier_limit tier))] |}.

Definition upgrade_trigger (row : UsageRow) : Trigger :=
  let tier := us_subscription_tier row in
  let pct := usage_percentage_of row in
  {| tr_rule_id := "upgrade_opportunity";
     tr_user_id := Some (us_user_id row);
     tr_agent_id := None;
     tr_title := [Lit "Oportunidad de Upgrade - "; Lit (us_user_id row)];
     tr_message := [Lit "Usuario activo "; Lit (us_user_id row); Lit " usando ";
                    FPct1 pct; Lit " de su límite "; Lit tier;
                    Lit ". Candidato para upgrade."];
     tr_metadata := Some [("usage_percentage", VNum pct);
                          ("current_tier", VStr tier);
                          ("suggested_tier",
                           VStr (if streq tier "essential" then "pro" else "elite"));
                          ("active_days", VInt (us_active_days row))] |}.

(** The [if]/[elif]/[elif] chain of the loop body.  Building the metadata of
    the first branch evaluates [now.replace(month=now.month+1, day=1)], which
    raises for month 12. *)
Definition usage_row_outcome (cal : Calendar) (row : UsageRow) : RowOutcome :=
  let pct := usage_percentage_of row in
  let tier := us_subscription_tier row in
  if Qle_bool threshold_usage_warning pct && Qltb pct threshold_usage_critical then
    if cal_month cal + 1 <=? 12 then Call (approaching_trigger cal row) else Raise
  else if Qle_bool threshold_usage_critical pct then
    Call (exceeded_trigger row)
  else if Qle_bool (85 # 100) pct
          && (streq tier "essential" || streq tier "pro")
          && (15 <=? us_active_days row) then
    Call (upgrade_trigger row)
  else NoCall.

(** The calls one cycle makes, each with the row it was made for. *)
Fixpoint usage_calls (cal : Calendar) (rows : list UsageRow)
    : list (UsageRow * Trigger) :=
  match rows with
  | [] => []
  | row :: rest =>
      match usage_row_outcome cal row with
      | Call t => (row, t) :: usage_calls cal rest
      | NoCall => usage_calls cal rest
      | Raise => []
      end
  end.

Definition _check_usage_limits (oracle : nat -> Z * string) (cal : Calendar)
    (rows : list UsageRow) (s : Service) : Service :=
  run_triggers oracle 0 s (map snd (usage_calls cal rows)).

(** The classification of a usage row as the specification words it:
    exceeded first, then approaching, then upgrade candidate. *)
Inductive UsageClass := Exceeded | Approaching | UpgradeCandidate.

Definition spec_usage_class (row : UsageRow) : option UsageClass :=
  let pct := usage_percentage_of row in
  let tier := us_subscription_tier row in
  if Qle_bool (95 # 100) pct then Some Exceeded
  else if Qle_bool (8 # 10) pct && Qltb pct (95 # 100) then Some Approaching
  else if Qle_bool (85 # 100) pct
          && (streq tier "essential" || streq tier "pro")
          && (15 <=? us_active_days row) then Some UpgradeCandidate
  else None.

Definition usage_class_rule (c : UsageClass) : string :=
  match c with
  | Exceeded => "usage_exceeded"
  | Approaching => "usage_approaching"
  | UpgradeCandidate => "upgrade_opportunity"
  end.

(** The alert the specification selects for a row, if any: the row, the
    rule, and the user it is raised for. *)
Definition spec_usage_alert (row : UsageRow)
    : option (UsageRow * string * option string) :=
  match spec_usage_class row with
  | Some c => Some (row, usage_class_rule c, Some (us_user_id row))
  | None => None
  end.

(** The same three components of a call the monitor makes. *)
Definition call_summary (rt : UsageRow * Trigger)
    : UsageRow * string * option string :=
  (rt.1, tr_rule_id rt.2, tr_user_id rt.2).

(** The call the specification selects for a row: the alert of the row's
    class, with the arguments the monitor passes for it. *)
Definition spec_usage_trigger (cal : Calendar) (row : UsageRow) : option Trigger :=
  match spec_usage_class row with
  | Some Exceeded => Some (exceeded_trigger row)
  | Some Approaching => Some (approaching_trigger cal row)
  | Some UpgradeCandidate => Some (upgrade_trigger row)
  | None => None
  end.

(** The rule and the user of a call, and of an alert. *)
Definition trigger_call (t : Trigger) : string * option string :=
  (tr_rule_id t, tr_user_id t).

Definition alert_call (a : Alert) : string * option string :=
  (alert_rule_id a, alert_user_id a).

(** ** intelligent_alerts.py: the anomaly, churn and performance monitors *)

Definition anomaly_dict (a : Anomaly) : PyDict :=
  [("type", VStr (an_type a)); ("agent_id", VStr (an_agent_id a));
   ("date", VInt (an_date a)); ("value", VInt (an_value a));
   ("expected", match an_expected a with
                | PyInt z => VInt z
                | PyFloat x => VNum x
                end);
   ("severity", VStr (an_severity a));
   ("description", VText (an_description a))].

Definition anomaly_calls (anomalies : list Anomaly) : list Trigger :=
  flat_map (fun a =>
    if streq (an_severity a) "high" || streq (an_severity a) "critical" then
      [{| tr_rule_id := "anomaly";
          tr_agent_id := Some (an_agent_id a);
          tr_user_id := None;
          tr_title := [Lit "Anomalía Detectada - "; Lit (an_type a)];
          tr_message := [Lit "Anomalía en "; Lit (an_agent_id a); Lit ": "]
                        ++ an_description a;
          tr_metadata := Some (anomaly_dict a) |}]
    else []) anomalies.

(** [_check_usage_anomalies], given the rows the detector fetches. *)
Definition _check_usage_anomalies (oracle : nat -> Z * string)
    (daily : list DailyRow) (s : Service) : Service :=
  run_triggers oracle 0 s (anomaly_calls (detect_usage_anomalies daily)).

(** The users the churn monitor visits: the distinct (user, tier) pairs of
    paid tiers active since [since]. *)
Definition paid_tier (tier : string) : bool :=
  streq tier "pro" || streq tier "elite" || streq tier "prime"
  || streq tier "longevity".

Definition churn_users (events : list UsageEvent) (since : Z)
    : list (string * string) :=
  remove_dups
    (map (fun e => (ev_user_id e, ev_subscription_tier e))
       (List.filter (fun e => (since <=? ev_timestamp e)
                              && paid_tier (ev_subscription_tier e)) events)).

Definition churn_calls (events : list UsageEvent) (now : Z) : list Trigger :=
  flat_map (fun ut =>
    let user_id := ut.1 in
    let tier := ut.2 in
    let insights := generate_user_insights events now user_id in
    if Qle_bool threshold_churn_risk (ui_predicted_churn_probability insights)
       && (streq (ui_risk_level insights) "high"
           || streq (ui_risk_level insights) "critical") then
      [{| tr_rule_id := "churn_risk";
          tr_user_id := Some user_id;
          tr_agent_id := None;
          tr_title := [Lit "Riesgo de Churn - "; Lit (upper tier)];
          tr_message := [Lit "Usuario "; Lit user_id; Lit " tiene ";
                         FPct1 (ui_predicted_churn_probability insights);
                         Lit " probabilidad de churn (score: ";
                         FFix1 (ui_usage_score insights); Lit ")"];
          tr_metadata :=
            Some [("churn_probability",
                   VNum (ui_predicted_churn_probability insights));
                  ("usage_score", VNum (ui_usage_score insights));
                  ("risk_level", VStr (ui_risk_level insights));
                  ("recommendations", VTexts (ui_recommendations insights));
                  ("tier", VStr tier)] |}]
    else [])
    (churn_users events (now - timedelta_days 30)).

Definition _check_churn_risk (oracle : nat -> Z * string)
    (events : list UsageEvent) (now : Z) (s : Service) : Service :=
  run_triggers oracle 0 s (churn_calls events now).

(** The fixed roster of the performance monitor. *)
Definition performance_agents : list string :=
  ["NEXUS"; "BLAZE"; "SAGE"; "ARIA"; "CIPHER"; "ECHO"].

(** The test of the performance monitor on an agent's one-day metrics. *)
Definition performance_degraded (p : AgentPerformanceMetrics) : bool :=
  Qltb threshold_response_time_degradation (ap_avg_response_time p)
  && (10 <? ap_total_interactions p).

Definition performance_trigger (agent_id : string)
    (p : AgentPerformanceMetrics) : Trigger :=
  {| tr_rule_id := "performance_degradation";
     tr_agent_id := Some agent_id;
     tr_user_id := None;
     tr_title := [Lit "Degradación de Rendimiento - "; Lit agent_id];
     tr_message := [Lit "Agente "; Lit agent_id;
                    Lit " muestra tiempo de respuesta elevado: ";
                    FFix0 (ap_avg_response_time p); Lit "ms (interacciones: ";
                    FInt (ap_total_interactions p); Lit ")"];
     tr_metadata :=
       Some [("avg_response_time", VNum (ap_avg_response_time p));
             ("total_interactions", VInt (ap_total_interactions p));
             ("success_rate", VNum (ap_success_rate p));
             ("threshold", VNum threshold_response_time_degradation)] |}.

Definition performance_calls (events : list UsageEvent) (now : Z) : list Trigger :=
  flat_map (fun agent_id =>
    let performance := analyze_agent_performance events now agent_id 1 in
    if performance_degraded performance
    then [performance_trigger agent_id performance] else [])
    performance_agents.

(** [_check_agent_performance]: one cycle of the performance monitor. *)
Definition _check_agent_performance (oracle : nat -> Z * string)
    (events : list UsageEvent) (now : Z) (s : Service) : Service :=
  run_triggers oracle 0 s (performance_calls events now).

(** ** intelligent_alerts.py: reading, acknowledging, resolving, cleaning *)

(** [get_active_alerts(limit)]: returns the state it was given, untouched,
    and a snapshot ([asdict]) of the selected alerts. *)
Definition get_active_alerts (s : Service) (limit : Z) : Service * list Alert :=
  (s, slice_to limit (sorted_reverse triggered_at (active_values s))).

Definition default_limit : Z := 50.

Definition set_heap (s : Service) (h : list Alert) : Service :=
  {| alert_rules := alert_rules s; heap := h;
     active_alerts := active_alerts s; alert_history := alert_history s;
     notification_queue := notification_queue s;
     usage_alerts := usage_alerts s |}.

Definition set_usage_alerts (s : Service) (t : list UsageAlertRow) : Service :=
  {| alert_rules := alert_rules s; heap := heap s;
     active_alerts := active_alerts s; alert_history := alert_history s;
     notification_queue := notification_queue s;
     usage_alerts := t |}.

Definition set_resolved_at (a : Alert) (t : Z) : Alert :=
  {| alert_id := alert_id a; alert_rule_id := alert_rule_id a;
     alert_type := alert_type a; alert_severity := alert_severity a;
     alert_title := alert_title a; alert_message := alert_message a;
     alert_user_id := alert_user_id a; alert_agent_id := alert_agent_id a;
     alert_metadata := alert_metadata a; triggered_at := triggered_at a;
     resolved_at := Some t;
     acknowledged_at := acknowledged_at a;
     acknowledged_by := acknowledged_by a;
     channels_sent := channels_sent a; auto_resolved := auto_resolved a |}.

Definition set_acknowledged (a : Alert) (t : Z) (by_ : string) : Alert :=
  {| alert_id := alert_id a; alert_rule_id := alert_rule_id a;
     alert_type := alert_type a; alert_severity := alert_severity a;
     alert_title := alert_title a; alert_message := alert_message a;
     alert_user_id := alert_user_id a; alert_agent_id := alert_agent_id a;
     alert_metadata := alert_metadata a; triggered_at := triggered_at a;
     resolved_at := resolved_at a;
     acknowledged_at := Some t;
     acknowledged_by := Some by_;
     channels_sent := channels_sent a; auto_resolved := auto_resolved a |}.

Definition set_channels_sent (a : Alert) (l : list AlertChannel) : Alert :=
  {| alert_id := alert_id a; alert_rule_id := alert_rule_id a;
     alert_type := alert_type a; alert_severity := alert_severity a;
     alert_title := alert_title a; alert_message := alert_message a;
     alert_user_id := alert_user_id a; alert_agent_id := alert_agent_id a;
     alert_metadata := alert_metadata a; triggered_at := triggered_at a;
     resolved_at := resolved_at a;
     acknowledged_at := acknowledged_at a;
     acknowledged_by := acknowledged_by a;
     channels_sent := l; auto_resolved := auto_resolved a |}.

(** In-place update of the object at an address. *)
Definition heap_update (s : Service) (addr : nat) (f : Alert -> Alert) : Service :=
  match heap s !! addr with
  | Some a => set_heap s (<[addr := f a]> (heap s))
  | None => s
  end.

(** [UPDATE usage_alerts SET resolved_at = $1 WHERE id = $2]. *)
Definition db_set_resolved (t : Z) (id : string) (rows : list UsageAlertRow)
    : list UsageAlertRow :=
  map (fun r =>
         if streq (ua_id r) id then
           {| ua_id := ua_id r; ua_user_id := ua_user_id r;
              ua_alert_type := ua_alert_type r; ua_message := ua_message r;
              ua_threshold := ua_threshold r;
              ua_current_value := ua_current_value r;
              ua_triggered_at := ua_triggered_at r;
              ua_severity := ua_severity r; ua_metadata := ua_metadata r;
              ua_acknowledged_at := ua_acknowledged_at r;
              ua_acknowledged_by := ua_acknowledged_by r;
              ua_resolved_at := Some t |}
         else r) rows.

(** [UPDATE usage_alerts SET acknowledged_at = $1, acknowledged_by = $2
    WHERE id = $3]. *)
Definition db_set_acknowledged (t : Z) (by_ id : string)
    (rows : list UsageAlertRow) : list UsageAlertRow :=
  map (fun r =>
         if streq (ua_id r) id then
           {| ua_id := ua_id r; ua_user_id := ua_user_id r;
              ua_alert_type := ua_alert_type r; ua_message := ua_message r;
              ua_threshold := ua_threshold r;
              ua_current_value := ua_current_value r;
              ua_triggered_at := ua_triggered_at r;
              ua_severity := ua_severity r; ua_metadata := ua_metadata r;
              ua_acknowledged_at := Some t;
              ua_acknowledged_by := Some by_;
              ua_resolved_at := ua_resolved_at r |}
         else r) rows.

(** [resolve_alert].  [db_ok] tells whether the database update goes
    through; when it raises, the in-memory update has already happened and
    the [except] clause answers [False]. *)
Definition resolve_alert (s : Service) (now : Z) (db_ok : bool)
    (id resolved_by : string) : Service * bool :=
  match dict_get id (active_alerts s) with
  | Some addr =>
      let s1 := heap_update s addr (fun a => set_resolved_at a now) in
      if db_ok
      then (set_usage_alerts s1 (db_set_resolved now id (usage_alerts s1)), true)
      else (s1, false)
  | None => (s, false)
  end.

(** [acknowledge_alert], with the same convention for [db_ok]. *)
Definition acknowledge_alert (s : Service) (now : Z) (db_ok : bool)
    (id acknowledged_by_ : string) : Service * bool :=
  match dict_get id (active_alerts s) with
  | Some addr =>
      let s1 := heap_update s addr
                  (fun a => set_acknowledged a now acknowledged_by_) in
      if db_ok
      then (set_usage_alerts s1
              (db_set_acknowledged now acknowledged_by_ id (usage_alerts s1)),
            true)
      else (s1, false)
  | None => (s, false)
  end.

Definition is_resolved (s : Service) (addr : nat) : bool :=
  match heap s !! addr with
  | Some a => bool_decide (resolved_at a ≠ None)
  | None => false
  end.

Definition triggered_after (s : Service) (cutoff : Z) (addr : nat) : bool :=
  match heap s !! addr with
  | Some a => cutoff <? triggered_at a
  | None => false
  end.

(** One pass of the body of [_alert_cleanup]: the history keeps the alerts
    of the last seven days, and every resolved alert is deleted from the
    active map. *)
Definition _alert_cleanup (s : Service) (now : Z) : Service :=
  let cutoff_time := now - timedelta_days 7 in
  let history := List.filter (triggered_after s cutoff_time) (alert_history s) in
  let resolved_alerts :=
    map fst (List.filter (fun kv => is_resolved s kv.2) (active_alerts s)) in
  {| alert_rules := alert_rules s; heap := heap s;
     active_alerts := foldl (fun d id => dict_del id d) (active_alerts s)
                            resolved_alerts;
     alert_history := history;
     notification_queue := notification_queue s;
     usage_alerts := usage_alerts s |}.

(** ** agent_usage/__init__.py: [ConnectionManager] *)

(** A connection is known by its identity.  [send_ok c] tells whether
    [c.send_text] returns (otherwise it raises). *)
Definition Conn := nat.

(** [list.remove(x)]: drops the first occurrence. *)
Fixpoint list_remove (x : Conn) (l : list Conn) : list Conn :=
  match l with
  | [] => []
  | y :: r => if decide (x = y) then r else y :: list_remove x r
  end.

Definition connect (conns : list Conn) (c : Conn) : list Conn := conns ++ [c].

(** [disconnect]: [list.remove] raises [ValueError] ([None]) when the
    connection is not registered. *)
Definition disconnect (conns : list Conn) (c : Conn) : option (list Conn) :=
  if bool_decide (c ∈ conns) then Some (list_remove c conns) else None.

(** The [for] loop of [broadcast].  A Python list iterator keeps an index
    into the live list: each step reads the element at index [i], if there is
    one, and moves on to [i + 1], whatever the body did to the list.
    [log] collects the deliveries, oldest first. *)
Fixpoint broadcast_loop {M} (send_ok : Conn -> bool) (message : M)
    (fuel i : nat) (conns : list Conn) (log : list (Conn * M))
    : list Conn * list (Conn * M) :=
  match fuel with
  | O => (conns, log)
  | S fuel' =>
      match conns !! i with
      | None => (conns, log)
      | Some connection =>
          if send_ok connection
          then broadcast_loop send_ok message fuel' (S i) conns
                 (log ++ [(connection, message)])
          else broadcast_loop send_ok message fuel' (S i)
                 (list_remove connection conns) log
      end
  end.

(** [broadcast]: the list never grows during the loop, so its initial
    length bounds the number of steps. *)
Definition broadcast {M} (send_ok : Conn -> bool) (conns : list Conn)
    (message : M) : list Conn * list (Conn * M) :=
  broadcast_loop send_ok message (length conns) 0 conns [].

(** ** intelligent_alerts.py: sending the notifications of an alert *)

(** The envelope [{'type': 'alert', 'alert': {...}}] sent to the dashboard. *)
Record DashboardMessage := {
  dm_type : string;
  dm_alert : PyDict
}.

Definition dashboard_message (a : Alert) : DashboardMessage :=
  {| dm_type := "alert";
     dm_alert := [("id", VStr (alert_id a));
                  ("title", VText (alert_title a));
                  ("message", VText (alert_message a));
                  ("severity", VStr (AlertSeverity_value (alert_severity a)));
                  ("alert_type", VStr (AlertType_value (alert_type a)));
                  ("triggered_at", VInt (triggered_at a));
                  ("user_id", from_option VStr VNone (alert_user_id a));
                  ("agent_id", from_option VStr VNone (alert_agent_id a));
                  ("metadata", VDict (alert_metadata a))] |}.

(** The body of the loop over the channels: every channel but the
    dashboard is a placeholder that succeeds; the dashboard channel
    broadcasts and succeeds as well.  The accumulator holds the channels
    sent so far, the registry and the deliveries. *)
Definition send_channel (send_ok : Conn -> bool) (a : Alert)
    (acc : list AlertChannel * list Conn * list (Conn * DashboardMessage))
    (channel : AlertChannel)
    : list AlertChannel * list Conn * list (Conn * DashboardMessage) :=
  let '(sent, cs, log) := acc in
  match channel with
  | DASHBOARD =>
      let '(cs', log') := broadcast send_ok cs (dashboard_message a) in
      (sent ++ [channel], cs', log ++ log')
  | _ => (sent ++ [channel], cs, log)
  end.

(** [_send_notifications]. *)
Definition _send_notifications (send_ok : Conn -> bool) (conns : list Conn)
    (s : Service) (addr : nat) (channels : list AlertChannel)
    : Service * list Conn * list (Conn * DashboardMessage) :=
  match heap s !! addr with
  | None => (s, conns, [])
  | Some a =>
      let '(sent, cs, log) := foldl (send_channel send_ok a) ([], conns, []) channels in
      (heap_update s addr (fun a => set_channels_sent a sent), cs, log)
  end.

(** ** Notions used in the statements *)

(** [before l a b]: some occurrence of [a] precedes some occurrence of [b]
    in [l]. *)
Definition before {A} (l : list A) (a b : A) : Prop :=
  exists l1 l2 l3, l = l1 ++ a :: l2 ++ b :: l3.

(** The order a stable descending sort of [l] puts its elements in. *)
Definition stable_desc {A} (key : A -> Z) (l : list A) (a b : A) : Prop :=
  key b < key a \/ (key a = key b /\ before l a b).

(** [appears_first l a b]: [a] occurs in [l] at a place before which [b] has
    not occurred, that is, [a] is seen no later than [b] is first seen. *)
Definition appears_first {A} (l : list A) (a b : A) : Prop :=
  exists l1 l2, l = l1 ++ a :: l2 /\ ~ In b l1.

(** The hours of the rows, in row order, and the interaction count summed
    over the rows of one hour. *)
Definition hours_of {R} (hour : R -> option Z) (results : list R) : list Z :=
  omap hour results.

Definition hour_total {R} (hour : R -> option Z) (count : R -> Z)
    (results : list R) (h : Z) : Z :=
  zsum (map count (List.filter (fun r => bool_decide (hour r = Some h)) results)).

(** [ranks_above hours total a b]: hour [a] has the higher summed count, or
    the two counts are equal and [a] is seen first among the rows' hours. *)
Definition ranks_above (hours : list Z) (total : Z -> Z) (a b : Z) : Prop :=
  total b < total a \/ (total a = total b /\ appears_first hours a b).

(** [top_three_hours results l]: [l] lists, best first, the three
    best-ranking hours of the rows (all the hours if these are fewer than
    three): no hour twice, only hours of the rows, every hour left out
    ranked below each of three listed ones, and the list in ranking order. *)
Definition top_three_hours (results : list MetricsRow) (l : list Z) : Prop :=
  let total := hour_total mr_hour mr_total_interactions results in
  let hours := hours_of mr_hour results in
  (length l <= 3)%nat
  /\ NoDup l
  /\ (forall h, In h l -> In h hours)
  /\ (forall h, In h hours -> ~ In h l ->
        length l = 3%nat /\ forall a, In a l -> ranks_above hours total a h)
  /\ (forall a b, before l a b -> ranks_above hours total a b).

(** The days of one agent among the rows of the daily query. *)
Definition agent_days (agent_id : string) (results : list DailyRow) : list DayData :=
  map day_of_row (List.filter (fun r => streq (dr_agent_id r) agent_id) results).

(** [z_exceeds k v xs]: the standard deviation [statistics.stdev(xs)] is
    positive and the z-score of [v], [abs(v - mean) / stdev] as the detector
    computes it in floats, is greater than [k]. *)
Definition z_exceeds (k : Z) (v : Z) (xs : list Z) : Prop :=
  (0 < statistics_stdev xs)%Q
  /\ (zq k < z_score v (statistics_mean xs) (statistics_stdev xs))%Q.

(** The z-score of the exact arithmetic: [|v - mean| / sqrt(variance)] is
    greater than [k >= 0] when [(v - mean)^2 > k^2 * variance]. *)
Definition exact_z_exceeds (k : Z) (v : Z) (xs : list Z) : Prop :=
  (0 < variance xs)%Q /\ (zq (k * k) * variance xs < qsq (zq v - zmean xs))%Q.

(** One day of one agent is flagged for a metric. *)
Definition flags_interactions (agent_id : string) (data : list DayData)
    (d : DayData) (an : Anomaly) : Prop :=
  let xs := map dd_interactions data in
  z_exceeds 2 (dd_interactions d) xs
  /\ an = mk_anomaly "interaction" interaction_description agent_id
            (dd_date d) (dd_interactions d) (statistics_mean xs)
            (z_score (dd_interactions d) (statistics_mean xs) (statistics_stdev xs)).

Definition flags_tokens (agent_id : string) (data : list DayData)
    (d : DayData) (an : Anomaly) : Prop :=
  let xs := map dd_tokens data in
  z_exceeds 2 (dd_tokens d) xs
  /\ an = mk_anomaly "token" token_description agent_id
            (dd_date d) (dd_tokens d) (statistics_mean xs)
            (z_score (dd_tokens d) (statistics_mean xs) (statistics_stdev xs)).

(** The active map is keyed by the identifier of the alert it points to:
    keys are distinct, every address is allocated, and the object there
    carries the key as its [id]. *)
Definition keyed_by_id (s : Service) (kv : string * nat) : Prop :=
  exists a, heap s !! kv.2 = Some a /\ alert_id a = kv.1.

Definition wf (s : Service) : Prop :=
  NoDup (dict_keys (active_alerts s)) /\ Forall (keyed_by_id s) (active_alerts s).

(** Newest first. *)
Definition newer_first (a b : Alert) : Prop := triggered_at b <= triggered_at a.

(** A breakdown entry whose ['users'] set is still the empty set. *)
Definition users_unset (kv : string * Breakdown) : Prop :=
  bd_users kv.2 = UsersSet ∅.

(** ** Sample inputs *)

Definition one_event : UsageEvent :=
  {| ev_user_id := "u1"; ev_agent_id := "NEXUS"; ev_session_id := "s1";
     ev_tokens_used := 10; ev_response_time_ms := 100;
     ev_timestamp := 3 * usec_per_hour; ev_subscription_tier := "pro" |}.

(** A group of [c] interactions of agent [agent] in hour [h], tier pro. *)
Definition metrics_row (agent : string) (h c : Z) : MetricsRow :=
  {| mr_total_interactions := c; mr_total_tokens := Some 100;
     mr_unique_users := 1; mr_unique_sessions := 1;
     mr_avg_response_time := Some 250%Q; mr_agent_id := agent;
     mr_subscription_tier := "pro"; mr_hour := Some h |}.

(** Agent NEXUS on day [d]: [i] interactions, 500 tokens, one user. *)
Definition daily_row (d i : Z) : DailyRow :=
  {| dr_usage_date := d; dr_daily_interactions := i; dr_daily_tokens := 500;
     dr_daily_users := 1; dr_agent_id := "NEXUS" |}.

Definition five_days : list DailyRow :=
  [daily_row 1 10; daily_row 2 10; daily_row 3 10; daily_row 4 10;
   daily_row 5 100].

Definition seven_days : list DailyRow :=
  [daily_row 1 10; daily_row 2 10; daily_row 3 10; daily_row 4 10;
   daily_row 5 10; daily_row 6 10; daily_row 7 100].

(** Eleven NEXUS interactions of 6000 ms each within the last day. *)
Definition slow_event (ts : Z) : UsageEvent :=
  {| ev_user_id := "u1"; ev_agent_id := "NEXUS"; ev_session_id := "s1";
     ev_tokens_used := 10; ev_response_time_ms := 6000;
     ev_timestamp := ts; ev_subscription_tier := "pro" |}.

Definition slow_nexus_events : list UsageEvent :=
  map (fun i => slow_event (i * usec_per_minute))
      [1; 2; 3; 4; 5; 6; 7; 8; 9; 10; 11].

(** User [u1] on tier pro, at 100% of the monthly allowance. *)
Definition exceeded_row : UsageRow :=
  {| us_user_id := "u1"; us_subscription_tier := "pro";
     us_monthly_tokens := Some 150000; us_monthly_interactions := 40;
     us_active_days := 12; us_last_activity := 0 |}.

(** A usage row of [user] on [tier] with [tokens] tokens this month, active
    on 12 days. *)
Definition usage_row (user tier : string) (tokens : Z) : UsageRow :=
  {| us_user_id := user; us_subscription_tier := tier;
     us_monthly_tokens := Some tokens; us_monthly_interactions := 40;
     us_active_days := 12; us_last_activity := 0 |}.

Definition june : Calendar := {| cal_month := 6; cal_days_remaining := 20 |}.
Definition december : Calendar := {| cal_month := 12; cal_days_remaining := 20 |}.

(** A clock that advances by one microsecond per call, and four identifiers. *)
Definition cycle_oracle (n : nat) : Z * string :=
  (Z.of_nat n, nth n ["id1"; "id2"; "id3"]%string "id4"%string).

(** The service after the rule [usage_exceeded] fired for [u1] at time 0,
    and after a second rule fired for [u1] five minutes later. *)
Definition one_alert : Service :=
  _trigger_alert new_service 0 "id1" (exceeded_trigger exceeded_row).

Definition two_alerts : Service :=
  _trigger_alert one_alert (5 * usec_per_minute) "id2"
    (upgrade_trigger exceeded_row).

(** ** intelligent_alerts.py: one turn of [_notification_processor] *)

(** The body of the loop once [notification_queue.get()] has returned: the
    oldest pending notification leaves the queue and is sent.  With an empty
    queue the wait times out and nothing changes. *)
Definition notification_step (send_ok : Conn -> bool) (conns : list Conn)
    (s : Service) : Service * list Conn * list (Conn * DashboardMessage) :=
  match notification_queue s with
  | [] => (s, conns, [])
  | (addr, channels) :: rest =>
      _send_notifications send_ok conns
        {| alert_rules := alert_rules s; heap := heap s;
           active_alerts := active_alerts s; alert_history := alert_history s;
           notification_queue := rest; usage_alerts := usage_alerts s |}
        addr channels
  end.

(** ** agent_usage/__init__.py: tier limits and the ingestion endpoint *)

Record TierLimit := {
  tl_total_tokens : Z;
  tl_agents : list string;
  tl_max_sessions_daily : Z
}.

Definition TIER_LIMITS : list (string * TierLimit) :=
  [("essential", {| tl_total_tokens := 50000;
                    tl_agents := ["NEXUS"; "BLAZE"];
                    tl_max_sessions_daily := 100 |});
   ("pro", {| tl_total_tokens := 150000;
              tl_agents := ["NEXUS"; "BLAZE"; "SAGE"; "ARIA"];
              tl_max_sessions_daily := 300 |});
   ("elite", {| tl_total_tokens := 500000;
                tl_agents := ["NEXUS"; "BLAZE"; "SAGE"; "ARIA"; "CIPHER"; "ECHO"];
                tl_max_sessions_daily := 1000 |});
   ("prime", {| tl_total_tokens := 1000000;
                tl_agents := ["*"];
                tl_max_sessions_daily := 2000 |});
   ("longevity", {| tl_total_tokens := 1000000;
                    tl_agents := ["*"];
                    tl_max_sessions_daily := 2000 |})]%string.

(** The event as the endpoint receives it. *)
Record AgentUsageEvent := {
  aue_user_id : string;
  aue_contact_id : option string;
  aue_agent_id : string;
  aue_session_id : string;
  aue_tokens_used : Z;
  aue_response_time_ms : Z;
  aue_timestamp : Z;
  aue_subscription_tier : string;
  aue_organization_id : option string;
  aue_context : option PyDict
}.

(** The columns of the inserted row that the services read. *)
Definition stored_event (e : AgentUsageEvent) : UsageEvent :=
  {| ev_user_id := aue_user_id e; ev_agent_id := aue_agent_id e;
     ev_session_id := aue_session_id e; ev_tokens_used := aue_tokens_used e;
     ev_response_time_ms := aue_response_time_ms e;
     ev_timestamp := aue_timestamp e;
     ev_subscription_tier := aue_subscription_tier e |}.

(** [TIER_LIMITS.get(tier, {}).get("agents", [])]. *)
Definition allowed_agents (tier : string) : list string :=
  match dict_get tier TIER_LIMITS with
  | Some limits => tl_agents limits
  | None => []
  end.

(** [allowed_agents != ["*"] and event.agent_id not in allowed_agents]. *)
Definition agent_rejected (e : AgentUsageEvent) : bool :=
  let allowed := allowed_agents (aue_subscription_tier e) in
  negb (bool_decide (allowed = ["*"%string]))
  && negb (bool_decide (aue_agent_id e ∈ allowed)).

Record LiveUsageUpdate := {
  lu_event_type : string;
  lu_data : PyDict;
  lu_timestamp : Z
}.

Inductive BackgroundTask :=
| ProcessUsageAnalytics (e : AgentUsageEvent)
| BroadcastUsageUpdate (u : LiveUsageUpdate).

(** What makes the endpoint fail: the tier check, which raises an
    [HTTPException] with status 400, or the database. *)
Inductive Failure :=
| AgentNotAllowed (agent_id tier : string)
| DatabaseError.

(** The answer of the endpoint: the success body, or the [HTTPException]
    that leaves it, with its status code and the failure its detail wraps. *)
Inductive Response :=
| Success (event_id : string)
| HttpError (status_code : Z) (cause : Failure).

(** [receive_usage_event].  The tier check raises inside the [try] block
    whose [except Exception] clause turns every exception, that one
    included, into an [HTTPException] with status 500. *)
Definition receive_usage_event (db_ok : bool) (now : Z) (uuid : string)
    (table : list UsageEvent) (e : AgentUsageEvent)
    : Response * list UsageEvent * list BackgroundTask :=
  if agent_rejected e then
    (HttpError 500 (AgentNotAllowed (aue_agent_id e) (aue_subscription_tier e)),
     table, [])
  else if negb db_ok then (HttpError 500 DatabaseError, table, [])
  else
    (Success uuid, table ++ [stored_event e],
     [ProcessUsageAnalytics e;
      BroadcastUsageUpdate
        {| lu_event_type := "usage_update";
           lu_data := [("user_id", VStr (aue_user_id e));
                       ("agent_id", VStr (aue_agent_id e));
                       ("tokens_used", VInt (aue_tokens_used e));
                       ("subscription_tier", VStr (aue_subscription_tier e))];
           lu_timestamp := now |}]).

(** ** agent_usage/__init__.py: the limits check *)




(** ** Further notions used in the statements *)

(** The unit roundoff of binary64. *)
Definition unit_roundoff : Q := 1 # (2 ^ 53).

(** Daily counts of a realistic size: at most [2^40] in absolute value. *)
Definition count_bound : Z := 2 ^ 40.

Definition within_bound (xs : list Z) : Prop :=
  Forall (fun x => Z.abs x <= count_bound) xs.

Definition rows_within_bound (results : list DailyRow) : Prop :=
  Forall (fun r => Z.abs (dr_daily_interactions r) <= count_bound
                   /\ Z.abs (dr_daily_tokens r) <= count_bound) results.

(** Five days of agent NEXUS with interaction counts just above [2^53]. *)
Definition five_huge_days : list DailyRow :=
  [daily_row 1 (2 ^ 53 + 1); daily_row 2 (2 ^ 53 + 1); daily_row 3 (2 ^ 53 + 1);
   daily_row 4 (2 ^ 53 + 1); daily_row 5 (2 ^ 53 + 3)].

(** The sum of one numeric field over the entries of a breakdown. *)
Definition breakdown_sum (field : Breakdown -> Z) (d : list (string * Breakdown)) : Z :=
  zsum (map (fun kv => field kv.2) d).

(** The metrics of a period without events. *)
Definition empty_metrics (start_date end_date : Z) : UsageMetrics :=
  {| um_period_start := start_date; um_period_end := end_date;
     um_total_interactions := 0; um_total_tokens := 0;
     um_unique_users := 0; um_unique_sessions := 0;
     um_avg_response_time := 0; um_agent_breakdown := [];
     um_tier_breakdown := []; um_peak_hours := [];
     um_conversion_insights := conversion_insights |}.

(** The states the service can be in: those obtained from a fresh instance
    by any sequence of its operations. *)
Inductive reachable : Service -> Prop :=
| reach_new : reachable new_service
| reach_trigger s now uuid t :
    reachable s -> reachable (_trigger_alert s now uuid t)
| reach_acknowledge s now db_ok id by_ :
    reachable s -> reachable (acknowledge_alert s now db_ok id by_).1
| reach_resolve s now db_ok id by_ :
    reachable s -> reachable (resolve_alert s now db_ok id by_).1
| reach_cleanup s now :
    reachable s -> reachable (_alert_cleanup s now)
| reach_notify s send_ok conns :
    reachable s -> reachable (notification_step send_ok conns s).1.1.

(** An alert carries the type and the severity of the registered rule it
    names. *)
Definition follows_rule (a : Alert) : Prop :=
  exists rule, default_rules !! alert_rule_id a = Some rule
               /\ alert_type a = rule_alert_type rule
               /\ alert_severity a = rule_severity rule.

(** An in-place update that leaves the identity of an alert alone. *)
Definition keeps_identity (f : Alert -> Alert) : Prop :=
  forall a, alert_id (f a) = alert_id a
            /\ alert_rule_id (f a) = alert_rule_id a
            /\ alert_type (f a) = alert_type a
            /\ alert_severity (f a) = alert_severity a.

(** The state invariant of the service. *)
Definition service_invariant (s : Service) : Prop :=
  wf s
  /\ alert_rules s = default_rules
  /\ Forall (fun addr => (addr < length (heap s))%nat) (alert_history s)
  /\ Forall (fun p => (p.1 < length (heap s))%nat) (notification_queue s)
  /\ Forall follows_rule (heap s).

(** What the dashboard channel delivers when every connection is healthy:
    one envelope per connection for each [DASHBOARD] among the channels. *)
Definition dashboard_deliveries (a : Alert) (conns : list Conn)
    (channels : list AlertChannel) : list (Conn * DashboardMessage) :=
  flat_map (fun ch => match ch with
                      | DASHBOARD => map (fun c => (c, dashboard_message a)) conns
                      | _ => []
                      end) channels.

(* ===================================================================== *)
(** * Part II. Properties                                                 *)
(* ===================================================================== *)

(** ** Stable descending sort and slicing *)

Section SortFacts.
Context {A : Type} (key : A -> Z).
Implicit Types (l : list A) (a b x : A).

Lemma before_cons l x a b : before l a b -> before (x :: l) a b.
Proof.
  intros (l1 & l2 & l3 & ->). exists (x :: l1), l2, l3. reflexivity.
Qed.

Lemma before_head l x b : In b l -> before (x :: l) x b.
Proof.
  intros Hb. apply in_split in Hb as (l2 & l3 & ->).
  exists [], l2, l3. reflexivity.
Qed.

Lemma insert_desc_perm x l : Permutation (insert_desc key x l) (x :: l).
Proof.
  induction l as [|y r IH]; simpl; [reflexivity|].
  destruct (key x <? key y); [|reflexivity].
  rewrite IH. apply perm_swap.
Qed.

Lemma sorted_reverse_perm l : Permutation (sorted_reverse key l) l.
Proof.
  induction l as [|x l IH]; simpl; [reflexivity|].
  rewrite insert_desc_perm. now constructor.
Qed.

Lemma sorted_reverse_length l : length (sorted_reverse key l) = length l.
Proof. apply Permutation_length, sorted_reverse_perm. Qed.

Lemma insert_desc_sorted (R : A -> A -> Prop) x l :
  (forall a b, R a b -> key b <= key a) ->
  (forall a, In a l -> key x < key a -> R a x) ->
  (forall b, In b l -> key b <= key x -> R x b) ->
  StronglySorted R l ->
  StronglySorted R (insert_desc key x l).
Proof.
  intros Hkey Hgt Hle Hs.
  induction Hs as [|y r Hr IH Hall]; simpl.
  - repeat constructor.
  - destruct (Z.ltb_spec (key x) (key y)) as [Hlt|Hge].
    + constructor.
      * apply IH; intros; [apply Hgt|apply Hle]; simpl; auto.
      * rewrite (insert_desc_perm x r). constructor; [|exact Hall].
        apply Hgt; simpl; auto.
    + constructor; [now constructor|].
      constructor; [apply Hle; simpl; auto|].
      apply List.Forall_forall. intros b Hb. apply Hle; [simpl; auto|].
      rewrite List.Forall_forall in Hall. specialize (Hall b Hb).
      apply Hkey in Hall. lia.
Qed.

Lemma StronglySorted_weaken (R R' : A -> A -> Prop) l :
  (forall a b, R a b -> R' a b) -> StronglySorted R l -> StronglySorted R' l.
Proof.
  intros HR Hs. induction Hs as [|y r Hr IH Hall]; constructor; auto.
  eapply List.Forall_impl; [|exact Hall]. intros b. apply HR.
Qed.

(** The model of [sorted(..., reverse=True)] orders by decreasing key and
    keeps elements of equal key in their original order. *)
Lemma sorted_reverse_stable l :
  StronglySorted (stable_desc key l) (sorted_reverse key l).
Proof.
  induction l as [|x l IH]; simpl; [constructor|].
  apply insert_desc_sorted.
  - intros a b [Hlt|[Heq _]]; lia.
  - intros a _ Hlt. now left.
  - intros b Hb Hle.
    destruct (Z.eq_dec (key x) (key b)) as [Heq|Hne].
    + right. split; [exact Heq|]. apply before_head.
      eapply Permutation_in; [apply sorted_reverse_perm|exact Hb].
    + left. lia.
  - eapply StronglySorted_weaken; [|exact IH].
    intros a b [Hlt|[Heq Hb]]; [now left|right].
    split; [exact Heq|now apply before_cons].
Qed.

Lemma StronglySorted_before (R : A -> A -> Prop) l a b :
  StronglySorted R l -> before l a b -> R a b.
Proof.
  intros Hs (l1 & l2 & l3 & ->).
  induction l1 as [|x l1 IH]; simpl in Hs.
  - apply StronglySorted_inv in Hs as [_ Hall].
    rewrite List.Forall_forall in Hall. apply Hall.
    apply List.in_or_app. right. now left.
  - apply StronglySorted_inv in Hs as [Hs _]. now apply IH.
Qed.

Lemma StronglySorted_app_inv (R : A -> A -> Prop) l1 l2 :
  StronglySorted R (l1 ++ l2) ->
  StronglySorted R l1 /\ StronglySorted R l2 /\
  (forall a b, In a l1 -> In b l2 -> R a b).
Proof.
  induction l1 as [|x l1 IH]; simpl; intros Hs.
  - repeat split; [constructor|exact Hs|intros a b []].
  - apply StronglySorted_inv in Hs as [Hs Hall].
    destruct (IH Hs) as (H1 & H2 & H3).
    rewrite List.Forall_forall in Hall.
    repeat split; [|exact H2|].
    + constructor; [exact H1|]. apply List.Forall_forall.
      intros b Hb. apply Hall, in_or_app. now left.
    + intros a b [<-|Ha] Hb; [|now apply H3].
      apply Hall, in_or_app. now right.
Qed.

Lemma before_firstn n l a b : before (firstn n l) a b -> before l a b.
Proof.
  intros (l1 & l2 & l3 & Heq).
  exists l1, l2, (l3 ++ skipn n l).
  rewrite <- (firstn_skipn n l) at 1. rewrite Heq.
  rewrite <- !app_assoc. simpl. rewrite <- app_assoc. reflexivity.
Qed.
End SortFacts.

Lemma slice_to_nonneg {A} (n : Z) (l : list A) :
  0 <= n -> slice_to n l = firstn (Z.to_nat n) l.
Proof.
  intros Hn. unfold slice_to.
  destruct (Z.leb_spec 0 n); [reflexivity|lia].
Qed.

(** ** Insertion-ordered dictionaries *)

Section DictFacts.
Context {K V : Type} `{EqDecision K}.
Implicit Types (d : list (K * V)) (k : K) (v : V).

Lemma dict_get_Some_In k v d : dict_get k d = Some v -> In (k, v) d.
Proof.
  induction d as [|[k' v'] d IH]; simpl; [discriminate|].
  destruct (decide (k = k')) as [->|Hne].
  - intros [= ->]. now left.
  - intros H. right. now apply IH.
Qed.

Lemma dict_get_None k d : dict_get k d = None <-> ~ In k (dict_keys d).
Proof.
  induction d as [|[k' v'] d IH]; simpl; [tauto|].
  destruct (decide (k = k')) as [->|Hne].
  - split; [discriminate|]. intros H. exfalso. apply H. now left.
  - rewrite IH. split; [intros H [Heq|Hin]; [congruence|tauto]|tauto].
Qed.

Lemma dict_get_is_Some k d : is_Some (dict_get k d) <-> In k (dict_keys d).
Proof.
  destruct (dict_get k d) eqn:E.
  - split; [intros _|eauto].
    apply dict_get_Some_In in E. now apply (in_map fst) in E.
  - apply dict_get_None in E. split; [intros [? ?]; discriminate|tauto].
Qed.

Lemma dict_get_app k d d' :
  dict_get k (d ++ d') =
  match dict_get k d with Some v => Some v | None => dict_get k d' end.
Proof.
  induction d as [|[k' v'] d IH]; simpl; [reflexivity|].
  destruct (decide (k = k')); [reflexivity|exact IH].
Qed.

Lemma dict_get_set k k' v d :
  dict_get k' (dict_set k v d) =
  if decide (k' = k) then Some v else dict_get k' d.
Proof.
  induction d as [|[k0 v0] d IH]; simpl.
  - destruct (decide (k' = k)); reflexivity.
  - destruct (decide (k = k0)) as [->|Hne]; simpl.
    + destruct (decide (k' = k0)); reflexivity.
    + destruct (decide (k' = k0)) as [->|Hne'].
      * destruct (decide (k0 = k)); [congruence|reflexivity].
      * exact IH.
Qed.

Lemma dict_keys_set k v d :
  dict_keys (dict_set k v d) =
  match dict_get k d with
  | Some _ => dict_keys d
  | None => dict_keys d ++ [k]
  end.
Proof.
  induction d as [|[k0 v0] d IH]; simpl; [reflexivity|].
  destruct (decide (k = k0)) as [->|Hne]; simpl; [reflexivity|].
  rewrite IH. destruct (dict_get k d); reflexivity.
Qed.

Lemma dict_get_upd dflt k k' (f : V -> V) d :
  dict_get k' (dict_upd dflt k f d) =
  if decide (k' = k) then Some (f (default dflt (dict_get k d)))
  else dict_get k' d.
Proof.
  unfold dict_upd. destruct (dict_get k d) as [v|] eqn:E; simpl.
  - apply dict_get_set.
  - rewrite dict_get_app. simpl.
    destruct (decide (k' = k)) as [->|Hne]; [now rewrite E|].
    destruct (dict_get k' d); reflexivity.
Qed.

Lemma dict_keys_upd dflt k (f : V -> V) d :
  dict_keys (dict_upd dflt k f d) =
  match dict_get k d with
  | Some _ => dict_keys d
  | None => dict_keys d ++ [k]
  end.
Proof.
  unfold dict_upd. destruct (dict_get k d) as [v|] eqn:E.
  - rewrite dict_keys_set, E. reflexivity.
  - unfold dict_keys. now rewrite map_app.
Qed.

Lemma dict_set_Forall (P : K * V -> Prop) k v d :
  P (k, v) -> Forall P d -> Forall P (dict_set k v d).
Proof.
  intros Hk Hd. induction Hd as [|[k0 v0] d H0 Hd IH]; simpl.
  - now repeat constructor.
  - destruct (decide (k = k0)); constructor; auto.
Qed.

Lemma dict_upd_Forall (P : K * V -> Prop) dflt k (f : V -> V) d :
  (forall v, P (k, v) -> P (k, f v)) -> P (k, f dflt) ->
  Forall P d -> Forall P (dict_upd dflt k f d).
Proof.
  intros Hf Hdflt Hd. unfold dict_upd.
  destruct (dict_get k d) as [v|] eqn:E.
  - apply dict_set_Forall; [|exact Hd]. apply Hf.
    apply dict_get_Some_In in E.
    rewrite List.Forall_forall in Hd. now apply Hd.
  - apply Forall_app. split; [exact Hd|now repeat constructor].
Qed.

Lemma dict_keys_NoDup_upd dflt k (f : V -> V) d :
  NoDup (dict_keys d) -> NoDup (dict_keys (dict_upd dflt k f d)).
Proof.
  intros Hnd. rewrite dict_keys_upd.
  destruct (dict_get k d) eqn:E; [exact Hnd|].
  apply dict_get_None in E.
  apply NoDup_app. split; [exact Hnd|]. split; [|apply NoDup_singleton].
  intros x Hx Hx'. apply list_elem_of_singleton in Hx'. subst x.
  apply E. now apply list_elem_of_In.
Qed.
End DictFacts.

(** ** The connection manager: [broadcast] *)

Lemma list_remove_length x l : (length (list_remove x l) <= length l)%nat.
Proof.
  induction l as [|y r IH]; simpl; [lia|].
  destruct (decide (x = y)); simpl; lia.
Qed.

(** The fuel [broadcast] hands to its loop is never what stops it: any
    larger amount gives the same result. *)
Lemma broadcast_loop_fuel {M} (send_ok : Conn -> bool) (message : M) fuel :
  forall extra i conns log,
    (length conns - i <= fuel)%nat ->
    broadcast_loop send_ok message (fuel + extra) i conns log =
    broadcast_loop send_ok message fuel i conns log.
Proof.
  induction fuel as [|fuel IH]; intros extra i conns log Hlen.
  - assert (Hnone : conns !! i = None) by (apply lookup_ge_None; lia).
    destruct extra; simpl; [reflexivity|]. now rewrite Hnone.
  - simpl. destruct (conns !! i) as [c|] eqn:Hi; [|reflexivity].
    destruct (send_ok c).
    + apply IH. lia.
    + apply IH. pose proof (list_remove_length c conns). lia.
Qed.

Lemma broadcast_enough_fuel {M} (send_ok : Conn -> bool) (message : M) conns extra :
  broadcast_loop send_ok message (length conns + extra) 0 conns [] =
  broadcast send_ok conns message.
Proof. unfold broadcast. apply broadcast_loop_fuel. lia. Qed.

(** When every send succeeds, everybody is served and nobody is removed. *)
Lemma broadcast_loop_all_ok {M} (send_ok : Conn -> bool) (message : M) conns :
  Forall (fun c => send_ok c = true) conns ->
  forall fuel i log,
    (length conns - i <= fuel)%nat ->
    broadcast_loop send_ok message fuel i conns log =
    (conns, log ++ map (fun c => (c, message)) (drop i conns)).
Proof.
  intros Hok. induction fuel as [|fuel IH]; intros i log Hlen.
  - simpl. rewrite drop_ge by lia. simpl. now rewrite app_nil_r.
  - simpl. destruct (conns !! i) as [c|] eqn:Hi.
    + assert (Hc : send_ok c = true).
      { rewrite List.Forall_forall in Hok. apply Hok.
        apply list_elem_of_In. eapply list_elem_of_lookup_2, Hi. }
      rewrite Hc, IH by lia.
      rewrite (drop_S _ _ _ Hi). simpl. now rewrite <- app_assoc.
    + apply lookup_ge_None in Hi. rewrite drop_ge by lia.
      simpl. now rewrite app_nil_r.
Qed.

Lemma broadcast_all_ok {M} (send_ok : Conn -> bool) (message : M) conns :
  Forall (fun c => send_ok c = true) conns ->
  broadcast send_ok conns message = (conns, map (fun c => (c, message)) conns).
Proof.
  intros Hok. unfold broadcast.
  rewrite (broadcast_loop_all_ok send_ok message conns Hok) by lia.
  reflexivity.
Qed.

(** A failing connection followed by a healthy one: the failing one is
    removed, and the loop never reaches the healthy one. *)
Lemma broadcast_failed_then_healthy {M} (send_ok : Conn -> bool) (message : M)
    (c1 c2 : Conn) :
  send_ok c1 = false -> c1 <> c2 ->
  broadcast send_ok [c1; c2] message = ([c2], []).
Proof.
  intros H1 Hne. unfold broadcast. simpl. rewrite H1. simpl.
  destruct (decide (c1 = c1)); [reflexivity|congruence].
Qed.

(** C9 (fails on the code).  Connections 1, 2 and 3 are registered and
    connection 1 raises on send.  It is removed from the registry, but the
    removal shifts connection 2 into the slot the iterator has just left:
    connection 2 does not receive the message, only connection 3 does.  The
    next broadcast reaches both remaining connections. *)
Theorem broadcast_skips_successor_of_failed_connection :
  let send_ok := fun c : Conn => negb (Nat.eqb c 1) in
  broadcast send_ok [1; 2; 3]%nat "alert"%string
    = ([2; 3]%nat, [(3%nat, "alert"%string)])
  /\ broadcast send_ok [2; 3]%nat "next"%string
    = ([2; 3]%nat, [(2%nat, "next"%string); (3%nat, "next"%string)]).
Proof. split; reflexivity. Qed.

(** ** Usage metrics: the breakdown tables *)

Lemma breakdown_acc_users_unset (key : MetricsRow -> string) dflt results :
  bd_users dflt = UsersSet ∅ ->
  forall acc,
    Forall users_unset acc ->
    Forall users_unset
      (foldl (fun d r => dict_upd dflt (key r) (add_row r) d) acc results).
Proof.
  intros Hd. induction results as [|r results IH]; intros acc Hacc; simpl.
  - exact Hacc.
  - apply IH. apply dict_upd_Forall; [| |exact Hacc]; unfold users_unset; simpl; auto.
Qed.

(** No statement of the accumulation loops adds to the ['users'] set, so
    every entry of either breakdown reports zero users. *)
Lemma breakdown_by_users_zero (key : MetricsRow -> string) dflt results :
  bd_users dflt = UsersSet ∅ ->
  Forall (fun kv => bd_users kv.2 = UsersCount 0) (breakdown_by key dflt results).
Proof.
  intros Hd. unfold breakdown_by.
  apply Forall_map.
  eapply List.Forall_impl;
    [|apply (breakdown_acc_users_unset key dflt results Hd []); constructor].
  intros [k b]. unfold users_unset. simpl. intros ->. reflexivity.
Qed.

Lemma usage_metrics_users_zero events start_date end_date user_filter tier_filter :
  let m := calculate_usage_metrics events start_date end_date
             user_filter tier_filter in
  Forall (fun kv => bd_users kv.2 = UsersCount 0) (um_agent_breakdown m)
  /\ Forall (fun kv => bd_users kv.2 = UsersCount 0) (um_tier_breakdown m).
Proof.
  split; apply breakdown_by_users_zero; reflexivity.
Qed.

(** C5 (fails on the code).  With a single event in the period, of user
    [u1] talking to agent NEXUS on tier pro, one distinct user is attributed
    to the agent and to the tier, yet both ['users'] sub-counts are 0. *)
Theorem breakdown_users_not_distinct_count :
  let sel := [one_event] in
  let m := calculate_usage_metrics sel 0 (24 * usec_per_hour) None None in
  distinct_users_where (fun e => streq (ev_agent_id e) "NEXUS") sel = 1
  /\ distinct_users_where (fun e => streq (ev_subscription_tier e) "pro") sel = 1
  /\ option_map bd_users (dict_get "NEXUS"%string (um_agent_breakdown m))
     = Some (UsersCount 0)
  /\ option_map bd_users (dict_get "pro"%string (um_tier_breakdown m))
     = Some (UsersCount 0).
Proof. vm_compute. repeat split; reflexivity. Qed.

(** ** Usage metrics: peak hours *)

Lemma zsum_app l1 l2 : zsum (l1 ++ l2) = zsum l1 + zsum l2.
Proof. induction l1 as [|x l1 IH]; simpl; lia. Qed.

Lemma firstn_missing {A} (n : nat) (l : list A) (x : A) :
  In x l -> ~ In x (firstn n l) ->
  length (firstn n l) = n /\ In x (skipn n l).
Proof.
  intros Hin Hnot.
  rewrite <- (firstn_skipn n l) in Hin.
  apply List.in_app_or in Hin as [Hin|Hin]; [contradiction|].
  split; [|exact Hin].
  apply firstn_length_le.
  destruct (Nat.le_gt_cases n (length l)) as [Hle|Hgt]; [exact Hle|].
  rewrite skipn_all2 in Hin by lia. destruct Hin.
Qed.

Section HourUsage.
Context {R : Type} (hour : R -> option Z) (count : R -> Z).
Implicit Types (results : list R) (h : Z).

#[local] Abbreviation hu := (hour_usage_of hour count).

Lemma hour_usage_snoc results r :
  hu (results ++ [r]) =
  match hour r with
  | Some h => dict_upd 0 h (fun c => c + count r) (hu results)
  | None => hu results
  end.
Proof. unfold hour_usage_of. rewrite foldl_app. reflexivity. Qed.

Lemma hours_of_snoc results r :
  hours_of hour (results ++ [r]) =
  hours_of hour results ++ match hour r with Some h => [h] | None => [] end.
Proof.
  unfold hours_of. rewrite omap_app. simpl. destruct (hour r); reflexivity.
Qed.

Lemma hour_total_snoc results r h :
  hour_total hour count (results ++ [r]) h =
  hour_total hour count results h
  + (if bool_decide (hour r = Some h) then count r else 0).
Proof.
  unfold hour_total. rewrite List.filter_app, map_app, zsum_app. simpl.
  destruct (bool_decide (hour r = Some h)); simpl; lia.
Qed.

(** The dictionary holds, for every hour, the count summed over the rows
    of that hour. *)
Lemma hour_usage_total results h :
  default 0 (dict_get h (hu results)) = hour_total hour count results h.
Proof.
  induction results as [|r results IH] using rev_ind; [reflexivity|].
  rewrite hour_usage_snoc, hour_total_snoc.
  destruct (hour r) as [h'|] eqn:Hr.
  - rewrite dict_get_upd.
    destruct (decide (h = h')) as [->|Hne].
    + rewrite bool_decide_eq_true_2 by reflexivity. simpl. now rewrite IH.
    + rewrite bool_decide_eq_false_2 by congruence. lia.
  - rewrite bool_decide_eq_false_2 by congruence. lia.
Qed.

(** Its keys are the hours of the rows. *)
Lemma hour_usage_keys results h :
  In h (dict_keys (hu results)) <-> In h (hours_of hour results).
Proof.
  induction results as [|r results IH] using rev_ind; [reflexivity|].
  rewrite hour_usage_snoc, hours_of_snoc.
  destruct (hour r) as [h'|] eqn:Hr.
  - rewrite dict_keys_upd, List.in_app_iff.
    destruct (dict_get h' (hu results)) eqn:E.
    + rewrite IH. simpl. split; [tauto|].
      intros [Hin|[<-|[]]]; [exact Hin|].
      apply IH, dict_get_is_Some. eauto.
    + rewrite List.in_app_iff, IH. reflexivity.
  - rewrite app_nil_r. exact IH.
Qed.

Lemma hour_usage_NoDup results : NoDup (dict_keys (hu results)).
Proof.
  induction results as [|r results IH] using rev_ind; [constructor|].
  rewrite hour_usage_snoc. destruct (hour r); [|exact IH].
  now apply dict_keys_NoDup_upd.
Qed.

Lemma appears_first_snoc {A} (l l' : list A) (a b : A) :
  appears_first l a b -> appears_first (l ++ l') a b.
Proof.
  intros (l1 & l2 & -> & Hb). exists l1, (l2 ++ l'). split; [|exact Hb].
  now rewrite <- app_assoc.
Qed.

Lemma before_snoc_inv {A} (l : list A) (x a b : A) :
  before (l ++ [x]) a b -> before l a b \/ (In a l /\ b = x).
Proof.
  intros (l1 & l2 & l3 & Heq).
  destruct l3 as [|y l3 _] using rev_ind.
  - right.
    replace (l1 ++ a :: l2 ++ [b]) with ((l1 ++ a :: l2) ++ [b]) in Heq
      by (now rewrite <- app_assoc).
    apply app_inj_tail in Heq as [-> ->].
    split; [|reflexivity]. apply List.in_or_app. right. now left.
  - left.
    replace (l1 ++ a :: l2 ++ b :: l3 ++ [y])
      with ((l1 ++ a :: l2 ++ b :: l3) ++ [y]) in Heq.
    + apply app_inj_tail in Heq as [-> _]. now exists l1, l2, l3.
    + rewrite <- app_assoc. simpl. rewrite <- app_assoc. reflexivity.
Qed.

(** The keys stand in the order in which the hours are first seen. *)
Lemma hour_usage_order results a b :
  before (dict_keys (hu results)) a b ->
  appears_first (hours_of hour results) a b.
Proof.
  induction results as [|r results IH] using rev_ind.
  - intros (l1 & l2 & l3 & Heq). destruct l1; discriminate.
  - rewrite hour_usage_snoc, hours_of_snoc.
    destruct (hour r) as [h'|] eqn:Hr.
    + rewrite dict_keys_upd.
      destruct (dict_get h' (hu results)) eqn:E.
      * intros Hb. now apply appears_first_snoc, IH.
      * intros Hb. apply before_snoc_inv in Hb as [Hb|[Ha ->]].
        -- now apply appears_first_snoc, IH.
        -- apply dict_get_None in E.
           apply hour_usage_keys in Ha.
           apply in_split in Ha as (l1 & l2 & Heq).
           exists l1, (l2 ++ [h']). split.
           ++ rewrite Heq, <- app_assoc. reflexivity.
           ++ intros Hin. apply E, hour_usage_keys. rewrite Heq.
              apply List.in_or_app. now left.
    + rewrite app_nil_r. exact IH.
Qed.

End HourUsage.

(** C6 (fails as stated).  Two hours tie at 10 interactions, and the row of
    hour 5 (agent ARIA) comes before the row of hour 2 (agent NEXUS) in the
    grouped result: hour 5 is listed first, although 2 is the lower hour
    number. *)
Lemma peak_hours_tie_not_by_hour_number :
  let results := [metrics_row "ARIA" 5 10; metrics_row "NEXUS" 2 10] in
  hour_total mr_hour mr_total_interactions results 5
    = hour_total mr_hour mr_total_interactions results 2
  /\ peak_hours_of results = [5; 2].
Proof. split; reflexivity. Qed.

(** Of two different hours at most one ranks above the other. *)
Lemma appears_first_antisym {A} (l : list A) (a b : A) :
  appears_first l a b -> appears_first l b a -> a = b.
Proof.
  intros (l1 & l2 & E1 & Hb) (l1' & l2' & E2 & Ha).
  assert (Hla : l !! length l1 = Some a)
    by (rewrite E1; apply list_lookup_middle; reflexivity).
  assert (Hlb : l !! length l1' = Some b)
    by (rewrite E2; apply list_lookup_middle; reflexivity).
  destruct (Nat.lt_trichotomy (length l1) (length l1')) as [Hlt|[Heq|Hgt]].
  - exfalso. apply Ha. apply list_elem_of_In.
    rewrite E2, lookup_app_l in Hla by exact Hlt.
    now apply list_elem_of_lookup_2 in Hla.
  - rewrite Heq in Hla. congruence.
  - exfalso. apply Hb. apply list_elem_of_In.
    rewrite E1, lookup_app_l in Hlb by exact Hgt.
    now apply list_elem_of_lookup_2 in Hlb.
Qed.

Lemma ranks_above_antisym hours total a b :
  ranks_above hours total a b -> ranks_above hours total b a -> a = b.
Proof.
  intros [Hlt|[Heq Hab]] [Hlt'|[Heq' Hba]]; try lia.
  exact (appears_first_antisym hours a b Hab Hba).
Qed.

(** Two duplicate-free lists with the same elements, both in the order of an
    antisymmetric relation, are equal. *)
Lemma ordered_lists_eq {A} (R : A -> A -> Prop) (l l' : list A) :
  (forall a b, R a b -> R b a -> a = b) ->
  List.NoDup l -> List.NoDup l' ->
  (forall x, In x l <-> In x l') ->
  (forall a b, before l a b -> R a b) ->
  (forall a b, before l' a b -> R a b) ->
  l = l'.
Proof.
  intros Hanti. revert l'.
  induction l as [|x t IH]; intros l' Hnd Hnd' Hsame Hord Hord'.
  - destruct l' as [|y t']; [reflexivity|].
    exfalso. apply (Hsame y). now left.
  - destruct l' as [|y t'].
    { exfalso. apply (Hsame x). now left. }
    assert (Hxy : x = y).
    { destruct (proj1 (Hsame x) (or_introl eq_refl)) as [Hyx|Hxt'];
        [now symmetry|].
      destruct (proj2 (Hsame y) (or_introl eq_refl)) as [Hxy|Hyt];
        [exact Hxy|].
      apply Hanti.
      - apply Hord. now apply before_head.
      - apply Hord'. now apply before_head. }
    subst y. f_equal.
    apply List.NoDup_cons_iff in Hnd as [Hx Hnd].
    apply List.NoDup_cons_iff in Hnd' as [Hx' Hnd'].
    apply IH; try assumption.
    + intros z. split; intros Hz.
      * destruct (proj1 (Hsame z) (or_intror Hz)) as [->|H]; [contradiction|exact H].
      * destruct (proj2 (Hsame z) (or_intror Hz)) as [->|H]; [contradiction|exact H].
    + intros a b Hab. apply Hord. now apply before_cons.
    + intros a b Hab. apply Hord'. now apply before_cons.
Qed.

(** Of two lists of top-ranking hours each holds the other's hours. *)
Lemma top_three_hours_incl results l l' :
  top_three_hours results l -> top_three_hours results l' ->
  forall x, In x l -> In x l'.
Proof.
  intros (Hlen & Hnd & Hin & Hout & _) (Hlen' & Hnd' & Hin' & Hout' & _) x Hx.
  destruct (in_dec Z.eq_dec x l') as [Hx'|Hx']; [exact Hx'|exfalso].
  destruct (Hout' x (Hin x Hx) Hx') as [Hl3 Habove].
  destruct (Forall_Exists_dec (fun a => In a l) (fun a => ~ In a l)
              (fun a => in_dec Z.eq_dec a l) l') as [Hall|Hex].
  - assert (Hle : (length (x :: l') <= length l)%nat).
    { apply List.NoDup_incl_length.
      - apply List.NoDup_cons; [exact Hx'|now apply NoDup_ListNoDup].
      - intros z [<-|Hz]; [exact Hx|].
        rewrite List.Forall_forall in Hall. now apply Hall. }
    simpl in Hle. lia.
  - apply List.Exists_exists in Hex as (a & Ha' & Ha).
    destruct (Hout a (Hin' a Ha') Ha) as [_ Hbelow].
    assert (a = x)
      by (eapply ranks_above_antisym; [apply Habove, Ha'|apply Hbelow, Hx]).
    subst a. contradiction.
Qed.

(** The grouped query reports hours of the day. *)
Lemma main_query_hours sel h :
  In h (hours_of mr_hour (main_query sel)) -> 0 <= h <= 23.
Proof.
  unfold hours_of, main_query. rewrite <- list_elem_of_In, list_elem_of_omap.
  intros (r & Hr & Hh). apply list_elem_of_fmap in Hr as (k & -> & Hk).
  simpl in Hh. injection Hh as <-.
  apply elem_of_remove_dups, list_elem_of_fmap in Hk as (e & -> & _).
  unfold group_key, sql_hour. simpl.
  pose proof (Z.mod_pos_bound (ev_timestamp e / usec_per_hour) 24). lia.
Qed.

(** C6 (as amended).  [peak_hours] is the list of the three hours with the
    highest summed interaction count (all the hours if there are fewer than
    three), in descending order of count, where of two hours with the same
    count the one seen first in the grouped result ranks higher, both within
    the list and at its cut: it lists no hour twice and only hours of the
    result, every hour left out is ranked below each of three listed ones,
    and the list is in ranking order.  No other list has these properties.
    The hours of [calculate_usage_metrics] lie between 0 and 23. *)
Theorem peak_hours_by_count_then_first_seen :
  (forall results, top_three_hours results (peak_hours_of results))
  /\ (forall results l,
        top_three_hours results l -> l = peak_hours_of results)
  /\ (forall events start_date end_date user_filter tier_filter h,
        In h (um_peak_hours
                (calculate_usage_metrics events start_date end_date
                   user_filter tier_filter)) ->
        0 <= h <= 23).
Proof.
  assert (Htop : forall results, top_three_hours results (peak_hours_of results)).
  { intros results.
    set (ph := peak_hours_of results).
    set (total := hour_total mr_hour mr_total_interactions results).
    set (hours := hours_of mr_hour results).
    set (hu := hour_usage_of mr_hour mr_total_interactions results).
    set (key := fun h => default 0 (dict_get h hu)).
    set (srt := sorted_reverse key (dict_keys hu)).
    assert (Hph : ph = firstn 3 srt) by reflexivity.
    assert (Hperm : Permutation srt (dict_keys hu))
      by apply sorted_reverse_perm.
    assert (Hkey : forall h, key h = total h)
      by (intros h; apply (hour_usage_total mr_hour mr_total_interactions)).
    assert (Hsorted : StronglySorted (stable_desc key (dict_keys hu)) srt)
      by apply sorted_reverse_stable.
    assert (Hin : forall h, In h srt <-> In h hours).
    { intros h. unfold hours.
      rewrite <- (hour_usage_keys mr_hour mr_total_interactions).
      fold hu. split; intros H.
      - eapply Permutation_in; [exact Hperm|exact H].
      - eapply Permutation_in; [symmetry; exact Hperm|exact H]. }
    assert (Hrank : forall a b, stable_desc key (dict_keys hu) a b ->
                                ranks_above hours total a b).
    { intros a b [Hlt|[Heq Hord]]; unfold ranks_above; rewrite <- !Hkey.
      - now left.
      - right. split; [exact Heq|].
        now apply (hour_usage_order mr_hour mr_total_interactions). }
    unfold top_three_hours. fold total hours ph.
    split; [|split; [|split; [|split]]].
    - rewrite Hph, length_firstn. lia.
    - rewrite Hph. apply NoDup_ListNoDup.
      rewrite <- (firstn_skipn 3 srt) in Hperm.
      assert (Hnd : List.NoDup (firstn 3 srt ++ skipn 3 srt)).
      { eapply Permutation_NoDup; [symmetry; exact Hperm|].
        apply NoDup_ListNoDup, (hour_usage_NoDup mr_hour mr_total_interactions). }
      now apply List.NoDup_app_remove_r in Hnd.
    - intros h Hh. apply Hin. rewrite Hph in Hh.
      rewrite <- (firstn_skipn 3 srt). apply List.in_or_app. now left.
    - intros h Hh Hnot. apply Hin in Hh. rewrite Hph in Hnot.
      destruct (firstn_missing 3 srt h Hh Hnot) as [Hlen Hskip].
      split; [now rewrite Hph|].
      intros a Ha. rewrite Hph in Ha.
      rewrite <- (firstn_skipn 3 srt) in Hsorted.
      apply StronglySorted_app_inv in Hsorted as (_ & _ & Hcross).
      exact (Hrank a h (Hcross a h Ha Hskip)).
    - intros a b Hb. rewrite Hph in Hb. apply before_firstn in Hb.
      exact (Hrank a b (StronglySorted_before _ _ _ _ Hsorted Hb)). }
  split; [exact Htop|split].
  - intros results l Hl.
    pose proof (Htop results) as Hp.
    apply (ordered_lists_eq
             (ranks_above (hours_of mr_hour results)
                (hour_total mr_hour mr_total_interactions results))).
    + apply ranks_above_antisym.
    + apply NoDup_ListNoDup, Hl.
    + apply NoDup_ListNoDup, Hp.
    + intros x. split.
      * now apply (top_three_hours_incl results).
      * now apply (top_three_hours_incl results).
    + apply Hl.
    + apply Hp.
  - intros events start_date end_date user_filter tier_filter h Hh.
    apply (main_query_hours
             (List.filter (where_clause start_date end_date user_filter tier_filter)
                events)).
    exact (proj1 (proj2 (proj2 (Htop _))) h Hh).
Qed.

(** ** The anomaly detector *)

Lemma Qltb_lt (a b : Q) : Qltb a b = true <-> (a < b)%Q.
Proof.
  unfold Qltb. rewrite negb_true_iff.
  destruct (Qle_bool b a) eqn:E.
  - apply Qle_bool_iff in E. split; [discriminate|].
    intros H. exfalso. now apply (Qlt_not_le a b).
  - split; [intros _|reflexivity].
    apply Qnot_le_lt. intros H. apply Qle_bool_iff in H. congruence.
Qed.


Lemma z_exceeds_bool k v xs :
  z_exceeds k v xs <->
  Qltb 0 (statistics_stdev xs) = true
  /\ Qltb (zq k) (z_score v (statistics_mean xs) (statistics_stdev xs)) = true.
Proof. unfold z_exceeds. now rewrite !Qltb_lt. Qed.

(** *** Rounding keeps the sign *)

Lemma bit_length_spec n :
  0 < n -> 2 ^ (bit_length n - 1) <= n < 2 ^ bit_length n.
Proof.
  intros Hn. unfold bit_length.
  destruct (Z.eqb_spec n 0) as [->|_]; [lia|].
  rewrite Z.abs_eq by lia.
  replace (Z.log2 n + 1 - 1) with (Z.log2 n) by lia.
  replace (Z.log2 n + 1) with (Z.succ (Z.log2 n)) by lia.
  now apply Z.log2_spec.
Qed.

Lemma bit_length_pos n : 0 < n -> 0 < bit_length n.
Proof.
  intros Hn. unfold bit_length.
  destruct (Z.eqb_spec n 0) as [->|_]; [lia|].
  pose proof (Z.log2_nonneg (Z.abs n)). lia.
Qed.

(** Scaled by an exponent [e] that lies [j + 1] or more below the difference
    of the bit lengths, the numerator is at least [2^j] times the
    denominator. *)
Lemma scaled_quotient_ge n d e j :
  0 < n -> 0 < d -> 0 <= j -> e <= bit_length n - bit_length d - 1 - j ->
  2 ^ j * (d * 2 ^ Z.max 0 e) <= n * 2 ^ Z.max 0 (- e).
Proof.
  intros Hn Hd Hj He.
  pose proof (bit_length_spec n Hn) as [Hn1 _].
  pose proof (bit_length_spec d Hd) as [_ Hd2].
  pose proof (bit_length_pos n Hn) as Hbn.
  pose proof (bit_length_pos d Hd) as Hbd.
  destruct (Z.le_gt_cases 0 e) as [Hpos|Hneg].
  - rewrite (Z.max_r 0 e), (Z.max_l 0 (- e)) by lia.
    rewrite Z.pow_0_r, Z.mul_1_r.
    assert (H1 : 2 ^ j * (d * 2 ^ e) <= 2 ^ j * (2 ^ bit_length d * 2 ^ e)).
    { apply Z.mul_le_mono_nonneg_l; [apply Z.pow_nonneg; lia|].
      apply Z.mul_le_mono_nonneg_r; [apply Z.pow_nonneg; lia|lia]. }
    rewrite <- !Z.pow_add_r in H1 by lia.
    assert (H2 : 2 ^ (j + (bit_length d + e)) <= 2 ^ (bit_length n - 1))
      by (apply Z.pow_le_mono_r; lia).
    lia.
  - rewrite (Z.max_l 0 e), (Z.max_r 0 (- e)) by lia.
    rewrite Z.pow_0_r, Z.mul_1_r.
    assert (H1 : 2 ^ (bit_length n - 1) * 2 ^ (- e) <= n * 2 ^ (- e))
      by (apply Z.mul_le_mono_nonneg_r; [apply Z.pow_nonneg; lia|lia]).
    rewrite <- Z.pow_add_r in H1 by lia.
    assert (H3 : 2 ^ j * d <= 2 ^ j * 2 ^ bit_length d)
      by (apply Z.mul_le_mono_nonneg_l; [apply Z.pow_nonneg; lia|lia]).
    rewrite <- Z.pow_add_r in H3 by lia.
    assert (H2 : 2 ^ (j + bit_length d) <= 2 ^ (bit_length n - 1 + - e))
      by (apply Z.pow_le_mono_r; lia).
    lia.
Qed.

Lemma div_nearest_even_pos n d : 0 < d -> d <= n -> 0 < div_nearest_even n d.
Proof.
  intros Hd Hn. unfold div_nearest_even.
  assert (0 < n / d) by (apply Z.div_str_pos; lia).
  repeat match goal with |- context [if ?c then _ else _] => destruct c end; lia.
Qed.

Lemma ldexp_pos m e : 0 < m -> (0 < ldexp m e)%Q.
Proof.
  intros Hm. unfold ldexp. destruct (0 <=? e) eqn:He.
  - apply Z.leb_le in He. unfold zq.
    change 0%Q with (inject_Z 0). rewrite <- Zlt_Qlt.
    apply Z.mul_pos_pos; [exact Hm|].
    apply Z.pow_pos_nonneg; lia.
  - unfold Qlt. simpl. lia.
Qed.

Lemma nearest_float_pos_pos n d :
  0 < n -> 0 < d -> (0 < nearest_float_pos n d)%Q.
Proof.
  intros Hn Hd. unfold nearest_float_pos.
  apply ldexp_pos. apply div_nearest_even_pos.
  - apply Z.mul_pos_pos; [exact Hd|]. apply Z.pow_pos_nonneg; lia.
  - pose proof (scaled_quotient_ge n d
                  (if n * 2 ^ Z.max 0 (- (bit_length n - bit_length d - 53))
                      <? 2 ^ 53 * (d * 2 ^ Z.max 0 (bit_length n - bit_length d - 53))
                   then bit_length n - bit_length d - 53
                   else bit_length n - bit_length d - 53 + 1)
                  0 Hn Hd ltac:(lia) ltac:(destruct (_ <? _); lia)) as H.
    rewrite Z.pow_0_r, Z.mul_1_l in H. exact H.
Qed.

Lemma int_true_div_pos n d : 0 < n -> 0 < d -> (0 < int_true_div n d)%Q.
Proof.
  intros Hn Hd. unfold int_true_div.
  destruct (Z.eqb_spec n 0); [lia|].
  destruct (Z.ltb_spec 0 n); [|lia].
  now apply nearest_float_pos_pos.
Qed.

Lemma integer_sqrt_of_frac_rto_pos n m :
  0 < n -> 0 < m -> 0 < _integer_sqrt_of_frac_rto n m.
Proof.
  intros Hn Hm. unfold _integer_sqrt_of_frac_rto.
  set (a := Z.sqrt (n / m)).
  assert (Ha : 0 <= a) by apply Z.sqrt_nonneg.
  set (b := if a * a * m =? n then 0 else 1).
  assert (Hb : 0 <= b) by (unfold b; destruct (_ =? _); lia).
  assert (Hnn : 0 <= Z.lor a b) by (apply Z.lor_nonneg; split; assumption).
  assert (Hnz : Z.lor a b <> 0).
  { intros H0. apply Z.lor_eq_0_iff in H0 as [Ha0 Hb0].
    unfold b in Hb0. rewrite Ha0 in Hb0.
    destruct (Z.eqb_spec (0 * 0 * m) n); [lia|discriminate]. }
  lia.
Qed.

Lemma float_sqrt_of_frac_pos n m :
  0 < n -> 0 < m -> (0 < _float_sqrt_of_frac n m)%Q.
Proof.
  intros Hn Hm. unfold _float_sqrt_of_frac.
  set (q := (bit_length n - bit_length m - 109) / 2).
  destruct (Z.leb_spec 0 q) as [Hq|Hq].
  - apply int_true_div_pos; [|lia].
    apply Z.mul_pos_pos; [|apply Z.pow_pos_nonneg; lia].
    apply integer_sqrt_of_frac_rto_pos; [exact Hn|].
    apply Z.mul_pos_pos; [exact Hm|]. apply Z.pow_pos_nonneg; lia.
  - apply int_true_div_pos; [|apply Z.pow_pos_nonneg; lia].
    apply integer_sqrt_of_frac_rto_pos; [|exact Hm].
    apply Z.mul_pos_pos; [exact Hn|]. apply Z.pow_pos_nonneg; lia.
Qed.

(** *** The standard deviation is zero exactly for a constant sample *)

Lemma qsq_nonneg (q : Q) : (0 <= q * q)%Q.
Proof.
  destruct (Qlt_le_dec q 0) as [Hneg|Hpos].
  - assert (E : (q * q == (- q) * (- q))%Q) by ring.
    rewrite E. apply Qmult_le_0_compat; lra.
  - now apply Qmult_le_0_compat.
Qed.

Lemma qsum_sq_nonneg l : (0 <= qsum (map qsq l))%Q.
Proof.
  induction l as [|q l IH]; simpl; [discriminate|].
  fold (qsum (map qsq l)). unfold qsq at 1.
  pose proof (qsq_nonneg q). lra.
Qed.

Lemma variance_nonneg xs : (0 <= variance xs)%Q.
Proof.
  unfold variance.
  set (m := zmean xs).
  assert (Hs : (0 <= qsum (map (fun x => qsq (zq x - m)) xs))%Q).
  { rewrite <- (map_map (fun x => (zq x - m)%Q) qsq). apply qsum_sq_nonneg. }
  destruct xs as [|x xs].
  - vm_compute. discriminate.
  - unfold Qdiv. apply Qmult_le_0_compat; [exact Hs|].
    apply Qinv_le_0_compat. unfold zq. change 0%Q with (inject_Z 0).
    rewrite <- Zle_Qle. cbn [length]. lia.
Qed.

Lemma stdev_of_zero_variance xs :
  (variance xs == 0)%Q -> statistics_stdev xs = 0%Q.
Proof.
  intros H. unfold statistics_stdev.
  rewrite (Qred_complete _ _ H). reflexivity.
Qed.

(** [statistics.stdev] is positive exactly when the variance is, that is,
    when the values are not all equal. *)
Lemma stdev_positive xs :
  (0 < statistics_stdev xs)%Q <-> (0 < variance xs)%Q.
Proof.
  split.
  - intros Hs.
    destruct (Qlt_le_dec 0 (variance xs)) as [Hv|Hv]; [exact Hv|exfalso].
    assert (H0 : (variance xs == 0)%Q)
      by (apply Qle_antisym; [exact Hv|apply variance_nonneg]).
    rewrite (stdev_of_zero_variance xs H0) in Hs. now apply Qlt_irrefl in Hs.
  - intros Hv. unfold statistics_stdev.
    rewrite <- (Qred_correct (variance xs)) in Hv.
    apply float_sqrt_of_frac_pos; [|reflexivity].
    unfold Qlt in Hv. simpl in Hv. lia.
Qed.

Lemma zsum_const c xs :
  Forall (fun x => x = c) xs -> zsum xs = Z.of_nat (length xs) * c.
Proof.
  induction 1 as [|x xs Hx _ IH]; [reflexivity|].
  cbn [zsum foldr length]. fold (zsum xs). rewrite IH, Hx. lia.
Qed.

Lemma qsum_zero l : Forall (fun q => q == 0)%Q l -> (qsum l == 0)%Q.
Proof.
  induction 1 as [|q l Hq _ IH]; [reflexivity|].
  cbn [qsum foldr]. fold (qsum l). rewrite Hq, IH. reflexivity.
Qed.

Lemma zmean_const c xs :
  xs <> [] -> Forall (fun x => x = c) xs -> (zmean xs == zq c)%Q.
Proof.
  intros Hne Hc. unfold zmean, zq. rewrite (zsum_const c xs Hc).
  rewrite inject_Z_mult, Qmult_comm. apply Qdiv_mult_l.
  destruct xs as [|x xs]; [congruence|].
  unfold Qeq. simpl. lia.
Qed.

(** Without variance there is no standard deviation to exceed. *)
Lemma variance_const c xs :
  Forall (fun x => x = c) xs -> (variance xs == 0)%Q.
Proof.
  intros Hc. unfold variance.
  assert (Hsum : (qsum (map (fun x => qsq (zq x - zmean xs)) xs) == 0)%Q).
  { apply qsum_zero. apply Forall_map.
    destruct xs as [|x0 xs0] eqn:Exs; [constructor|]. rewrite <- Exs in *.
    assert (Hm : (zmean xs == zq c)%Q)
      by (apply zmean_const; [subst xs; discriminate|exact Hc]).
    eapply List.Forall_impl; [|exact Hc].
    intros x ->. unfold qsq. rewrite Hm. ring. }
  unfold Qdiv. rewrite Hsum. ring.
Qed.

Lemma constant_not_flagged k v c xs :
  Forall (fun x => x = c) xs -> ~ z_exceeds k v xs.
Proof.
  intros Hc [Hpos _].
  rewrite (stdev_of_zero_variance xs (variance_const c xs Hc)) in Hpos.
  now apply Qlt_irrefl in Hpos.
Qed.

(** *** What the detector reports *)

Section AgentData.
Implicit Types (results : list DailyRow) (agent : string).

Lemma agent_data_snoc results r :
  agent_data_of (results ++ [r]) =
  dict_upd [] (dr_agent_id r) (fun l => l ++ [day_of_row r])
           (agent_data_of results).
Proof. unfold agent_data_of. rewrite foldl_app. reflexivity. Qed.

Lemma agent_days_snoc agent results r :
  agent_days agent (results ++ [r]) =
  agent_days agent results
  ++ (if streq (dr_agent_id r) agent then [day_of_row r] else []).
Proof.
  unfold agent_days. rewrite List.filter_app, map_app. simpl.
  destruct (streq (dr_agent_id r) agent); reflexivity.
Qed.

(** The list kept for an agent holds the agent's rows, in row order. *)
Lemma agent_data_days agent results :
  default [] (dict_get agent (agent_data_of results)) = agent_days agent results.
Proof.
  induction results as [|r results IH] using rev_ind; [reflexivity|].
  rewrite agent_data_snoc, agent_days_snoc, dict_get_upd. unfold streq.
  destruct (decide (agent = dr_agent_id r)) as [->|Hne].
  - rewrite bool_decide_eq_true_2 by reflexivity. simpl. now rewrite IH.
  - rewrite bool_decide_eq_false_2 by congruence. now rewrite app_nil_r.
Qed.

Lemma agent_data_NoDup results : NoDup (dict_keys (agent_data_of results)).
Proof.
  induction results as [|r results IH] using rev_ind; [constructor|].
  rewrite agent_data_snoc. now apply dict_keys_NoDup_upd.
Qed.

Lemma agent_data_keys agent results :
  In agent (dict_keys (agent_data_of results)) <-> agent_days agent results <> [].
Proof.
  induction results as [|r results IH] using rev_ind; [simpl; tauto|].
  rewrite agent_data_snoc, agent_days_snoc, dict_keys_upd. unfold streq.
  destruct (decide (dr_agent_id r = agent)) as [<-|Hne].
  - rewrite bool_decide_eq_true_2 by reflexivity.
    split; [intros _ H; now apply app_eq_nil in H as [_ H]|intros _].
    destruct (dict_get (dr_agent_id r) (agent_data_of results)) eqn:E.
    + apply dict_get_is_Some. eauto.
    + apply List.in_or_app. right. now left.
  - rewrite bool_decide_eq_false_2 by congruence. rewrite app_nil_r.
    destruct (dict_get (dr_agent_id r) (agent_data_of results)); [exact IH|].
    rewrite List.in_app_iff, IH. simpl. intuition congruence.
Qed.
End AgentData.

Lemma dict_In_get {K V} `{EqDecision K} (k : K) (v : V) (d : list (K * V)) :
  NoDup (dict_keys d) -> In (k, v) d -> dict_get k d = Some v.
Proof.
  induction d as [|[k' v'] d IH]; simpl; [intros _ []|].
  intros Hnd Hin. apply NoDup_cons in Hnd as [Hk' Hnd].
  destruct (decide (k = k')) as [->|Hne].
  - destruct Hin as [[= ->]|Hin]; [reflexivity|].
    exfalso. apply Hk', list_elem_of_In. now apply (in_map fst) in Hin.
  - destruct Hin as [[= -> ->]|Hin]; [congruence|]. now apply IH.
Qed.

(** The entries of [agent_data] are the agents with at least one row, each
    with its days. *)
Lemma agent_data_entries results agent data :
  In (agent, data) (agent_data_of results) <->
  data = agent_days agent results /\ data <> [].
Proof.
  split.
  - intros Hin.
    assert (Hget : dict_get agent (agent_data_of results) = Some data)
      by (apply dict_In_get; [apply agent_data_NoDup|exact Hin]).
    assert (Hd : data = agent_days agent results)
      by (rewrite <- agent_data_days, Hget; reflexivity).
    split; [exact Hd|]. rewrite Hd. apply agent_data_keys.
    apply (in_map fst) in Hin. exact Hin.
  - intros [-> Hne]. apply agent_data_keys, dict_get_is_Some in Hne as [data Hget].
    pose proof (agent_data_days agent results) as Hd.
    rewrite Hget in Hd. simpl in Hd. subst data.
    now apply dict_get_Some_In.
Qed.

Lemma metric_anomalies_spec metric descr agent date v xs an :
  In an (metric_anomalies metric descr agent date v
           (statistics_mean xs) (statistics_stdev xs))
  <-> z_exceeds 2 v xs
      /\ an = mk_anomaly metric descr agent date v (statistics_mean xs)
                (z_score v (statistics_mean xs) (statistics_stdev xs)).
Proof.
  unfold metric_anomalies. rewrite z_exceeds_bool.
  destruct (Qltb 0 (statistics_stdev xs));
  destruct (Qltb (zq 2) (z_score v (statistics_mean xs) (statistics_stdev xs)))
    eqn:Hz; unfold zq in Hz; simpl in Hz; change (inject_Z 2) with 2%Q in Hz;
    rewrite ?Hz; simpl; intuition (try discriminate; auto).
Qed.

Lemma day_anomalies_spec agent data d an :
  In an (day_anomalies agent
           (statistics_mean (map dd_interactions data))
           (statistics_stdev (map dd_interactions data))
           (statistics_mean (map dd_tokens data))
           (statistics_stdev (map dd_tokens data)) d)
  <-> flags_interactions agent data d an \/ flags_tokens agent data d an.
Proof.
  unfold day_anomalies, flags_interactions, flags_tokens.
  now rewrite List.in_app_iff, !metric_anomalies_spec.
Qed.

Lemma agent_anomalies_spec agent data an :
  In an (agent_anomalies agent data) <->
  (3 <= length data)%nat /\
  exists d, In d data /\
    (flags_interactions agent data d an \/ flags_tokens agent data d an).
Proof.
  unfold agent_anomalies.
  destruct (Nat.ltb_spec (length data) 3) as [Hlt|Hge].
  - simpl. split; [intros []|intros [H _]; lia].
  - rewrite length_map.
    destruct (Nat.ltb_spec 1 (length data)) as [_|Hle]; [|lia].
    rewrite in_flat_map. setoid_rewrite day_anomalies_spec. tauto.
Qed.

(** An anomaly is reported exactly for the days of an agent with at least
    three days of data on which a metric is flagged. *)
Lemma detect_usage_anomalies_spec results an :
  In an (detect_usage_anomalies results) <->
  exists agent d,
    let data := agent_days agent results in
    (3 <= length data)%nat /\ In d data /\
    (flags_interactions agent data d an \/ flags_tokens agent data d an).
Proof.
  unfold detect_usage_anomalies. rewrite in_flat_map. split.
  - intros ([agent data] & Hin & Han). simpl in Han.
    apply agent_data_entries in Hin as [-> _].
    apply agent_anomalies_spec in Han as (Hlen & d & Hd & Hflag).
    now exists agent, d.
  - intros (agent & d & Hlen & Hd & Hflag).
    exists (agent, agent_days agent results). split.
    + apply agent_data_entries. split; [reflexivity|].
      intros Hnil. rewrite Hnil in Hd. destruct Hd.
    + simpl. apply agent_anomalies_spec. split; [exact Hlen|]. now exists d.
Qed.

Lemma append_inv_head (p a b : string) : (p ++ a = p ++ b)%string -> a = b.
Proof.
  induction p as [|c p IH]; simpl; [auto|]. intros [= H]. now apply IH.
Qed.

(** Severity and direction of a reported anomaly. *)
Lemma mk_anomaly_labels metric descr agent date v xs :
  z_exceeds 2 v xs ->
  let an := mk_anomaly metric descr agent date v (statistics_mean xs)
              (z_score v (statistics_mean xs) (statistics_stdev xs)) in
  (an_severity an = "high"%string <-> z_exceeds 3 v xs)
  /\ (an_severity an = "medium"%string <-> ~ z_exceeds 3 v xs)
  /\ (an_type an = (metric ++ "_spike")%string
      <-> (number_value (statistics_mean xs) < zq v)%Q)
  /\ (an_type an = (metric ++ "_drop")%string
      <-> ~ (number_value (statistics_mean xs) < zq v)%Q).
Proof.
  intros [Hpos _]. simpl.
  assert (H3 : z_exceeds 3 v xs <->
               Qltb 3 (z_score v (statistics_mean xs) (statistics_stdev xs)) = true).
  { rewrite z_exceeds_bool. apply Qltb_lt in Hpos. rewrite Hpos.
    unfold zq. change (inject_Z 3) with 3%Q. tauto. }
  rewrite H3. unfold int_gt. rewrite <- Qltb_lt.
  destruct (Qltb 3 (z_score v (statistics_mean xs) (statistics_stdev xs)));
  destruct (Qltb (number_value (statistics_mean xs)) (zq v)); repeat split;
    try discriminate; try congruence; try reflexivity; intros H;
    try (now apply append_inv_head in H); try (exfalso; now apply H).
Qed.

(** *** Rounding at the threshold *)

(** Seven daily token totals whose last value lies, in exact arithmetic,
    just beyond two standard deviations from the mean
    ([(v - mean)^2 - 4 * variance = 1/49]): the float quotient is 2.0
    and the day is not reported. *)
Lemma rounded_z_score_at_two :
  let xs := [1000; 1000; 1000; 7802199; 7802199; 7802199; 23208582] in
  exact_z_exceeds 2 23208582 xs
  /\ (z_score 23208582 (statistics_mean xs) (statistics_stdev xs) == 2)%Q
  /\ ~ z_exceeds 2 23208582 xs.
Proof.
  intros xs. split; [|split].
  - split; vm_compute; reflexivity.
  - vm_compute. reflexivity.
  - intros [_ H]. vm_compute in H. discriminate H.
Qed.

(** Eleven daily token totals whose last value lies, in exact arithmetic,
    beyond three standard deviations from the mean: the float quotient is
    2.9999999999999996, so the day is reported with severity medium. *)
Lemma rounded_z_score_at_three :
  let xs := [0; 0; 0; 0; 0; 0; 0; 4839200; 4839200; 4839200; 74632561] in
  exact_z_exceeds 3 74632561 xs
  /\ z_exceeds 2 74632561 xs
  /\ ~ z_exceeds 3 74632561 xs.
Proof.
  intros xs. split; [|split].
  - split; vm_compute; reflexivity.
  - split; vm_compute; reflexivity.
  - intros [_ H]. vm_compute in H. discriminate H.
Qed.

(** C7, the example of the claim (fails on the code).  For the daily counts
    10, 10, 10, 10, 100 of one agent the mean is 28 and the sample standard
    deviation about 40.25; the last day is at distance 72 from the mean,
    a z-score of about 1.79, and nothing is flagged. *)
Lemma five_days_spike_not_flagged :
  map dd_interactions (agent_days "NEXUS" five_days) = [10; 10; 10; 10; 100]
  /\ detect_usage_anomalies five_days = [].
Proof. split; vm_compute; reflexivity. Qed.

(** C7 (as amended).  An anomaly is reported for a day of an agent and a
    metric exactly when the agent has at least three days of data, the sample
    standard deviation of the metric's daily values is not zero and the
    day's z-score [|value - mean| / stdev], computed in double precision
    as the code computes it, exceeds 2; its severity is high when that
    z-score exceeds 3 and medium otherwise; it is a spike when the value
    exceeds the mean and a drop otherwise.  The standard deviation is zero
    exactly when the variance is: a constant sequence is never flagged for
    its metric.  The counts 10, 10, 10, 10, 100 are not flagged either, and
    the counts 10, 10, 10, 10, 10, 10, 100 flag the last day as an
    interaction spike of severity medium. *)
Theorem anomalies_flagged_beyond_two_sigma :
  (forall results an,
     In an (detect_usage_anomalies results) <->
     exists agent d,
       let data := agent_days agent results in
       (3 <= length data)%nat /\ In d data /\
       (flags_interactions agent data d an \/ flags_tokens agent data d an))
  /\ (forall xs, (0 < statistics_stdev xs)%Q <-> (0 < variance xs)%Q)
  /\ (forall metric descr agent date v xs,
        z_exceeds 2 v xs ->
        let an := mk_anomaly metric descr agent date v (statistics_mean xs)
                    (z_score v (statistics_mean xs) (statistics_stdev xs)) in
        (an_severity an = "high"%string <-> z_exceeds 3 v xs)
        /\ (an_severity an = "medium"%string <-> ~ z_exceeds 3 v xs)
        /\ (an_type an = (metric ++ "_spike")%string
            <-> (number_value (statistics_mean xs) < zq v)%Q)
        /\ (an_type an = (metric ++ "_drop")%string
            <-> ~ (number_value (statistics_mean xs) < zq v)%Q))
  /\ (forall agent data d an c,
        Forall (fun x => x = c) (map dd_interactions data) ->
        ~ flags_interactions agent data d an)
  /\ (forall agent data d an c,
        Forall (fun x => x = c) (map dd_tokens data) ->
        ~ flags_tokens agent data d an)
  /\ detect_usage_anomalies five_days = []
  /\ map (fun an => (an_type an, an_date an, an_value an, an_severity an))
         (detect_usage_anomalies seven_days)
     = [("interaction_spike"%string, 7, 100, "medium"%string)].
Proof.
  split; [exact detect_usage_anomalies_spec|].
  split; [exact stdev_positive|].
  split; [exact mk_anomaly_labels|].
  split; [|split; [|split; vm_compute; reflexivity]].
  - intros agent data d an c Hc [Hz _]. exact (constant_not_flagged _ _ _ _ Hc Hz).
  - intros agent data d an c Hc [Hz _]. exact (constant_not_flagged _ _ _ _ Hc Hz).
Qed.

(** ** The user insight scorer *)

Lemma user_query_no_events events user_id start_date :
  (forall e, In e events -> ev_user_id e = user_id ->
             ev_timestamp e < start_date) ->
  user_query events user_id start_date = [].
Proof.
  intros Hnone. unfold user_query.
  assert (Hsel : List.filter
                   (fun e => streq (ev_user_id e) user_id
                             && (start_date <=? ev_timestamp e)) events = []).
  { induction events as [|e events IH]; [reflexivity|]. simpl.
    assert (He : streq (ev_user_id e) user_id
                 && (start_date <=? ev_timestamp e) = false).
    { unfold streq. destruct (decide (ev_user_id e = user_id)) as [Hu|Hu].
      - rewrite bool_decide_eq_true_2 by exact Hu. simpl.
        apply Z.leb_gt. apply Hnone; [now left|exact Hu].
      - now rewrite bool_decide_eq_false_2 by exact Hu. }
    rewrite He. apply IH. intros e' He'. apply Hnone. now right. }
  rewrite Hsel. reflexivity.
Qed.

(** C8.  A user none of whose events falls in the trailing 30 days gets the
    degenerate insight: score 0, risk critical, churn probability 0.95, the
    single recommendation to re-engage, and no upgrade opportunity. *)
Theorem inactive_user_insight (events : list UsageEvent) (now : Z)
    (user_id : string) :
  (forall e, In e events -> ev_user_id e = user_id ->
             ev_timestamp e < now - timedelta_days 30) ->
  let insight := generate_user_insights events now user_id in
  insight = inactive_insight user_id
  /\ ui_usage_score insight = 0%Q
  /\ ui_risk_level insight = "critical"%string
  /\ ui_predicted_churn_probability insight = (95 # 100)%Q
  /\ ui_recommendations insight
     = [[Lit "Re-engage user with personalized content"]]
  /\ ui_upgrade_opportunity insight = false.
Proof.
  intros Hnone insight.
  assert (Hi : insight = inactive_insight user_id).
  { unfold insight, generate_user_insights.
    now rewrite (user_query_no_events _ _ _ Hnone). }
  rewrite Hi. repeat split; reflexivity.
Qed.

Lemma inactive_user_insight_witness :
  (forall e, In e [one_event] -> ev_user_id e = "u1"%string ->
             ev_timestamp e < 40 * usec_per_day - timedelta_days 30)
  /\ generate_user_insights [one_event] (40 * usec_per_day) "u1"
     = inactive_insight "u1".
Proof.
  assert (H : forall e, In e [one_event] -> ev_user_id e = "u1"%string ->
                        ev_timestamp e < 40 * usec_per_day - timedelta_days 30).
  { intros e [<-|[]] _. reflexivity. }
  split; [exact H|].
  exact (proj1 (inactive_user_insight [one_event] (40 * usec_per_day) "u1" H)).
Defined.

(** ** The alert entry point *)

Lemma trigger_alert_no_rule s now uuid t :
  alert_rules s !! tr_rule_id t = None -> _trigger_alert s now uuid t = s.
Proof. intros H. unfold _trigger_alert. now rewrite H. Qed.

Lemma run_triggers_no_rule oracle (rule : string) calls :
  Forall (fun t => tr_rule_id t = rule) calls ->
  forall n s, alert_rules s !! rule = None ->
              run_triggers oracle n s calls = s.
Proof.
  induction 1 as [|t calls Ht _ IH]; intros n s Hs; simpl; [reflexivity|].
  rewrite trigger_alert_no_rule by (now rewrite Ht). now apply IH.
Qed.

Lemma performance_calls_rule events now :
  Forall (fun t => tr_rule_id t = "performance_degradation"%string)
         (performance_calls events now).
Proof.
  unfold performance_calls. apply List.Forall_flat_map.
  apply List.Forall_forall. intros agent _.
  destruct (performance_degraded _); repeat constructor.
Qed.

Lemma default_rules_performance :
  default_rules !! "performance_degradation"%string = None.
Proof. reflexivity. Qed.

(** The registry has no rule named [performance_degradation]: whatever the
    agents' metrics, a cycle of the performance monitor leaves the service
    as it was. *)
Lemma check_agent_performance_no_effect oracle events now s :
  alert_rules s = default_rules ->
  _check_agent_performance oracle events now s = s.
Proof.
  intros Hr. unfold _check_agent_performance.
  apply (run_triggers_no_rule oracle "performance_degradation").
  - apply performance_calls_rule.
  - rewrite Hr. apply default_rules_performance.
Qed.

(** C3 (fails on the code).  NEXUS has answered eleven times in the last
    day, 6000 ms on average: the monitor's test holds and it calls the entry
    point for NEXUS, but the service stays empty: no alert is made active,
    persisted or queued. *)
Theorem performance_degradation_alert_never_created :
  let now := 60 * usec_per_minute in
  let p := analyze_agent_performance slow_nexus_events now "NEXUS" 1 in
  ap_total_interactions p = 11
  /\ (ap_avg_response_time p == 6000)%Q
  /\ performance_degraded p = true
  /\ map tr_agent_id (performance_calls slow_nexus_events now) = [Some "NEXUS"%string]
  /\ forall oracle,
       let s := _check_agent_performance oracle slow_nexus_events now new_service in
       active_alerts s = [] /\ usage_alerts s = [] /\ notification_queue s = [].
Proof.
  repeat split; try reflexivity.
  all: rewrite check_agent_performance_no_effect; reflexivity.
Qed.

(** ** The usage-limit monitor *)

(** Row by row, the chain of the monitor and the priority order of the
    specification select the same rule; the chain's first branch may raise
    instead of calling. *)
Lemma usage_row_outcome_cases cal row :
  (exists t, usage_row_outcome cal row = Call t
             /\ spec_usage_alert row = Some (call_summary (row, t)))
  \/ (usage_row_outcome cal row = NoCall /\ spec_usage_alert row = None)
  \/ (usage_row_outcome cal row = Raise
      /\ spec_usage_class row = Some Approaching /\ 12 < cal_month cal + 1).
Proof.
  unfold usage_row_outcome, spec_usage_alert, spec_usage_class, call_summary,
    threshold_usage_warning, threshold_usage_critical, Qltb.
  destruct (Qle_bool (8 # 10) (usage_percentage_of row));
  destruct (Qle_bool (95 # 100) (usage_percentage_of row)); simpl.
  - left. eexists. split; reflexivity.
  - destruct (Z.leb_spec (cal_month cal + 1) 12).
    + left. eexists. split; reflexivity.
    + right. right. repeat split. lia.
  - left. eexists. split; reflexivity.
  - match goal with
    | |- context [if ?c then Call (upgrade_trigger row) else NoCall] =>
        destruct c
    end.
    + left. eexists. split; reflexivity.
    + right. left. split; reflexivity.
Qed.

(** The third branch of the chain is never taken: 85% of the limit is
    already within the range of one of the first two. *)
Lemma upgrade_branch_unreachable cal row t :
  usage_row_outcome cal row = Call t ->
  tr_rule_id t <> "upgrade_opportunity"%string.
Proof.
  unfold usage_row_outcome, threshold_usage_warning, threshold_usage_critical.
  destruct (Qle_bool (8 # 10) (usage_percentage_of row)) eqn:Hw;
  destruct (Qltb (usage_percentage_of row) (95 # 100)) eqn:Hc; simpl.
  - destruct (cal_month cal + 1 <=? 12); [|discriminate].
    intros [= <-]. discriminate.
  - unfold Qltb in Hc. apply negb_false_iff in Hc. rewrite Hc.
    intros [= <-]. discriminate.
  - destruct (Qle_bool (95 # 100) (usage_percentage_of row)) eqn:He.
    + intros [= <-]. discriminate.
    + destruct (Qle_bool (85 # 100) (usage_percentage_of row)) eqn:Hu;
        [|discriminate].
      exfalso. apply Qle_bool_iff in Hu.
      assert (Hw' : ~ (8 # 10 <= usage_percentage_of row)%Q)
        by (intros H; apply Qle_bool_iff in H; congruence).
      apply Hw'. eapply Qle_trans; [|exact Hu]. discriminate.
  - unfold Qltb in Hc. apply negb_false_iff in Hc. rewrite Hc.
    intros [= <-]. discriminate.
Qed.

(** In one cycle the rows are handled in order, each handled row gets the
    call selected for it, and the rows that are not handled start with an
    approaching row met when the month cannot be advanced. *)
Lemma usage_calls_prefix (cal : Calendar) (rows : list UsageRow) :
  exists handled rest,
    rows = handled ++ rest
    /\ map call_summary (usage_calls cal rows) = omap spec_usage_alert handled
    /\ (rest = []
        \/ exists row rest', rest = row :: rest'
             /\ spec_usage_class row = Some Approaching
             /\ 12 < cal_month cal + 1).
Proof.
  induction rows as [|row rows (handled & rest & Hrows & Hcalls & Hrest)].
  - exists [], []. repeat split. now left.
  - destruct (usage_row_outcome_cases cal row)
      as [(t & Ho & Hs)|[(Ho & Hs)|(Ho & Hs & Hm)]].
    + exists (row :: handled), rest. simpl. rewrite Ho, Hs. simpl.
      rewrite Hcalls, Hrows. repeat split. exact Hrest.
    + exists (row :: handled), rest. simpl. rewrite Ho, Hs.
      rewrite Hcalls, Hrows. repeat split. exact Hrest.
    + exists [], (row :: rows). simpl. rewrite Ho. repeat split.
      right. now exists row, rows.
Qed.

(** When the month can be advanced, the chain makes for a row the call the
    priority order selects, with the arguments of that alert. *)
Lemma usage_row_outcome_spec cal row :
  cal_month cal + 1 <= 12 ->
  usage_row_outcome cal row =
  match spec_usage_trigger cal row with Some t => Call t | None => NoCall end.
Proof.
  intros Hm.
  unfold usage_row_outcome, spec_usage_trigger, spec_usage_class,
    threshold_usage_warning, threshold_usage_critical, Qltb.
  destruct (Qle_bool (8 # 10) (usage_percentage_of row));
  destruct (Qle_bool (95 # 100) (usage_percentage_of row)); simpl;
    try reflexivity.
  - destruct (Z.leb_spec (cal_month cal + 1) 12); [reflexivity|lia].
  - match goal with
    | |- context [if ?c then Call (upgrade_trigger row) else NoCall] =>
        destruct c
    end; reflexivity.
Qed.

Lemma usage_calls_spec cal rows :
  cal_month cal + 1 <= 12 ->
  map snd (usage_calls cal rows) = omap (spec_usage_trigger cal) rows
  /\ map call_summary (usage_calls cal rows) = omap spec_usage_alert rows.
Proof.
  intros Hm. induction rows as [|row rows [IH1 IH2]]; [split; reflexivity|].
  cbn [usage_calls]. rewrite (usage_row_outcome_spec cal row Hm).
  unfold spec_usage_trigger, spec_usage_alert in *. csimpl.
  destruct (spec_usage_class row) as [[| |]|]; csimpl;
    rewrite ?IH1, ?IH2; split; reflexivity.
Qed.

(** In a month that cannot be advanced, the first approaching row ends the
    cycle: neither it nor any later row, whatever its usage, gets a call. *)
Lemma usage_cycle_cut_short oracle cal pre row post s :
  12 < cal_month cal + 1 ->
  spec_usage_class row = Some Approaching ->
  _check_usage_limits oracle cal (pre ++ row :: post) s
  = _check_usage_limits oracle cal pre s.
Proof.
  intros Hm Hrow. unfold _check_usage_limits. f_equal. f_equal.
  induction pre as [|r pre IH]; simpl.
  - destruct (usage_row_outcome_cases cal row)
      as [(t & Ho & Hs)|[(Ho & Hs)|(Ho & _)]].
    + exfalso. revert Ho. unfold usage_row_outcome. revert Hrow.
      unfold spec_usage_class, threshold_usage_warning,
        threshold_usage_critical, Qltb.
      destruct (Qle_bool (95 # 100) (usage_percentage_of row)); [discriminate|].
      destruct (Qle_bool (8 # 10) (usage_percentage_of row)); simpl.
      * destruct (Z.leb_spec (cal_month cal + 1) 12); [lia|discriminate].
      * destruct (_ && _ && _); discriminate.
    + exfalso. unfold spec_usage_alert in Hs. rewrite Hrow in Hs. discriminate.
    + now rewrite Ho.
  - destruct (usage_row_outcome cal r); [now rewrite IH|exact IH|reflexivity].
Qed.

(** A December cycle over a row at 83% followed by a row at 100% makes no
    call at all; the same rows in June get one alert each. *)
Lemma december_cycle_without_alerts :
  let rows := [usage_row "u2" "pro" 125000; usage_row "u1" "pro" 150000] in
  omap spec_usage_alert rows
    = [(usage_row "u2" "pro" 125000, "usage_approaching"%string, Some "u2"%string);
       (usage_row "u1" "pro" 150000, "usage_exceeded"%string, Some "u1"%string)]
  /\ _check_usage_limits cycle_oracle december rows new_service = new_service
  /\ map alert_call (heap (_check_usage_limits cycle_oracle june rows new_service))
     = [("usage_approaching"%string, Some "u2"%string);
        ("usage_exceeded"%string, Some "u1"%string)].
Proof. vm_compute. repeat split; reflexivity. Qed.

(** What one call of the entry point adds: nothing, or one alert of the
    call's rule and user, stored and persisted. *)
Lemma trigger_alert_created s now uuid t :
  exists created,
    heap (_trigger_alert s now uuid t) = heap s ++ created
    /\ usage_alerts (_trigger_alert s now uuid t)
       = usage_alerts s ++ map row_of_alert created
    /\ (created = [] \/ exists a, created = [a] /\ alert_call a = trigger_call t).
Proof.
  unfold _trigger_alert.
  destruct (alert_rules s !! tr_rule_id t) as [rule|];
    [|exists []; rewrite !app_nil_r; auto].
  destruct (negb (rule_enabled rule));
    [exists []; rewrite !app_nil_r; auto|].
  destruct (_is_in_cooldown s now (alert_key_of t) (rule_cooldown_minutes rule));
    [exists []; rewrite !app_nil_r; auto|].
  exists [new_alert rule now uuid t]. repeat split. right. eauto.
Qed.

Lemma run_triggers_created oracle calls :
  forall n s,
  exists created,
    heap (run_triggers oracle n s calls) = heap s ++ created
    /\ usage_alerts (run_triggers oracle n s calls)
       = usage_alerts s ++ map row_of_alert created
    /\ sublist (map alert_call created) (map trigger_call calls).
Proof.
  induction calls as [|t calls IH]; intros n s; simpl.
  - exists []. rewrite !app_nil_r. repeat split. constructor.
  - destruct (trigger_alert_created s (oracle n).1 (oracle n).2 t)
      as (c1 & Hh1 & Hu1 & Hc1).
    destruct (IH (S n) (_trigger_alert s (oracle n).1 (oracle n).2 t))
      as (c2 & Hh2 & Hu2 & Hc2).
    exists (c1 ++ c2). rewrite Hh2, Hu2, Hh1, Hu1, map_app, <- !app_assoc.
    repeat split.
    destruct Hc1 as [->|(a & -> & Ha)]; simpl.
    + now apply sublist_cons.
    + rewrite Ha. now apply sublist_skip.
Qed.

Lemma omap_length_le {A B} (f : A -> option B) (l : list A) :
  (length (omap f l) <= length l)%nat.
Proof.
  induction l as [|x l IH]; [reflexivity|]. csimpl.
  destruct (f x); simpl; lia.
Qed.

(** C4 (fails as stated).  In June user [u1] has a row on tier essential at
    100% of its allowance and a row on tier pro at 83%: one cycle raises two
    alerts for [u1], an exceeded one and an approaching one. *)
Lemma one_user_two_usage_alerts :
  let rows := [usage_row "u1" "essential" 50000; usage_row "u1" "pro" 125000] in
  let s := _check_usage_limits cycle_oracle june rows new_service in
  map us_user_id rows = ["u1"; "u1"]%string
  /\ map alert_call (heap s)
     = [("usage_exceeded"%string, Some "u1"%string);
        ("usage_approaching"%string, Some "u1"%string)]
  /\ map (fun r => (ua_id r, ua_user_id r, ua_alert_type r)) (usage_alerts s)
     = [("id1"%string, Some "u1"%string, "usage_limit_exceeded"%string);
        ("id2"%string, Some "u1"%string, "usage_limit_approaching"%string)]
  /\ dict_keys (active_alerts s) = ["id1"; "id2"]%string.
Proof. vm_compute. repeat split; reflexivity. Qed.

(** C4 (as amended).  In a cycle of the usage-limit monitor in a month
    before December, every row of the monthly query gets at most one call of
    the alert entry point, for the row's user: the one selected by the
    priority order exceeded, approaching, upgrade candidate, none when no
    class applies.  The cycle is the sequence of these calls in row order,
    and the alerts it creates and persists are, in that order, alerts of
    these calls, at most one per row. *)
Theorem usage_alerts_by_priority (oracle : nat -> Z * string) (cal : Calendar)
    (rows : list UsageRow) (s : Service) :
  cal_month cal + 1 <= 12 ->
  let s' := _check_usage_limits oracle cal rows s in
  map call_summary (usage_calls cal rows) = omap spec_usage_alert rows
  /\ s' = run_triggers oracle 0 s (omap (spec_usage_trigger cal) rows)
  /\ exists created,
       heap s' = heap s ++ created
       /\ usage_alerts s' = usage_alerts s ++ map row_of_alert created
       /\ sublist (map alert_call created)
                  (map trigger_call (omap (spec_usage_trigger cal) rows))
       /\ (length created <= length rows)%nat.
Proof.
  intros Hm s'.
  destruct (usage_calls_spec cal rows Hm) as [Hcalls Hsum].
  assert (Hs' : s' = run_triggers oracle 0 s (omap (spec_usage_trigger cal) rows))
    by (unfold s', _check_usage_limits; now rewrite Hcalls).
  split; [exact Hsum|]. split; [exact Hs'|].
  destruct (run_triggers_created oracle (omap (spec_usage_trigger cal) rows) 0%nat s)
    as (created & Hh & Hu & Hsub).
  exists created. rewrite Hs'. repeat split; try assumption.
  apply sublist_length in Hsub. rewrite !length_map in Hsub.
  etransitivity; [exact Hsub|]. apply omap_length_le.
Qed.

Lemma usage_alerts_by_priority_witness :
  cal_month june + 1 <= 12
  /\ let rows := [usage_row "u2" "pro" 125000; usage_row "u3" "elite" 1000;
                  usage_row "u1" "pro" 150000] in
     let s' := _check_usage_limits cycle_oracle june rows new_service in
     map call_summary (usage_calls june rows) = omap spec_usage_alert rows
     /\ s' = run_triggers cycle_oracle 0 new_service
               (omap (spec_usage_trigger june) rows)
     /\ map alert_call (heap s')
        = [("usage_approaching"%string, Some "u2"%string);
           ("usage_exceeded"%string, Some "u1"%string)].
Proof.
  assert (H : cal_month june + 1 <= 12) by (vm_compute; discriminate).
  split; [exact H|]. intros rows s'.
  destruct (usage_alerts_by_priority cycle_oracle june rows new_service H)
    as (H1 & H2 & _).
  split; [exact H1|]. split; [exact H2|]. vm_compute. reflexivity.
Defined.

(** ** Cooldown *)

Lemma default_rules_usage_exceeded :
  default_rules !! "usage_exceeded"%string
  = Some (mk_rule "usage_exceeded" "Límite de Uso Excedido" USAGE_LIMIT_EXCEEDED
            [("usage_percentage"%string, VNum threshold_usage_critical)]
            CRITICAL [DASHBOARD; EMAIL; SLACK] 60).
Proof. reflexivity. Qed.

(** The key looked for by the cooldown check is the rule identifier followed
    by the subject; the column it is compared with holds the value of the
    alert type.  For the rule [usage_exceeded] the two never agree. *)
Lemma usage_exceeded_key_mismatch (subject : string) :
  streq (AlertType_value USAGE_LIMIT_EXCEEDED)
        ("usage_exceeded" ++ "_" ++ subject) = false.
Proof.
  unfold streq. apply bool_decide_eq_false_2. simpl. intros H.
  discriminate H.
Qed.

(** Two calls for the rule [usage_exceeded] and the same user always yield
    two alerts, however close in time they are. *)
Lemma usage_exceeded_never_in_cooldown (row : UsageRow) (now1 now2 : Z)
    (id1 id2 : string) :
  let t := exceeded_trigger row in
  let s1 := _trigger_alert new_service now1 id1 t in
  let s2 := _trigger_alert s1 now2 id2 t in
  map ua_id (usage_alerts s2) = [id1; id2]
  /\ map triggered_at (heap s2) = [now1; now2]
  /\ alert_history s2 = [0; 1]%nat
  /\ map fst (notification_queue s2) = [0; 1]%nat.
Proof.
  intros t s1 s2.
  assert (H1 : s1 = enqueue (_save_alert_to_db
                  (register_alert new_service
                     (new_alert (mk_rule "usage_exceeded" "Límite de Uso Excedido"
                        USAGE_LIMIT_EXCEEDED
                        [("usage_percentage"%string, VNum threshold_usage_critical)]
                        CRITICAL [DASHBOARD; EMAIL; SLACK] 60) now1 id1 t))
                  (new_alert (mk_rule "usage_exceeded" "Límite de Uso Excedido"
                        USAGE_LIMIT_EXCEEDED
                        [("usage_percentage"%string, VNum threshold_usage_critical)]
                        CRITICAL [DASHBOARD; EMAIL; SLACK] 60) now1 id1 t))
                  0%nat [DASHBOARD; EMAIL; SLACK]).
  { unfold s1, _trigger_alert. cbn [tr_rule_id t exceeded_trigger new_service alert_rules].
    rewrite default_rules_usage_exceeded. reflexivity. }
  assert (Hcool : _is_in_cooldown s1 now2 (alert_key_of t) 60 = false).
  { rewrite H1. unfold _is_in_cooldown. cbn [usage_alerts enqueue _save_alert_to_db
      register_alert new_service app existsb row_of_alert ua_alert_type
      new_alert alert_type mk_rule rule_alert_type].
    unfold alert_key_of. cbn [tr_rule_id t exceeded_trigger].
    rewrite usage_exceeded_key_mismatch. reflexivity. }
  unfold s2, _trigger_alert.
  replace (alert_rules s1 !! tr_rule_id t)
    with (default_rules !! "usage_exceeded"%string) by (rewrite H1; reflexivity).
  rewrite default_rules_usage_exceeded.
  cbn [rule_enabled mk_rule negb rule_cooldown_minutes rule_channels].
  rewrite Hcool. rewrite H1. repeat split.
Qed.

(** C1 (fails on the code).  User [u1] stands at 100% of the allowance and
    the rule [usage_exceeded], whose cooldown is 60 minutes, is triggered for
    [u1] at time 0 and again one minute later: both calls create and persist
    an alert. *)
Theorem second_alert_within_cooldown_not_suppressed :
  let t := exceeded_trigger exceeded_row in
  let s1 := _trigger_alert new_service 0 "id1" t in
  let s2 := _trigger_alert s1 usec_per_minute "id2" t in
  option_map rule_cooldown_minutes (default_rules !! tr_rule_id t) = Some 60
  /\ alert_key_of t = "usage_exceeded_u1"%string
  /\ map (fun r => (ua_id r, ua_alert_type r, ua_triggered_at r)) (usage_alerts s2)
     = [("id1"%string, "usage_limit_exceeded"%string, 0);
        ("id2"%string, "usage_limit_exceeded"%string, usec_per_minute)]
  /\ map (fun a => (alert_id a, alert_rule_id a, alert_user_id a)) (active_values s2)
     = [("id1"%string, "usage_exceeded"%string, Some "u1"%string);
        ("id2"%string, "usage_exceeded"%string, Some "u1"%string)].
Proof. repeat split. Qed.

(** ** Reading the active alerts *)

Lemma slice_to_In {A} (n : Z) (l : list A) (x : A) :
  In x (slice_to n l) -> In x l.
Proof.
  unfold slice_to. destruct (0 <=? n); intros H.
  - rewrite <- (firstn_skipn (Z.to_nat n) l). apply List.in_or_app. now left.
  - rewrite <- (firstn_skipn (Z.to_nat (Z.of_nat (length l) + n)) l).
    apply List.in_or_app. now left.
Qed.

Lemma slice_to_all {A} (n : Z) (l : list A) :
  Z.of_nat (length l) <= n -> slice_to n l = l.
Proof.
  intros Hn. rewrite slice_to_nonneg by lia. apply firstn_all2. lia.
Qed.

Lemma get_active_alerts_In s limit a :
  In a (get_active_alerts s limit).2 -> In a (active_values s).
Proof.
  unfold get_active_alerts. simpl. intros H. apply slice_to_In in H.
  eapply Permutation_in; [apply sorted_reverse_perm|exact H].
Qed.

Lemma active_values_length s :
  (length (active_values s) <= length (active_alerts s))%nat.
Proof.
  unfold active_values. induction (active_alerts s) as [|kv l IH]; csimpl; [lia|].
  destruct (heap s !! kv.2); csimpl; lia.
Qed.

(** C10.  [get_active_alerts] leaves the service as it is and returns the
    alerts of the active set newest first, cut after [limit] entries: the
    result is sorted by descending [triggered_at], has [limit] entries or
    all of them if there are fewer, and consists of alerts of the active
    set none of which is older than an alert left out. *)
Theorem get_active_alerts_newest_first (s : Service) (limit : Z) :
  0 <= limit ->
  let r := get_active_alerts s limit in
  r.1 = s
  /\ Z.of_nat (length r.2) <= limit
  /\ length r.2 = Nat.min (Z.to_nat limit) (length (active_values s))
  /\ StronglySorted newer_first r.2
  /\ exists rest,
       Permutation (r.2 ++ rest) (active_values s)
       /\ forall a b, In a r.2 -> In b rest -> newer_first a b.
Proof.
  intros Hlimit r.
  set (srt := sorted_reverse triggered_at (active_values s)).
  assert (Hr : r.2 = firstn (Z.to_nat limit) srt)
    by (unfold r, get_active_alerts; simpl; now rewrite slice_to_nonneg).
  assert (Hsorted : StronglySorted newer_first srt).
  { eapply StronglySorted_weaken; [|apply sorted_reverse_stable].
    intros a b [Hlt|[Heq _]]; unfold newer_first; lia. }
  rewrite <- (firstn_skipn (Z.to_nat limit) srt) in Hsorted.
  apply StronglySorted_app_inv in Hsorted as (Hfirst & _ & Hcross).
  assert (Hlen : length r.2 = Nat.min (Z.to_nat limit) (length (active_values s))).
  { rewrite Hr, length_firstn. unfold srt. now rewrite sorted_reverse_length. }
  split; [reflexivity|]. split; [lia|]. split; [exact Hlen|].
  split; [now rewrite Hr|].
  exists (skipn (Z.to_nat limit) srt). split.
  - rewrite Hr, firstn_skipn. apply sorted_reverse_perm.
  - rewrite Hr. exact Hcross.
Qed.

Lemma get_active_alerts_newest_first_witness :
  0 <= 1
  /\ map alert_id (get_active_alerts two_alerts 1).2 = ["id2"%string]
  /\ (get_active_alerts two_alerts 1).1 = two_alerts
  /\ Z.of_nat (length (get_active_alerts two_alerts 1).2) <= 1.
Proof.
  assert (H : 0 <= 1) by lia.
  pose proof (get_active_alerts_newest_first two_alerts 1 H) as (Hs & Hl & _).
  split; [exact H|]. split; [reflexivity|]. split; [exact Hs|exact Hl].
Defined.

(** ** Resolving and cleaning up *)

Lemma active_lookup_inv s id a :
  active_lookup s id = Some a ->
  exists addr, dict_get id (active_alerts s) = Some addr /\ heap s !! addr = Some a.
Proof.
  unfold active_lookup. destruct (dict_get id (active_alerts s)) as [addr|];
    [|discriminate].
  intros H. now exists addr.
Qed.

Lemma active_values_In s a :
  In a (active_values s) <->
  exists kv, In kv (active_alerts s) /\ heap s !! kv.2 = Some a.
Proof.
  unfold active_values. rewrite <- list_elem_of_In, list_elem_of_omap.
  setoid_rewrite list_elem_of_In. reflexivity.
Qed.

Lemma heap_update_heap s addr f a :
  heap s !! addr = Some a ->
  heap (heap_update s addr f) = <[addr := f a]> (heap s).
Proof. intros H. unfold heap_update. now rewrite H. Qed.

Lemma heap_update_active s addr f :
  active_alerts (heap_update s addr f) = active_alerts s.
Proof. unfold heap_update. destruct (heap s !! addr); reflexivity. Qed.

(** Updating an object in place keeps the active map well keyed, as long as
    the update does not touch the object's identifier. *)
Lemma wf_heap_update s addr f :
  (forall a, alert_id (f a) = alert_id a) ->
  wf s -> wf (heap_update s addr f).
Proof.
  intros Hid [Hnd Hkeys]. split; rewrite heap_update_active; [exact Hnd|].
  eapply List.Forall_impl; [|exact Hkeys].
  intros [k ad] (a & Ha & Hk). simpl in *. unfold keyed_by_id, heap_update. simpl.
  destruct (heap s !! addr) as [a0|] eqn:E; [|now exists a].
  simpl. destruct (decide (ad = addr)) as [->|Hne].
  - exists (f a0). split.
    + apply list_lookup_insert_eq. now apply lookup_lt_Some in E.
    + rewrite Hid. congruence.
  - exists a. split; [|exact Hk]. now rewrite list_lookup_insert_ne by congruence.
Qed.

Lemma wf_new_service : wf new_service.
Proof. split; constructor. Qed.

(** Whatever identifier is drawn, the entry point keeps the active map well
    keyed. *)
Lemma wf_trigger_alert s now uuid t : wf s -> wf (_trigger_alert s now uuid t).
Proof.
  intros [Hnd Hkeys]. unfold _trigger_alert.
  destruct (alert_rules s !! tr_rule_id t) as [rule|]; [|now split].
  destruct (negb (rule_enabled rule)); [now split|].
  destruct (_is_in_cooldown _ _ _ _); [now split|].
  split; simpl.
  - rewrite dict_keys_set.
    destruct (dict_get uuid (active_alerts s)) eqn:E; [exact Hnd|].
    apply dict_get_None in E.
    apply NoDup_app. split; [exact Hnd|]. split; [|apply NoDup_singleton].
    intros x Hx Hx'. apply list_elem_of_singleton in Hx'. subst x.
    apply E. now apply list_elem_of_In.
  - apply dict_set_Forall.
    + eexists. split; [apply list_lookup_middle; reflexivity|reflexivity].
    + eapply List.Forall_impl; [|exact Hkeys].
      intros [k ad] (a & Ha & Hk). exists a. split; [|exact Hk].
      simpl in *. now apply lookup_app_l_Some.
Qed.

Lemma foldl_dict_del_skip {V} (k : string) (v : V) ks :
  ~ In k ks -> forall d,
  foldl (fun d id => dict_del id d) ((k, v) :: d) ks
  = (k, v) :: foldl (fun d id => dict_del id d) d ks.
Proof.
  induction ks as [|k' ks IH]; intros Hk d; [reflexivity|]. simpl.
  destruct (decide (k' = k)) as [->|Hne]; [exfalso; apply Hk; now left|].
  apply IH. intros H. apply Hk. now right.
Qed.

(** Deleting, one by one, the keys of the entries that satisfy [p] leaves
    the entries that do not. *)
Lemma foldl_dict_del_filter {V} (p : string * V -> bool) (d : list (string * V)) :
  NoDup (dict_keys d) ->
  foldl (fun d id => dict_del id d) d (map fst (List.filter p d))
  = List.filter (fun kv => negb (p kv)) d.
Proof.
  induction d as [|[k v] d IH]; [reflexivity|].
  intros Hnd. apply NoDup_cons in Hnd as [Hk Hnd]. simpl.
  destruct (p (k, v)) eqn:Hp; simpl.
  - destruct (decide (k = k)); [|congruence]. now apply IH.
  - rewrite foldl_dict_del_skip; [now rewrite IH|].
    intros Hin. apply Hk, list_elem_of_In.
    apply in_map_iff in Hin as ([k' v'] & Heq & Hin). simpl in Heq. subst k'.
    apply filter_In in Hin as [Hin _]. now apply (in_map fst) in Hin.
Qed.

Lemma alert_cleanup_active s now :
  NoDup (dict_keys (active_alerts s)) ->
  active_alerts (_alert_cleanup s now)
  = List.filter (fun kv => negb (is_resolved s kv.2)) (active_alerts s).
Proof.
  intros Hnd. unfold _alert_cleanup. simpl.
  now rewrite (foldl_dict_del_filter (fun kv => is_resolved s kv.2)).
Qed.

(** After a cleanup pass no resolved alert is left in the active set. *)
Lemma alert_cleanup_drops_resolved s now a :
  wf s -> In a (active_values (_alert_cleanup s now)) -> resolved_at a = None.
Proof.
  intros [Hnd _] Ha. apply active_values_In in Ha as ([k ad] & Hin & Hh).
  rewrite alert_cleanup_active in Hin by exact Hnd.
  apply filter_In in Hin as [_ Hres]. simpl in *.
  unfold is_resolved in Hres. rewrite Hh in Hres.
  apply negb_true_iff, bool_decide_eq_false in Hres.
  destruct (resolved_at a); [exfalso; apply Hres; discriminate|reflexivity].
Qed.

(** C2 (fails as stated).  The alert [id1] is active and is resolved five
    minutes after it fired: [resolve_alert] answers [True] and sets
    [resolved_at], yet [get_active_alerts] still returns the alert. *)
Lemma resolved_alert_still_returned :
  let r := resolve_alert one_alert (5 * usec_per_minute) true "id1" "ops" in
  is_Some (active_lookup one_alert "id1")
  /\ r.2 = true
  /\ map (fun a => (alert_id a, resolved_at a)) (get_active_alerts r.1 50).2
     = [("id1"%string, Some (5 * usec_per_minute))].
Proof. repeat split. eexists. reflexivity. Qed.

(** C2 (as amended).  For an alert of the active set, [resolve_alert]
    answers [True] when the database update goes through ([False] when it
    raises) and sets the alert's [resolved_at] to the current time.  The
    alert stays in the active set, so [get_active_alerts] keeps returning it
    when the limit is large enough; it is gone from the result once a
    cleanup pass has run. *)
Theorem resolved_alert_listed_until_cleanup (s : Service) (now now' : Z)
    (id by_ : string) (a : Alert) :
  wf s -> active_lookup s id = Some a ->
  let r := resolve_alert s now true id by_ in
  r.2 = true
  /\ (resolve_alert s now false id by_).2 = false
  /\ active_lookup r.1 id = Some (set_resolved_at a now)
  /\ (forall limit, Z.of_nat (length (active_alerts s)) <= limit ->
        In (set_resolved_at a now) (get_active_alerts r.1 limit).2)
  /\ (forall limit b,
        In b (get_active_alerts (_alert_cleanup r.1 now') limit).2 ->
        alert_id b <> id).
Proof.
  intros Hwf Hlook r.
  destruct (active_lookup_inv _ _ _ Hlook) as (addr & Hget & Hheap).
  set (s1 := heap_update s addr (fun a => set_resolved_at a now)).
  assert (Hr1 : r.1 = set_usage_alerts s1 (db_set_resolved now id (usage_alerts s1)))
    by (unfold r, resolve_alert; now rewrite Hget).
  assert (Hwf1 : wf s1) by (now apply wf_heap_update).
  assert (Hh1 : heap s1 !! addr = Some (set_resolved_at a now)).
  { unfold s1. rewrite (heap_update_heap _ _ _ _ Hheap).
    apply list_lookup_insert_eq. now apply lookup_lt_Some in Hheap. }
  assert (Hact : active_alerts r.1 = active_alerts s).
  { rewrite Hr1. simpl. apply heap_update_active. }
  assert (Hlook1 : active_lookup r.1 id = Some (set_resolved_at a now)).
  { unfold active_lookup. rewrite Hact, Hget, Hr1. exact Hh1. }
  assert (Hwfr : wf r.1).
  { rewrite Hr1. destruct Hwf1 as [Hnd Hk]. split; [exact Hnd|exact Hk]. }
  split; [unfold r, resolve_alert; now rewrite Hget|].
  split; [unfold resolve_alert; now rewrite Hget|].
  split; [exact Hlook1|]. split.
  - intros limit Hlimit. unfold get_active_alerts. simpl.
    rewrite slice_to_all.
    + eapply Permutation_in; [symmetry; apply sorted_reverse_perm|].
      apply active_values_In. exists (id, addr). split.
      * rewrite Hact. now apply dict_get_Some_In.
      * rewrite Hr1. exact Hh1.
    + rewrite sorted_reverse_length.
      pose proof (active_values_length r.1) as Hlen. rewrite Hact in Hlen. lia.
  - intros limit b Hb Hid.
    apply get_active_alerts_In in Hb.
    pose proof (alert_cleanup_drops_resolved _ _ _ Hwfr Hb) as Hnone.
    apply active_values_In in Hb as ([k ad] & Hin & Hh).
    destruct Hwfr as [Hnd Hkeys].
    rewrite alert_cleanup_active in Hin by exact Hnd.
    apply filter_In in Hin as [Hin _]. simpl in Hh.
    rewrite List.Forall_forall in Hkeys.
    destruct (Hkeys _ Hin) as (b' & Hb' & Hk). simpl in Hb', Hk.
    assert (b' = b) by congruence. subst b'.
    assert (Hk' : k = id) by congruence. rewrite Hk' in Hin.
    assert (Had : dict_get id (active_alerts r.1) = Some ad)
      by (apply dict_In_get; [exact Hnd|exact Hin]).
    rewrite Hact, Hget in Had. injection Had as <-.
    rewrite Hr1 in Hh. simpl in Hh. rewrite Hh1 in Hh.
    injection Hh as <-. discriminate Hnone.
Qed.

Lemma resolved_alert_listed_until_cleanup_witness :
  wf one_alert
  /\ is_Some (active_lookup one_alert "id1")
  /\ (resolve_alert one_alert (5 * usec_per_minute) true "id1" "ops").2 = true
  /\ forall limit b,
       In b (get_active_alerts
               (_alert_cleanup
                  (resolve_alert one_alert (5 * usec_per_minute) true "id1" "ops").1
                  (60 * usec_per_minute)) limit).2 ->
       alert_id b <> "id1"%string.
Proof.
  assert (Hwf : wf one_alert) by (apply wf_trigger_alert, wf_new_service).
  destruct (active_lookup one_alert "id1") as [a|] eqn:E;
    [|vm_compute in E; discriminate E].
  pose proof (resolved_alert_listed_until_cleanup one_alert
                (5 * usec_per_minute) (60 * usec_per_minute) "id1" "ops" a Hwf E)
    as (Hok & _ & _ & _ & Hgone).
  split; [exact Hwf|]. split; [now exists a|]. split; [exact Hok|exact Hgone].
Defined.

(* ===================================================================== *)
(** * Part III. Further properties of the services                       *)
(* ===================================================================== *)

(** ** Usage metrics: totals *)

Lemma zsum_map_add {A} (a b : A -> Z) (l : list A) :
  zsum (map (fun x => a x + b x) l) = zsum (map a l) + zsum (map b l).
Proof. induction l as [|x l IH]; simpl; [reflexivity|]. fold zsum in *. lia. Qed.

Lemma zsum_indicator {K} `{EqDecision K} (x : K) (c : Z) (ks : list K) :
  NoDup ks -> In x ks ->
  zsum (map (fun k => if bool_decide (x = k) then c else 0) ks) = c.
Proof.
  induction 1 as [|k ks Hk Hnd IH]; [intros []|]. simpl. fold zsum.
  intros [->|Hin].
  - rewrite bool_decide_eq_true_2 by reflexivity.
    assert (Hz : zsum (map (fun k0 => if bool_decide (x = k0) then c else 0) ks) = 0).
    { clear IH Hnd. induction ks as [|k' ks IH]; [reflexivity|]. simpl. fold zsum.
      apply not_elem_of_cons in Hk as [Hne Hk].
      rewrite bool_decide_eq_false_2 by congruence. rewrite IH by exact Hk. lia. }
    lia.
  - rewrite bool_decide_eq_false_2.
    + rewrite IH by exact Hin. lia.
    + intros ->. apply Hk. now apply list_elem_of_In.
Qed.

(** Grouping loses nothing: summed over the groups, a per-event quantity
    gives its sum over all events. *)
Lemma group_sum {A K} `{EqDecision K} (key : A -> K) (f : A -> Z)
    (sel : list A) (ks : list K) :
  NoDup ks -> (forall e, In e sel -> In (key e) ks) ->
  zsum (map (fun k => zsum (map f (List.filter
                                     (fun e => bool_decide (key e = k)) sel))) ks)
  = zsum (map f sel).
Proof.
  intros Hnd. induction sel as [|e sel IH]; intros Hin.
  - simpl. induction ks as [|k ks IHk]; [reflexivity|]. simpl. fold zsum.
    apply NoDup_cons in Hnd as [_ Hnd]. now rewrite IHk.
  - simpl. fold zsum.
    rewrite <- IH by (intros e' He'; apply Hin; now right).
    rewrite <- (zsum_indicator (key e) (f e) ks Hnd) at 1
      by (apply Hin; now left).
    rewrite <- zsum_map_add. f_equal. apply map_ext. intros k.
    destruct (bool_decide (key e = k)); simpl; fold zsum; lia.
Qed.

Lemma length_as_zsum {A} (l : list A) :
  Z.of_nat (length l) = zsum (map (fun _ => 1) l).
Proof. induction l as [|x l IH]; simpl; [reflexivity|]. fold zsum. lia. Qed.

Lemma main_query_interactions sel :
  zsum (map mr_total_interactions (main_query sel)) = Z.of_nat (length sel).
Proof.
  unfold main_query. rewrite map_map. cbn [mr_total_interactions].
  rewrite (length_as_zsum sel).
  rewrite <- (group_sum group_key (fun _ => 1) sel (remove_dups (map group_key sel))).
  - f_equal. apply map_ext. intros k. apply length_as_zsum.
  - apply NoDup_remove_dups.
  - intros e He. apply list_elem_of_In, elem_of_remove_dups, list_elem_of_In.
    now apply in_map.
Qed.

Lemma main_query_tokens sel :
  zsum (map (fun r => default 0 (mr_total_tokens r)) (main_query sel))
  = zsum (map ev_tokens_used sel).
Proof.
  unfold main_query. rewrite map_map. cbn [mr_total_tokens default].
  rewrite <- (group_sum group_key ev_tokens_used sel
                (remove_dups (map group_key sel))).
  - reflexivity.
  - apply NoDup_remove_dups.
  - intros e He. apply list_elem_of_In, elem_of_remove_dups, list_elem_of_In.
    now apply in_map.
Qed.

Section BreakdownSums.
Context (field : Breakdown -> Z).

Lemma dict_set_sum k b b' (d : list (string * Breakdown)) :
  dict_get k d = Some b ->
  breakdown_sum field (dict_set k b' d)
  = breakdown_sum field d - field b + field b'.
Proof.
  unfold breakdown_sum. induction d as [|[k0 b0] d IH]; simpl; [discriminate|].
  destruct (decide (k = k0)) as [->|Hne]; simpl; fold zsum.
  - intros [= ->]. lia.
  - intros H. specialize (IH H). lia.
Qed.

Lemma dict_upd_sum dflt k (f : Breakdown -> Breakdown) c
    (d : list (string * Breakdown)) :
  field dflt = 0 -> (forall b, field (f b) = field b + c) ->
  breakdown_sum field (dict_upd dflt k f d) = breakdown_sum field d + c.
Proof.
  intros H0 Hf. unfold dict_upd. destruct (dict_get k d) as [b|] eqn:E.
  - rewrite (dict_set_sum _ _ _ _ E), Hf. lia.
  - unfold breakdown_sum. rewrite map_app, zsum_app. simpl. rewrite Hf, H0. lia.
Qed.

Lemma breakdown_by_sum (key : MetricsRow -> string) dflt (amount : MetricsRow -> Z)
    results :
  field dflt = 0 ->
  (forall r b, field (add_row r b) = field b + amount r) ->
  (forall b, field (users_to_count b) = field b) ->
  breakdown_sum field (breakdown_by key dflt results) = zsum (map amount results).
Proof.
  intros H0 Hadd Hconv. unfold breakdown_by.
  assert (Hmap : forall d, breakdown_sum field
                   (map (fun kv => (kv.1, users_to_count kv.2)) d)
                 = breakdown_sum field d).
  { intros d. unfold breakdown_sum. rewrite map_map. f_equal.
    apply map_ext. intros [k b]. apply Hconv. }
  rewrite Hmap.
  induction results as [|r results IH] using rev_ind; [reflexivity|].
  rewrite foldl_app. simpl. rewrite (dict_upd_sum _ _ _ (amount r)), IH.
  - rewrite map_app, zsum_app. simpl. lia.
  - exact H0.
  - intros b. apply Hadd.
Qed.
End BreakdownSums.

Lemma breakdown_by_NoDup (key : MetricsRow -> string) dflt results :
  NoDup (dict_keys (breakdown_by key dflt results)).
Proof.
  unfold breakdown_by, dict_keys. rewrite map_map. simpl.
  change (NoDup (dict_keys (foldl (fun d r => dict_upd dflt (key r) (add_row r) d)
                                  [] results))).
  induction results as [|r results IH] using rev_ind; [constructor|].
  rewrite foldl_app. simpl. now apply dict_keys_NoDup_upd.
Qed.

(** X1.  Nothing is lost or counted twice in the totals of
    [calculate_usage_metrics]: the total interactions are the number of
    selected events and the total tokens their token sum, and the
    interaction and token counts of the agent breakdown, and of the tier
    breakdown, add up to these totals; each agent and each tier has one
    entry. *)
Theorem usage_metrics_totals (events : list UsageEvent) (start_date end_date : Z)
    (user_filter tier_filter : option string) :
  let sel := List.filter (where_clause start_date end_date user_filter tier_filter)
                         events in
  let m := calculate_usage_metrics events start_date end_date
             user_filter tier_filter in
  um_total_interactions m = Z.of_nat (length sel)
  /\ um_total_tokens m = zsum (map ev_tokens_used sel)
  /\ breakdown_sum bd_interactions (um_agent_breakdown m) = um_total_interactions m
  /\ breakdown_sum bd_interactions (um_tier_breakdown m) = um_total_interactions m
  /\ breakdown_sum bd_tokens (um_agent_breakdown m) = um_total_tokens m
  /\ breakdown_sum bd_tokens (um_tier_breakdown m) = um_total_tokens m
  /\ NoDup (dict_keys (um_agent_breakdown m))
  /\ NoDup (dict_keys (um_tier_breakdown m)).
Proof.
  intros sel m. unfold m, calculate_usage_metrics, usage_metrics_of. fold sel.
  cbn [um_total_interactions um_total_tokens um_agent_breakdown um_tier_breakdown].
  split; [apply main_query_interactions|].
  split; [apply main_query_tokens|].
  unfold agent_breakdown_of, tier_breakdown_of.
  repeat split;
    try (apply breakdown_by_sum; [reflexivity|reflexivity|reflexivity]);
    apply breakdown_by_NoDup.
Qed.

Lemma filter_none {A} (p : A -> bool) (l : list A) :
  (forall x, In x l -> p x = false) -> List.filter p l = [].
Proof.
  induction l as [|x l IH]; intros H; [reflexivity|]. simpl.
  rewrite (H x) by (now left). apply IH. intros y Hy. apply H. now right.
Qed.

(** X2.  A period in which no event passes the filters yields the zero
    metrics: all counts zero, both breakdowns and the peak hours empty. *)
Theorem usage_metrics_empty_window (events : list UsageEvent)
    (start_date end_date : Z) (user_filter tier_filter : option string) :
  (forall e, In e events ->
     where_clause start_date end_date user_filter tier_filter e = false) ->
  calculate_usage_metrics events start_date end_date user_filter tier_filter
  = empty_metrics start_date end_date.
Proof.
  intros Hnone. unfold calculate_usage_metrics.
  now rewrite (filter_none _ _ Hnone).
Qed.

Lemma usage_metrics_empty_window_witness :
  (forall e, In e [one_event] ->
     where_clause (10 * usec_per_hour) (20 * usec_per_hour) None None e = false)
  /\ calculate_usage_metrics [one_event] (10 * usec_per_hour) (20 * usec_per_hour)
       None None
     = empty_metrics (10 * usec_per_hour) (20 * usec_per_hour).
Proof.
  assert (H : forall e, In e [one_event] ->
                where_clause (10 * usec_per_hour) (20 * usec_per_hour)
                  None None e = false).
  { intros e [<-|[]]. reflexivity. }
  split; [exact H|].
  exact (usage_metrics_empty_window [one_event] _ _ None None H).
Defined.

Lemma remove_dups_length_le {A} `{EqDecision A} (l : list A) :
  (length (remove_dups l) <= length l)%nat.
Proof.
  induction l as [|x l IH]; simpl; [lia|].
  destruct (decide_rel elem_of x l); simpl; lia.
Qed.

Lemma remove_dups_all_equal {A} `{EqDecision A} (u : A) (l : list A) :
  (forall x, In x l -> x = u) -> (length (remove_dups l) <= 1)%nat.
Proof.
  intros Hall.
  pose proof (NoDup_remove_dups l) as Hnd.
  assert (Hu : forall x, In x (remove_dups l) -> x = u).
  { intros x Hx. apply Hall.
    now rewrite <- list_elem_of_In, <- elem_of_remove_dups, list_elem_of_In. }
  destruct (remove_dups l) as [|x [|y r]]; simpl; try lia.
  exfalso. apply NoDup_cons in Hnd as [Hx _]. apply Hx.
  rewrite (Hu x) by (now left). rewrite (Hu y) by (right; now left).
  now left.
Qed.

(** X3.  The distinct counts of [calculate_usage_metrics] never exceed the
    number of interactions, and with a user filter at most one user is
    counted. *)
Theorem usage_metrics_unique_counts (events : list UsageEvent)
    (start_date end_date : Z) (user_filter tier_filter : option string) :
  let m := calculate_usage_metrics events start_date end_date
             user_filter tier_filter in
  0 <= um_unique_users m <= um_total_interactions m
  /\ 0 <= um_unique_sessions m <= um_total_interactions m
  /\ (str_truthy user_filter = true -> um_unique_users m <= 1).
Proof.
  intros m.
  set (sel := List.filter (where_clause start_date end_date user_filter tier_filter)
                          events).
  assert (Htot : um_total_interactions m = Z.of_nat (length sel))
    by apply main_query_interactions.
  rewrite Htot.
  assert (Hu : um_unique_users m = count_distinct (map ev_user_id sel)) by reflexivity.
  assert (Hs : um_unique_sessions m = count_distinct (map ev_session_id sel))
    by reflexivity.
  rewrite Hu, Hs. unfold count_distinct.
  pose proof (remove_dups_length_le (map ev_user_id sel)) as H1.
  pose proof (remove_dups_length_le (map ev_session_id sel)) as H2.
  rewrite length_map in H1, H2.
  split; [lia|]. split; [lia|].
  intros Hf. destruct user_filter as [u|]; [|discriminate].
  assert (H : (length (remove_dups (map ev_user_id sel)) <= 1)%nat); [|lia].
  apply (remove_dups_all_equal u). intros x Hx.
  apply in_map_iff in Hx as (e & <- & He).
  apply filter_In in He as [_ He]. unfold where_clause in He. rewrite Hf in He.
  apply andb_true_iff in He as [He _]. apply andb_true_iff in He as [_ He].
  apply bool_decide_eq_true in He. congruence.
Qed.

(** ** Agent performance *)

Lemma perf_query_interactions events agent_id start_date :
  zsum (map pr_total_interactions (perf_query events agent_id start_date))
  = Z.of_nat (length (List.filter
                        (fun e => streq (ev_agent_id e) agent_id
                                  && (start_date <=? ev_timestamp e)) events)).
Proof.
  unfold perf_query. set (sel := List.filter _ events).
  rewrite map_map. cbn [pr_total_interactions].
  set (key := fun e : UsageEvent => (sql_hour (ev_timestamp e), ev_subscription_tier e)).
  rewrite (length_as_zsum sel).
  rewrite <- (group_sum key (fun _ => 1) sel (remove_dups (map key sel))).
  - f_equal. apply map_ext. intros k. apply length_as_zsum.
  - apply NoDup_remove_dups.
  - intros e He. apply list_elem_of_In, elem_of_remove_dups, list_elem_of_In.
    now apply in_map.
Qed.

(** X4.  The interaction count of [analyze_agent_performance] is the number
    of events of the agent in the window, and an agent without events gets
    the all-zero metrics. *)
Theorem agent_performance_counts (events : list UsageEvent) (now : Z)
    (agent_id : string) (days : Z) :
  let in_window e := streq (ev_agent_id e) agent_id
                     && (now - timedelta_days days <=? ev_timestamp e) in
  let p := analyze_agent_performance events now agent_id days in
  ap_total_interactions p = Z.of_nat (length (List.filter in_window events))
  /\ (List.filter in_window events = [] ->
      p = {| ap_agent_id := agent_id; ap_total_interactions := 0;
             ap_avg_response_time := 0; ap_success_rate := 0;
             ap_user_satisfaction := 0; ap_token_efficiency := 0;
             ap_peak_usage_hours := []; ap_most_common_use_cases := [] |}).
Proof.
  intros in_window p. subst in_window. split.
  - rewrite <- (perf_query_interactions events agent_id (now - timedelta_days days)).
    unfold p, analyze_agent_performance, agent_performance_of.
    destruct (perf_query events agent_id (now - timedelta_days days));
      reflexivity.
  - intros Hnone. unfold p, analyze_agent_performance, perf_query.
    now rewrite Hnone.
Qed.

(** ** Sending notifications *)

Lemma send_notifications_fold (send_ok : Conn -> bool) (a : Alert) channels :
  forall sent conns log,
  exists conns' log',
    foldl (send_channel send_ok a) (sent, conns, log) channels
    = (sent ++ channels, conns', log')
    /\ (~ In DASHBOARD channels -> conns' = conns /\ log' = log)
    /\ (Forall (fun c => send_ok c = true) conns ->
        conns' = conns /\ log' = log ++ dashboard_deliveries a conns channels).
Proof.
  induction channels as [|ch channels IH]; intros sent conns log.
  - exists conns, log. simpl. rewrite !app_nil_r. auto.
  - cbn [foldl].
    assert (Hdec : ch = DASHBOARD \/ ch <> DASHBOARD)
      by (destruct ch; (now left) || (right; discriminate)).
    destruct Hdec as [->|Hch].
    + cbn [send_channel].
      destruct (broadcast send_ok conns (dashboard_message a)) as [cs1 lg1] eqn:Eb.
      destruct (IH (sent ++ [DASHBOARD]) cs1 (log ++ lg1))
        as (cs' & lg' & -> & Hno & Hok).
      exists cs', lg'. rewrite <- app_assoc. split; [reflexivity|]. split.
      * intros Hnd. exfalso. apply Hnd. now left.
      * intros Hall. rewrite (broadcast_all_ok _ _ _ Hall) in Eb.
        injection Eb as <- <-. destruct (Hok Hall) as [-> ->].
        split; [reflexivity|]. cbn [dashboard_deliveries flat_map].
        now rewrite <- app_assoc.
    + assert (Hstep : send_channel send_ok a (sent, conns, log) ch
                      = (sent ++ [ch], conns, log))
        by (destruct ch; try reflexivity; congruence).
      rewrite Hstep.
      destruct (IH (sent ++ [ch]) conns log) as (cs' & lg' & -> & Hno & Hok).
      exists cs', lg'. rewrite <- app_assoc. split; [reflexivity|]. split.
      * intros Hnd. apply Hno. intros H. apply Hnd. now right.
      * intros Hall. destruct (Hok Hall) as [-> ->]. split; [reflexivity|].
        destruct ch; try reflexivity. congruence.
Qed.

(** X5.  [_send_notifications] records every requested channel as sent,
    whether or not a dashboard connection could be reached; without the
    dashboard channel it touches no connection, and with healthy
    connections it delivers one envelope per connection for each
    [DASHBOARD] requested and keeps them all registered. *)
Theorem send_notifications_effect (send_ok : Conn -> bool) (conns : list Conn)
    (s : Service) (addr : nat) (channels : list AlertChannel) (a : Alert) :
  heap s !! addr = Some a ->
  let r := _send_notifications send_ok conns s addr channels in
  r.1.1 = heap_update s addr (fun a => set_channels_sent a channels)
  /\ (~ In DASHBOARD channels -> r.1.2 = conns /\ r.2 = [])
  /\ (Forall (fun c => send_ok c = true) conns ->
      r.1.2 = conns /\ r.2 = dashboard_deliveries a conns channels).
Proof.
  intros Ha. unfold _send_notifications. rewrite Ha.
  destruct (send_notifications_fold send_ok a channels [] conns [])
    as (cs' & lg' & Hfold & Hno & Hok).
  rewrite Hfold. cbn zeta. simpl. auto.
Qed.

Lemma send_notifications_effect_witness :
  is_Some (heap one_alert !! 0%nat)
  /\ option_map channels_sent
       (heap (_send_notifications (fun _ => false) [1; 2]%nat one_alert 0
                [DASHBOARD; EMAIL]).1.1 !! 0%nat)
     = Some [DASHBOARD; EMAIL].
Proof.
  destruct (heap one_alert !! 0%nat) as [a|] eqn:E;
    [|vm_compute in E; discriminate E].
  split; [now exists a|].
  rewrite (proj1 (send_notifications_effect (fun _ => false) [1; 2]%nat
                    one_alert 0 [DASHBOARD; EMAIL] a E)).
  reflexivity.
Defined.

(** ** The state invariant *)

Lemma heap_update_length s addr f :
  length (heap (heap_update s addr f)) = length (heap s).
Proof.
  unfold heap_update. destruct (heap s !! addr); [|reflexivity].
  simpl. apply length_insert.
Qed.

Lemma invariant_heap_update s addr f :
  keeps_identity f -> service_invariant s -> service_invariant (heap_update s addr f).
Proof.
  intros Hf (Hwf & Hrules & Hhist & Hqueue & Hheap).
  split; [apply wf_heap_update; [intros a; apply Hf|exact Hwf]|].
  split; [unfold heap_update; destruct (heap s !! addr); exact Hrules|].
  split; [|split].
  - rewrite heap_update_length.
    unfold heap_update; destruct (heap s !! addr); exact Hhist.
  - rewrite heap_update_length.
    unfold heap_update; destruct (heap s !! addr); exact Hqueue.
  - unfold heap_update. destruct (heap s !! addr) as [a|] eqn:E; [|exact Hheap].
    simpl. apply Forall_insert; [exact Hheap|].
    assert (Ha : follows_rule a).
    { rewrite List.Forall_forall in Hheap. apply Hheap.
      apply list_elem_of_In. eapply list_elem_of_lookup_2, E. }
    destruct Ha as (rule & H1 & H2 & H3). destruct (Hf a) as (_ & E1 & E2 & E3).
    exists rule. now rewrite E1, E2, E3.
Qed.

Lemma invariant_set_usage_alerts s rows :
  service_invariant s -> service_invariant (set_usage_alerts s rows).
Proof. intros (Hwf & H). split; [destruct Hwf; now split|exact H]. Qed.

Lemma invariant_trigger s now uuid t :
  service_invariant s -> service_invariant (_trigger_alert s now uuid t).
Proof.
  intros Hinv. pose proof Hinv as (Hwf & Hrules & Hhist & Hqueue & Hheap).
  split; [now apply wf_trigger_alert|].
  unfold _trigger_alert.
  destruct (alert_rules s !! tr_rule_id t) as [rule|] eqn:Hrule;
    [|now destruct Hinv].
  destruct (negb (rule_enabled rule)); [now destruct Hinv|].
  destruct (_is_in_cooldown _ _ _ _); [now destruct Hinv|].
  cbn [enqueue _save_alert_to_db register_alert alert_rules heap alert_history
       notification_queue].
  split; [exact Hrules|]. rewrite length_app. simpl.
  split; [|split].
  - apply Forall_app. split; [|repeat constructor; lia].
    eapply List.Forall_impl; [|exact Hhist]. simpl. intros; lia.
  - apply Forall_app. split; [|repeat constructor; simpl; lia].
    eapply List.Forall_impl; [|exact Hqueue]. simpl. intros; lia.
  - apply Forall_app. split; [exact Hheap|]. repeat constructor.
    exists rule. rewrite Hrules in Hrule. now split.
Qed.

Lemma NoDup_keys_filter {V} (p : string * V -> bool) (d : list (string * V)) :
  NoDup (dict_keys d) -> NoDup (dict_keys (List.filter p d)).
Proof.
  induction d as [|[k v] d IH]; [constructor|]. simpl.
  intros Hnd. apply NoDup_cons in Hnd as [Hk Hnd].
  destruct (p (k, v)); [|now apply IH]. simpl. apply NoDup_cons.
  split; [|now apply IH].
  intros Hin. apply Hk. apply list_elem_of_In in Hin. apply list_elem_of_In.
  apply in_map_iff in Hin as (kv & <- & Hin).
  apply filter_In in Hin as [Hin _]. now apply (in_map fst).
Qed.

Lemma Forall_filter_keep {A} (P : A -> Prop) (p : A -> bool) (l : list A) :
  Forall P l -> Forall P (List.filter p l).
Proof.
  intros H. apply List.Forall_forall. intros x Hx.
  apply filter_In in Hx as [Hx _]. rewrite List.Forall_forall in H. now apply H.
Qed.

Lemma invariant_cleanup s now :
  service_invariant s -> service_invariant (_alert_cleanup s now).
Proof.
  intros ([Hnd Hkeys] & Hrules & Hhist & Hqueue & Hheap).
  split; [split|].
  - rewrite alert_cleanup_active by exact Hnd. now apply NoDup_keys_filter.
  - rewrite alert_cleanup_active by exact Hnd. now apply Forall_filter_keep.
  - split; [exact Hrules|]. split; [|now split].
    cbn [_alert_cleanup alert_history heap]. now apply Forall_filter_keep.
Qed.

Lemma invariant_acknowledge s now db_ok id by_ :
  service_invariant s -> service_invariant (acknowledge_alert s now db_ok id by_).1.
Proof.
  intros Hinv. unfold acknowledge_alert.
  destruct (dict_get id (active_alerts s)); [|exact Hinv].
  assert (H : service_invariant
                (heap_update s n (fun a => set_acknowledged a now by_)))
    by (apply invariant_heap_update; [now intros a|exact Hinv]).
  destruct db_ok; [now apply invariant_set_usage_alerts|exact H].
Qed.

Lemma invariant_resolve s now db_ok id by_ :
  service_invariant s -> service_invariant (resolve_alert s now db_ok id by_).1.
Proof.
  intros Hinv. unfold resolve_alert.
  destruct (dict_get id (active_alerts s)); [|exact Hinv].
  assert (H : service_invariant (heap_update s n (fun a => set_resolved_at a now)))
    by (apply invariant_heap_update; [now intros a|exact Hinv]).
  destruct db_ok; [now apply invariant_set_usage_alerts|exact H].
Qed.

Lemma send_notifications_service send_ok conns s addr channels :
  (_send_notifications send_ok conns s addr channels).1.1
  = heap_update s addr (fun a => set_channels_sent a channels).
Proof.
  unfold _send_notifications, heap_update.
  destruct (heap s !! addr) as [a|] eqn:E; [|reflexivity].
  destruct (send_notifications_fold send_ok a channels [] conns [])
    as (cs' & lg' & Hfold & _).
  rewrite Hfold. reflexivity.
Qed.

Lemma invariant_notify s send_ok conns :
  service_invariant s -> service_invariant (notification_step send_ok conns s).1.1.
Proof.
  intros Hinv. unfold notification_step.
  destruct (notification_queue s) as [|[addr channels] rest] eqn:Hq; [exact Hinv|].
  rewrite send_notifications_service.
  apply invariant_heap_update; [now intros a|].
  destruct Hinv as ([Hnd Hkeys] & Hrules & Hhist & Hqueue & Hheap).
  rewrite Hq in Hqueue. apply Forall_cons in Hqueue as [_ Hqueue].
  repeat split; assumption.
Qed.

(** X6.  In every state the service can reach, the active map is keyed by
    the identifiers of the alerts it points to, without repeated keys; the
    rule registry is the initial one; the history and the notification
    queue refer to allocated alerts only; and every alert ever created
    carries the type and severity of the registered rule it names. *)
Theorem reachable_invariant (s : Service) :
  reachable s -> service_invariant s.
Proof.
  induction 1.
  - split; [apply wf_new_service|]. repeat split; constructor.
  - now apply invariant_trigger.
  - now apply invariant_acknowledge.
  - now apply invariant_resolve.
  - now apply invariant_cleanup.
  - now apply invariant_notify.
Qed.

Lemma reachable_invariant_witness :
  reachable two_alerts /\ service_invariant two_alerts.
Proof.
  assert (H : reachable two_alerts) by (do 2 apply reach_trigger; apply reach_new).
  split; [exact H|exact (reachable_invariant two_alerts H)].
Defined.

(** ** Creating an alert *)

Lemma heap_lookup_push (h : list Alert) (a : Alert) :
  (h ++ [a]) !! length h = Some a.
Proof. now apply list_lookup_middle. Qed.

(** X7.  When the rule is registered and enabled and the cooldown check
    does not hit, [_trigger_alert] makes exactly one new alert: it is found
    in the active set under the drawn identifier, neither acknowledged nor
    resolved and with no channel sent; one row is appended to the table and
    one entry, with the channels of the rule, to the queue; the other active
    alerts are as before.  In every other case the service is unchanged. *)
Theorem trigger_alert_creates_one (s : Service) (now : Z) (uuid : string)
    (t : Trigger) (rule : AlertRule) :
  wf s ->
  alert_rules s !! tr_rule_id t = Some rule ->
  let s' := _trigger_alert s now uuid t in
  let a := new_alert rule now uuid t in
  (rule_enabled rule = false
   \/ _is_in_cooldown s now (alert_key_of t) (rule_cooldown_minutes rule) = true ->
   s' = s)
  /\ (rule_enabled rule = true ->
      _is_in_cooldown s now (alert_key_of t) (rule_cooldown_minutes rule) = false ->
      active_lookup s' uuid = Some a
      /\ resolved_at a = None /\ acknowledged_at a = None /\ channels_sent a = []
      /\ usage_alerts s' = usage_alerts s ++ [row_of_alert a]
      /\ notification_queue s'
         = notification_queue s ++ [(length (heap s), rule_channels rule)]
      /\ alert_history s' = alert_history s ++ [length (heap s)]
      /\ (forall id, id <> uuid -> active_lookup s' id = active_lookup s id)).
Proof.
  intros [Hnd Hkeys] Hrule s' a. unfold s', _trigger_alert. rewrite Hrule.
  split.
  - intros [Hoff|Hcool].
    + now rewrite Hoff.
    + rewrite Hcool. now destruct (negb (rule_enabled rule)).
  - intros Hon Hcool. rewrite Hon, Hcool.
    unfold active_lookup.
    cbn [negb enqueue _save_alert_to_db register_alert usage_alerts
         notification_queue alert_history active_alerts heap].
    fold a. change (alert_id a) with uuid. repeat split.
    + rewrite dict_get_set. destruct (decide (uuid = uuid)); [|congruence].
      apply heap_lookup_push.
    + intros id Hid.
      rewrite dict_get_set. destruct (decide (id = uuid)); [contradiction|].
      destruct (dict_get id (active_alerts s)) as [addr|] eqn:E; [|reflexivity].
      apply dict_get_Some_In in E. rewrite List.Forall_forall in Hkeys.
      destruct (Hkeys _ E) as (b & Hb & _). simpl in Hb.
      rewrite Hb. now apply lookup_app_l_Some.
Qed.

Lemma trigger_alert_creates_one_witness :
  wf new_service
  /\ is_Some (alert_rules new_service !! tr_rule_id (exceeded_trigger exceeded_row))
  /\ option_map alert_id (active_lookup one_alert "id1") = Some "id1"%string.
Proof.
  destruct (alert_rules new_service !! tr_rule_id (exceeded_trigger exceeded_row))
    as [rule|] eqn:E; [|vm_compute in E; discriminate E].
  split; [apply wf_new_service|]. split; [now exists rule|].
  destruct (trigger_alert_creates_one new_service 0 "id1"
              (exceeded_trigger exceeded_row) rule wf_new_service E) as [_ H].
  unfold one_alert. rewrite (proj1 (H ltac:(vm_compute in E; injection E as <-; reflexivity)
                                     ltac:(reflexivity))).
  reflexivity.
Defined.

(** ** Acknowledging and resolving *)

Lemma db_updates_commute t1 t2 actor id rows :
  db_set_resolved t2 id (db_set_acknowledged t1 actor id rows)
  = db_set_acknowledged t1 actor id (db_set_resolved t2 id rows).
Proof.
  unfold db_set_resolved, db_set_acknowledged. rewrite !map_map.
  apply map_ext. intros r. destruct (streq (ua_id r) id) eqn:E; simpl;
    rewrite ?E; reflexivity.
Qed.

(** X8.  Acknowledging and resolving an active alert commute, whatever the
    two times and actors (with the database reachable): either order leaves
    the same service, in which the alert carries both marks and so does its
    row in the table. *)
Theorem acknowledge_resolve_commute (s : Service) (t1 t2 : Z)
    (id actor resolver : string) (a : Alert) :
  active_lookup s id = Some a ->
  let ack_first :=
    (resolve_alert (acknowledge_alert s t1 true id actor).1 t2 true id resolver).1 in
  let resolve_first :=
    (acknowledge_alert (resolve_alert s t2 true id resolver).1 t1 true id actor).1 in
  ack_first = resolve_first
  /\ active_lookup ack_first id
     = Some (set_resolved_at (set_acknowledged a t1 actor) t2)
  /\ usage_alerts ack_first
     = db_set_resolved t2 id (db_set_acknowledged t1 actor id (usage_alerts s)).
Proof.
  intros Ha. apply active_lookup_inv in Ha as (addr & Hget & Hheap).
  assert (Hlt : (addr < length (heap s))%nat) by (now apply lookup_lt_Some in Hheap).
  intros ack_first resolve_first.
  assert (E1 : ack_first
               = set_usage_alerts
                   (set_heap s (<[addr := set_resolved_at (set_acknowledged a t1 actor) t2]>
                                  (heap s)))
                   (db_set_resolved t2 id
                      (db_set_acknowledged t1 actor id (usage_alerts s)))).
  { unfold ack_first, resolve_alert, acknowledge_alert. rewrite Hget. simpl.
    rewrite heap_update_active, Hget.
    unfold heap_update. rewrite Hheap. simpl.
    rewrite list_lookup_insert_eq by exact Hlt.
    unfold set_usage_alerts, set_heap. simpl.
    now rewrite list_insert_insert_eq. }
  assert (E2 : resolve_first
               = set_usage_alerts
                   (set_heap s (<[addr := set_acknowledged (set_resolved_at a t2) t1 actor]>
                                  (heap s)))
                   (db_set_acknowledged t1 actor id
                      (db_set_resolved t2 id (usage_alerts s)))).
  { unfold resolve_first, resolve_alert, acknowledge_alert. rewrite Hget. simpl.
    rewrite heap_update_active, Hget.
    unfold heap_update. rewrite Hheap. simpl.
    rewrite list_lookup_insert_eq by exact Hlt.
    unfold set_usage_alerts, set_heap. simpl.
    now rewrite list_insert_insert_eq. }
  split; [|split].
  - rewrite E1, E2, db_updates_commute. reflexivity.
  - rewrite E1. unfold active_lookup. simpl. rewrite Hget.
    now apply list_lookup_insert_eq.
  - rewrite E1. reflexivity.
Qed.

Lemma acknowledge_resolve_commute_witness :
  active_lookup one_alert "id1" = Some (new_alert
    {| rule_id := "usage_exceeded"; rule_name := "Límite de Uso Excedido";
       rule_alert_type := USAGE_LIMIT_EXCEEDED;
       rule_conditions := [("usage_percentage"%string, VNum threshold_usage_critical)];
       rule_severity := CRITICAL; rule_channels := [DASHBOARD; EMAIL; SLACK];
       rule_cooldown_minutes := 60; rule_enabled := true |}
    0 "id1" (exceeded_trigger exceeded_row))
  /\ (resolve_alert (acknowledge_alert one_alert 5 true "id1" "ana").1
        9 true "id1" "luis").1
     = (acknowledge_alert (resolve_alert one_alert 9 true "id1" "luis").1
          5 true "id1" "ana").1.
Proof.
  assert (H : active_lookup one_alert "id1" = Some (new_alert
    {| rule_id := "usage_exceeded"; rule_name := "Límite de Uso Excedido";
       rule_alert_type := USAGE_LIMIT_EXCEEDED;
       rule_conditions := [("usage_percentage"%string, VNum threshold_usage_critical)];
       rule_severity := CRITICAL; rule_channels := [DASHBOARD; EMAIL; SLACK];
       rule_cooldown_minutes := 60; rule_enabled := true |}
    0 "id1" (exceeded_trigger exceeded_row))) by reflexivity.
  split; [exact H|].
  exact (proj1 (acknowledge_resolve_commute one_alert 5 9 "id1" "ana" "luis" _ H)).
Defined.

(** ** Cleaning up *)

Lemma filter_filter_same {A} (p : A -> bool) (l : list A) :
  List.filter p (List.filter p l) = List.filter p l.
Proof.
  induction l as [|x l IH]; [reflexivity|]. simpl.
  destruct (p x) eqn:E; simpl; rewrite ?E, IH; reflexivity.
Qed.

Lemma filter_keys_NoDup {V} (p : string * V -> bool) (d : list (string * V)) :
  NoDup (dict_keys d) -> NoDup (dict_keys (List.filter p d)).
Proof.
  unfold dict_keys. induction d as [|[k v] d IH]; simpl; [constructor|].
  intros Hnd. apply NoDup_cons in Hnd as [Hk Hnd].
  destruct (p (k, v)); simpl; [|now apply IH].
  apply NoDup_cons. split; [|now apply IH].
  intros Hin. apply Hk. apply list_elem_of_fmap in Hin as ([k' v'] & -> & Hin).
  apply list_elem_of_fmap. exists (k', v'). split; [reflexivity|].
  apply list_elem_of_In. apply list_elem_of_In in Hin.
  now apply List.filter_In in Hin as [Hin _].
Qed.

Lemma service_ext (s1 s2 : Service) :
  alert_rules s1 = alert_rules s2 -> heap s1 = heap s2 ->
  active_alerts s1 = active_alerts s2 -> alert_history s1 = alert_history s2 ->
  notification_queue s1 = notification_queue s2 ->
  usage_alerts s1 = usage_alerts s2 -> s1 = s2.
Proof. destruct s1, s2. simpl. congruence. Qed.

(** X9.  A cleanup pass keeps exactly the unresolved entries of the active
    map, in their order, and the history entries triggered within the last
    seven days; it changes no alert, no table row and no queued
    notification; and a second pass at the same time changes nothing. *)
Theorem cleanup_effect (s : Service) (now : Z) :
  NoDup (dict_keys (active_alerts s)) ->
  let s' := _alert_cleanup s now in
  active_alerts s'
  = List.filter (fun kv => negb (is_resolved s kv.2)) (active_alerts s)
  /\ alert_history s'
     = List.filter (triggered_after s (now - timedelta_days 7)) (alert_history s)
  /\ heap s' = heap s
  /\ usage_alerts s' = usage_alerts s
  /\ notification_queue s' = notification_queue s
  /\ _alert_cleanup s' now = s'.
Proof.
  intros Hnd s'.
  assert (Hact : active_alerts s'
                 = List.filter (fun kv => negb (is_resolved s kv.2)) (active_alerts s))
    by (now apply alert_cleanup_active).
  repeat split; try assumption; try reflexivity.
  assert (Hnd' : NoDup (dict_keys (active_alerts s')))
    by (rewrite Hact; now apply filter_keys_NoDup).
  apply service_ext; try reflexivity.
  - rewrite (alert_cleanup_active s' now Hnd').
    rewrite (List.filter_ext (fun kv : string * nat => negb (is_resolved s' kv.2))
               (fun kv => negb (is_resolved s kv.2))) by reflexivity.
    rewrite Hact. apply filter_filter_same.
  - change (List.filter (triggered_after s' (now - timedelta_days 7))
              (List.filter (triggered_after s (now - timedelta_days 7))
                 (alert_history s))
            = List.filter (triggered_after s (now - timedelta_days 7))
                (alert_history s)).
    rewrite (List.filter_ext (triggered_after s' (now - timedelta_days 7))
               (triggered_after s (now - timedelta_days 7))) by reflexivity.
    apply filter_filter_same.
Qed.

Lemma cleanup_effect_witness :
  NoDup (dict_keys (active_alerts two_alerts))
  /\ _alert_cleanup (_alert_cleanup (resolve_alert two_alerts 9 true "id1" "luis").1 10) 10
     = _alert_cleanup (resolve_alert two_alerts 9 true "id1" "luis").1 10.
Proof.
  assert (H : NoDup (dict_keys (active_alerts two_alerts)))
    by (apply (bool_decide_unpack _); vm_compute; exact I).
  split; [exact H|].
  assert (H' : NoDup (dict_keys (active_alerts
                 (resolve_alert two_alerts 9 true "id1" "luis").1)))
    by (apply (bool_decide_unpack _); vm_compute; exact I).
  exact (proj2 (proj2 (proj2 (proj2 (proj2
           (cleanup_effect (resolve_alert two_alerts 9 true "id1" "luis").1 10 H')))))).
Defined.

(** ** The anomaly monitor *)

Lemma anomaly_severity_cases an results :
  In an (detect_usage_anomalies results) ->
  an_severity an = "high"%string \/ an_severity an = "medium"%string.
Proof.
  intros Han.
  apply detect_usage_anomalies_spec in Han as (agent & d & _ & _ & [[_ ->]|[_ ->]]);
    unfold mk_anomaly; cbn [an_severity];
    destruct (Qltb 3 _); auto.
Qed.

Lemma anomaly_calls_summary anomalies :
  Forall (fun an => an_severity an = "high"%string
                    \/ an_severity an = "medium"%string) anomalies ->
  map (fun t => (tr_rule_id t, tr_agent_id t, tr_user_id t)) (anomaly_calls anomalies)
  = map (fun an => ("anomaly"%string, Some (an_agent_id an), None))
      (List.filter (fun an => streq (an_severity an) "high") anomalies).
Proof.
  unfold anomaly_calls. induction 1 as [|an l Han _ IH]; [reflexivity|].
  cbn [flat_map List.filter]. rewrite map_app, IH.
  destruct Han as [-> | ->]; reflexivity.
Qed.

(** X10.  The detector rates every anomaly high or medium, and the anomaly
    monitor calls the alert entry point for the high ones only, once each,
    in the detector's order, for the anomaly's agent: an anomaly whose
    z-score is above 2 but not above 3 never raises an alert, and a cycle
    that finds only such anomalies leaves the service as it was. *)
Theorem anomaly_monitor_alerts_on_high_only (daily : list DailyRow) :
  let anomalies := detect_usage_anomalies daily in
  Forall (fun an => an_severity an = "high"%string
                    \/ an_severity an = "medium"%string) anomalies
  /\ map (fun t => (tr_rule_id t, tr_agent_id t, tr_user_id t))
         (anomaly_calls anomalies)
     = map (fun an => ("anomaly"%string, Some (an_agent_id an), None))
         (List.filter (fun an => streq (an_severity an) "high") anomalies)
  /\ (forall oracle s,
        Forall (fun an => an_severity an = "medium"%string) anomalies ->
        _check_usage_anomalies oracle daily s = s)
  /\ (forall s, detect_usage_anomalies seven_days <> []
                /\ _check_usage_anomalies cycle_oracle seven_days s = s).
Proof.
  intros anomalies.
  assert (Hsev : Forall (fun an => an_severity an = "high"%string
                                   \/ an_severity an = "medium"%string) anomalies).
  { apply List.Forall_forall. intros an Han.
    exact (anomaly_severity_cases an daily Han). }
  split; [exact Hsev|]. split; [exact (anomaly_calls_summary anomalies Hsev)|].
  split.
  - intros oracle s Hmed. unfold _check_usage_anomalies. fold anomalies.
    replace (anomaly_calls anomalies) with (@nil Trigger); [reflexivity|].
    symmetry. unfold anomaly_calls.
    induction Hmed as [|an l Han _ IH]; [reflexivity|].
    cbn [flat_map]. rewrite Han. simpl. apply IH.
    now apply List.Forall_inv_tail in Hsev.
  - intros s. split; [intros E; vm_compute in E; discriminate E|].
    unfold _check_usage_anomalies.
    replace (anomaly_calls (detect_usage_anomalies seven_days)) with (@nil Trigger)
      by (vm_compute; reflexivity).
    reflexivity.
Qed.

(** ** The connection manager: what [broadcast] never does *)

Lemma list_remove_sublist x l : sublist (list_remove x l) l.
Proof.
  induction l as [|y r IH]; simpl; [constructor|].
  destruct (decide (x = y)).
  - now apply sublist_cons.
  - now apply sublist_skip.
Qed.

Lemma list_remove_In_other x c l : c <> x -> In c l -> In c (list_remove x l).
Proof.
  intros Hne. induction l as [|y r IH]; simpl; [auto|].
  intros Hin. destruct (decide (x = y)) as [Hxy|Hxy].
  - destruct Hin as [Hy|Hin]; [congruence|exact Hin].
  - destruct Hin as [Hy|Hin]; [now left|right; now apply IH].
Qed.

(** In a list without repetition the removed element is the one at the
    iterator's index. *)
Lemma list_remove_at (l : list Conn) i c :
  NoDup l -> l !! i = Some c -> list_remove c l = take i l ++ drop (S i) l.
Proof.
  revert i. induction l as [|y r IH]; intros i Hnd Hi; [discriminate|].
  apply NoDup_cons in Hnd as [Hy Hnd]. simpl.
  destruct i as [|i]; simpl in Hi.
  - injection Hi as ->. destruct (decide (c = c)); [reflexivity|congruence].
  - destruct (decide (c = y)) as [->|Hne].
    + exfalso. apply Hy. eapply list_elem_of_lookup_2, Hi.
    + simpl. f_equal. now apply IH.
Qed.

Section BroadcastLoop.
Context {M : Type} (send_ok : Conn -> bool) (message : M).

Lemma broadcast_loop_safe fuel :
  forall i cur log,
    let r := broadcast_loop send_ok message fuel i cur log in
    sublist r.1 cur
    /\ (forall c, In c cur -> send_ok c = true -> In c r.1)
    /\ exists new,
         r.2 = log ++ new
         /\ Forall (fun d => In d.1 cur /\ send_ok d.1 = true /\ d.2 = message) new
         /\ (length new <= fuel)%nat.
Proof.
  induction fuel as [|fuel IH]; intros i cur log; simpl.
  - split; [reflexivity|]. split; [auto|].
    exists []. rewrite app_nil_r.
    split; [reflexivity|]. split; [constructor|simpl; lia].
  - destruct (cur !! i) as [c|] eqn:Hi.
    + assert (Hc : In c cur)
        by (apply list_elem_of_In; eapply list_elem_of_lookup_2, Hi).
      destruct (send_ok c) eqn:Hok.
      * destruct (IH (S i) cur (log ++ [(c, message)]))
          as (Hsub & Hkeep & new & Hlog & Hnew & Hlen).
        split; [exact Hsub|]. split; [exact Hkeep|].
        exists ((c, message) :: new). rewrite Hlog, <- app_assoc.
        split; [reflexivity|]. split; [|simpl; lia].
        constructor; [now repeat split|exact Hnew].
      * destruct (IH (S i) (list_remove c cur) log)
          as (Hsub & Hkeep & new & Hlog & Hnew & Hlen).
        split; [etransitivity; [exact Hsub|apply list_remove_sublist]|].
        split.
        -- intros c' Hc' Hok'. apply Hkeep; [|exact Hok'].
           apply list_remove_In_other; [congruence|exact Hc'].
        -- exists new. split; [exact Hlog|]. split; [|lia].
           eapply List.Forall_impl; [|exact Hnew].
           intros d (Hd & Hd1 & Hd2). repeat split; try assumption.
           apply list_elem_of_In. apply list_elem_of_In in Hd.
           eapply elem_of_sublist; [exact Hd|apply list_remove_sublist].
    + split; [reflexivity|]. split; [auto|].
      exists []. rewrite app_nil_r.
      split; [reflexivity|]. split; [constructor|simpl; lia].
Qed.

Lemma broadcast_loop_once fuel :
  forall i cur log,
    NoDup cur -> NoDup (map fst log) ->
    (forall c, In c (map fst log) -> In c (take i cur)) ->
    NoDup (map fst (broadcast_loop send_ok message fuel i cur log).2).
Proof.
  induction fuel as [|fuel IH]; intros i cur log Hnd Hlog Hseen; simpl;
    [exact Hlog|].
  destruct (cur !! i) as [c|] eqn:Hi; [|exact Hlog].
  assert (Hfresh : ~ In c (take i cur)).
  { intros Hin. apply list_elem_of_In, list_elem_of_lookup in Hin as (j & Hj).
    assert (Hji : (j < i)%nat).
    { apply lookup_lt_Some in Hj. rewrite length_take in Hj. lia. }
    rewrite lookup_take_lt in Hj by exact Hji.
    pose proof (NoDup_lookup cur j i c Hnd Hj Hi). lia. }
  destruct (send_ok c).
  - apply IH; [exact Hnd| |].
    + rewrite map_app. simpl. apply NoDup_app. split; [exact Hlog|].
      split; [|apply NoDup_singleton].
      intros x Hx Hx'. apply list_elem_of_singleton in Hx'. subst x.
      apply Hfresh, Hseen. now apply list_elem_of_In.
    + intros x Hx. rewrite map_app in Hx. apply List.in_app_or in Hx.
      rewrite (take_S_r _ _ _ Hi). apply List.in_or_app.
      destruct Hx as [Hx|[<-|[]]]; [left; now apply Hseen|right; now left].
  - rewrite (list_remove_at cur i c Hnd Hi).
    assert (Hle : (i <= length cur)%nat)
      by (apply lookup_lt_Some in Hi; lia).
    assert (Hsub : sublist (drop (S i) cur) (drop i cur)).
    { replace (drop (S i) cur) with (drop 1 (drop i cur))
        by (rewrite drop_drop; f_equal; lia).
      apply sublist_drop. }
    apply IH.
    + rewrite <- (take_drop i cur) in Hnd.
      apply NoDup_app in Hnd as (H1 & H2 & H3).
      apply NoDup_app. split; [exact H1|]. split.
      * intros x Hx Hx'. apply (H2 x Hx).
        eapply elem_of_sublist; [exact Hx'|exact Hsub].
      * eapply sublist_NoDup; [exact H3|exact Hsub].
    + exact Hlog.
    + intros x Hx. apply Hseen in Hx.
      apply list_elem_of_In. apply list_elem_of_In in Hx.
      rewrite take_app_ge by (rewrite length_take; lia).
      apply elem_of_app. left. exact Hx.
Qed.
End BroadcastLoop.

(** X11.  Whatever the registry and whichever connections fail, [broadcast]
    leaves a registry that is the old one with some entries dropped (none
    added, none reordered); it never drops a connection whose send
    succeeds; it delivers only to registered connections whose send
    succeeds, and only the message it was given; it delivers at most one
    message per registry entry, and when no connection is registered twice,
    no connection is served twice. *)
Theorem broadcast_safety {M : Type} (send_ok : Conn -> bool)
    (conns : list Conn) (message : M) :
  let r := broadcast send_ok conns message in
  sublist r.1 conns
  /\ (forall c, In c conns -> send_ok c = true -> In c r.1)
  /\ Forall (fun d => In d.1 conns /\ send_ok d.1 = true /\ d.2 = message) r.2
  /\ (length r.2 <= length conns)%nat
  /\ (NoDup conns -> NoDup (map fst r.2)).
Proof.
  intros r. unfold r, broadcast.
  destruct (broadcast_loop_safe send_ok message (length conns) 0 conns [])
    as (Hsub & Hkeep & new & Hlog & Hnew & Hlen).
  simpl in Hlog. rewrite Hlog.
  split; [exact Hsub|]. split; [exact Hkeep|]. split; [exact Hnew|].
  split; [exact Hlen|].
  intros Hnd. rewrite <- Hlog.
  apply broadcast_loop_once; [exact Hnd|constructor|intros c []].
Qed.

(** ** The connection manager: the registry *)

Lemma list_remove_snoc c l : ~ In c l -> list_remove c (l ++ [c]) = l.
Proof.
  induction l as [|y r IH]; simpl; intros Hc.
  - destruct (decide (c = c)); [reflexivity|congruence].
  - destruct (decide (c = y)) as [->|Hne]; [exfalso; apply Hc; now left|].
    f_equal. apply IH. intros H. apply Hc. now right.
Qed.

Lemma list_remove_length_In c l :
  In c l -> length l = S (length (list_remove c l)).
Proof.
  induction l as [|y r IH]; simpl; [intros []|].
  intros Hin. destruct (decide (c = y)) as [->|Hne]; [reflexivity|].
  simpl. f_equal. apply IH. destruct Hin; [congruence|assumption].
Qed.

(** X12.  [disconnect] fails exactly for a connection that is not registered
    and otherwise drops one entry, the oldest registration of that
    connection, leaving the others in place; registering a new connection
    and disconnecting it again restores the registry. *)
Theorem connect_disconnect (conns : list Conn) (c : Conn) :
  (disconnect conns c = None <-> ~ In c conns)
  /\ (forall conns', disconnect conns c = Some conns' ->
        length conns = S (length conns')
        /\ sublist conns' conns
        /\ forall c', c' <> c -> (In c' conns' <-> In c' conns))
  /\ (~ In c conns -> disconnect (connect conns c) c = Some conns)
  /\ (In c conns ->
      disconnect (connect conns c) c = Some (list_remove c conns ++ [c])).
Proof.
  unfold disconnect, connect.
  split; [|split; [|split]].
  - destruct (bool_decide_reflect (c ∈ conns)) as [Hin|Hin].
    + split; [discriminate|]. intros H. exfalso. apply H.
      now apply list_elem_of_In.
    + split; [intros _|reflexivity]. intros H. apply Hin.
      now apply list_elem_of_In.
  - intros conns'. destruct (bool_decide_reflect (c ∈ conns)) as [Hin|Hin];
      [|discriminate].
    intros [= <-]. apply list_elem_of_In in Hin.
    split; [now apply list_remove_length_In|].
    split; [apply list_remove_sublist|].
    intros c' Hne. split.
    + intros H. apply list_elem_of_In.
      apply (elem_of_sublist (list_remove c conns) conns c');
        [now apply list_elem_of_In|apply list_remove_sublist].
    + now apply list_remove_In_other.
  - intros Hc. rewrite bool_decide_eq_true_2 by set_solver.
    f_equal. now apply list_remove_snoc.
  - intros Hc. rewrite bool_decide_eq_true_2 by set_solver. f_equal.
    induction conns as [|y r IH]; [destruct Hc|]. simpl.
    destruct (decide (c = y)) as [->|Hne]; [reflexivity|].
    simpl. f_equal. apply IH. destruct Hc; [congruence|assumption].
Qed.

(** ** The ingestion endpoint *)

(** X13.  [receive_usage_event] succeeds exactly when the tier admits the
    agent and the insert goes through; then the event is appended to the
    table as sent and two background tasks are scheduled.  Every failure,
    the rejected agent included, is answered with status 500 (the 400 of
    the tier check never leaves the endpoint), stores nothing and schedules
    nothing.  Tiers prime and longevity admit every agent, a tier outside
    the table admits none, and what tier essential admits tier pro admits,
    and what tier pro admits tier elite admits. *)
Theorem usage_event_admission (db_ok : bool) (now : Z) (uuid : string)
    (table : list UsageEvent) (e : AgentUsageEvent) :
  let r := receive_usage_event db_ok now uuid table e in
  (r.1.1 = Success uuid <-> agent_rejected e = false /\ db_ok = true)
  /\ (r.1.1 = Success uuid ->
      r.1.2 = table ++ [stored_event e] /\ length r.2 = 2%nat)
  /\ (r.1.1 <> Success uuid ->
      (exists cause, r.1.1 = HttpError 500 cause) /\ r.1.2 = table /\ r.2 = [])
  /\ (agent_rejected e = true ->
      r.1.1 = HttpError 500
                (AgentNotAllowed (aue_agent_id e) (aue_subscription_tier e)))
  /\ (aue_subscription_tier e = "prime"%string
      \/ aue_subscription_tier e = "longevity"%string ->
      agent_rejected e = false)
  /\ (dict_get (aue_subscription_tier e) TIER_LIMITS = None ->
      agent_rejected e = true)
  /\ (forall a : string,
        (a ∈ allowed_agents "essential" -> a ∈ allowed_agents "pro")
        /\ (a ∈ allowed_agents "pro" -> a ∈ allowed_agents "elite")).
Proof.
  intros r. unfold r, receive_usage_event.
  split; [|split; [|split; [|split; [|split; [|split]]]]].
  - destruct (agent_rejected e); simpl; [split; [discriminate|intros [H _]; discriminate]|].
    destruct db_ok; simpl; [split; auto|split; [discriminate|intros [_ H]; discriminate]].
  - destruct (agent_rejected e); simpl; [discriminate|].
    destruct db_ok; simpl; [split; reflexivity|discriminate].
  - destruct (agent_rejected e); simpl; [intros _; repeat split; eauto|].
    destruct db_ok; simpl; [congruence|intros _; repeat split; eauto].
  - intros H. now rewrite H.
  - unfold agent_rejected, allowed_agents. intros [-> | ->]; reflexivity.
  - unfold agent_rejected, allowed_agents. intros H. rewrite H. reflexivity.
  - intros a. unfold allowed_agents. simpl.
    rewrite !list_elem_of_In. simpl. tauto.
Qed.

(** ** The limits report *)


Lemma Qle_bool_false (a b : Q) : Qle_bool a b = false <-> (b < a)%Q.
Proof.
  split; intros H.
  - apply Qnot_le_lt. intros Hle. apply Qle_bool_iff in Hle. congruence.
  - destruct (Qle_bool a b) eqn:E; [|reflexivity].
    apply Qle_bool_iff in E. exfalso. now apply (Qlt_not_le b a).
Qed.


(** ** The anomaly detector: how many days an anomaly needs *)

(** *** The error of one rounding *)

Lemma div_nearest_even_err n d :
  0 <= n -> 0 < d ->
  - d <= 2 * (div_nearest_even n d * d - n) <= d.
Proof.
  intros Hn Hd. unfold div_nearest_even.
  pose proof (Z.div_mod n d ltac:(lia)) as Hdm.
  pose proof (Z.mod_pos_bound n d Hd) as Hr.
  set (q := n / d) in *. set (r := n mod d) in *.
  assert (Hq : (q + 1) * d = d * q + d) by ring.
  assert (Hq' : q * d = d * q) by ring.
  destruct (Z.ltb_spec (2 * r) d); [rewrite Hq'; lia|].
  destruct (Z.ltb_spec d (2 * r)); [rewrite Hq; lia|].
  destruct (Z.even q); [rewrite Hq'; lia|rewrite Hq; lia].
Qed.

(** The exponent chosen by [nearest_float_pos] leaves at least 52 bits
    before the binary point. *)
Lemma nearest_float_exponent n d :
  0 < n -> 0 < d ->
  let e0 := bit_length n - bit_length d - 53 in
  let num e := n * 2 ^ Z.max 0 (- e) in
  let den e := d * 2 ^ Z.max 0 e in
  let e := if num e0 <? 2 ^ 53 * den e0 then e0 else e0 + 1 in
  2 ^ 52 * den e <= num e.
Proof.
  intros Hn Hd e0 num den.
  destruct (Z.ltb_spec (num e0) (2 ^ 53 * den e0)) as [Hlt|Hge]; cbv zeta.
  - apply (scaled_quotient_ge n d e0 52); unfold e0; lia.
  - unfold num, den in *.
    destruct (Z.le_gt_cases 0 e0) as [Hpos|Hneg].
    + rewrite (Z.max_r 0 (e0 + 1)), (Z.max_l 0 (- (e0 + 1))) by lia.
      rewrite (Z.max_r 0 e0), (Z.max_l 0 (- e0)) in Hge by lia.
      rewrite Z.pow_add_r by lia. 
      change (2 ^ 53) with (2 * 2 ^ 52) in Hge. lia.
    + rewrite (Z.max_l 0 (e0 + 1)), (Z.max_r 0 (- (e0 + 1))) by lia.
      rewrite (Z.max_l 0 e0), (Z.max_r 0 (- e0)) in Hge by lia.
      replace (- e0) with (- (e0 + 1) + 1) in Hge by lia.
      rewrite Z.pow_add_r in Hge by lia.
      change (2 ^ 53) with (2 * 2 ^ 52) in Hge. lia.
Qed.

(** [ldexp m e], cleared of its power of two. *)
Lemma ldexp_scaled m e :
  (ldexp m e * zq (2 ^ Z.max 0 (- e)) == zq (m * 2 ^ Z.max 0 e))%Q.
Proof.
  unfold ldexp, zq. destruct (Z.leb_spec 0 e) as [He|He].
  - rewrite (Z.max_l 0 (- e)), (Z.max_r 0 e) by lia. 
    rewrite Z.pow_0_r. change (inject_Z 1) with 1%Q. ring.
  - rewrite (Z.max_r 0 (- e)), (Z.max_l 0 e) by lia.
    rewrite Z.pow_0_r, Z.mul_1_r.
    assert (Hp : 0 < 2 ^ (- e)) by (apply Z.pow_pos_nonneg; lia).
    unfold Qeq, Qmult, inject_Z. cbn [Qnum Qden].
    rewrite Pos2Z.inj_mul, Z2Pos.id by exact Hp. ring.
Qed.

Lemma nearest_float_pos_bounds n d :
  0 < n -> 0 < d ->
  (zq ((2 ^ 53 - 1) * n) <= zq (2 ^ 53 * d) * nearest_float_pos n d)%Q
  /\ (zq (2 ^ 53 * d) * nearest_float_pos n d <= zq ((2 ^ 53 + 1) * n))%Q.
Proof.
  intros Hn Hd.
  pose proof (nearest_float_exponent n d Hn Hd) as Hexp.
  unfold nearest_float_pos. cbv zeta in Hexp.
  set (e := if _ <? _ then _ else _) in *.
  set (N := n * 2 ^ Z.max 0 (- e)) in *.
  set (D := d * 2 ^ Z.max 0 e) in *.
  assert (HR : 0 < 2 ^ Z.max 0 (- e)) by (apply Z.pow_pos_nonneg; lia).
  assert (HP : 0 < 2 ^ Z.max 0 e) by (apply Z.pow_pos_nonneg; lia).
  assert (HN : 0 <= N) by (unfold N; apply Z.mul_nonneg_nonneg; lia).
  assert (HD : 0 < D) by (unfold D; apply Z.mul_pos_pos; lia).
  pose proof (div_nearest_even_err N D HN HD) as Herr.
  set (m := div_nearest_even N D) in *.
  pose proof (ldexp_scaled m e) as Hld.
  assert (HRq : (0 < zq (2 ^ Z.max 0 (- e)))%Q)
    by (unfold zq; change 0%Q with (inject_Z 0); now rewrite <- Zlt_Qlt).
  assert (E : (zq (2 ^ 53 * d) * ldexp m e * zq (2 ^ Z.max 0 (- e))
               == zq (2 ^ 53 * (m * D)))%Q).
  { rewrite <- Qmult_assoc, Hld. unfold zq, D.
    rewrite <- inject_Z_mult. apply inject_Z_injective. ring. }
  split.
  - apply (Qmult_le_r _ _ _ HRq). rewrite E. unfold zq.
    rewrite <- inject_Z_mult, <- Zle_Qle.
    replace ((2 ^ 53 - 1) * n * 2 ^ Z.max 0 (- e)) with ((2 ^ 53 - 1) * N)
      by (unfold N; ring).
    change (2 ^ 53) with (2 * 2 ^ 52) in *. lia.
  - apply (Qmult_le_r _ _ _ HRq). rewrite E. unfold zq.
    rewrite <- inject_Z_mult, <- Zle_Qle.
    replace ((2 ^ 53 + 1) * n * 2 ^ Z.max 0 (- e)) with ((2 ^ 53 + 1) * N)
      by (unfold N; ring).
    change (2 ^ 53) with (2 * 2 ^ 52) in *. lia.
Qed.

Lemma nearest_float_pos_rel n (d : positive) :
  0 < n ->
  ((1 - unit_roundoff) * (n # d) <= nearest_float_pos n (Zpos d))%Q
  /\ (nearest_float_pos n (Zpos d) <= (1 + unit_roundoff) * (n # d))%Q.
Proof.
  intros Hn.
  destruct (nearest_float_pos_bounds n (Zpos d) Hn ltac:(lia)) as [Hlo Hhi].
  assert (Hz : (0 < zq (2 ^ 53 * Z.pos d))%Q)
    by (unfold zq; change 0%Q with (inject_Z 0); rewrite <- Zlt_Qlt; lia).
  assert (E1 : (zq (2 ^ 53 * Z.pos d) * ((1 - unit_roundoff) * (n # d))
                == zq ((2 ^ 53 - 1) * n))%Q).
  { unfold unit_roundoff, zq, Qeq, Qmult, Qminus, Qplus, Qopp, inject_Z.
    cbn [Qnum Qden]. rewrite !Pos2Z.inj_mul. 
    change (Z.pos (2 ^ 53)) with (2 ^ 53). ring. }
  assert (E2 : (zq (2 ^ 53 * Z.pos d) * ((1 + unit_roundoff) * (n # d))
                == zq ((2 ^ 53 + 1) * n))%Q).
  { unfold unit_roundoff, zq, Qeq, Qmult, Qminus, Qplus, Qopp, inject_Z.
    cbn [Qnum Qden]. rewrite !Pos2Z.inj_mul.
    change (Z.pos (2 ^ 53)) with (2 ^ 53). ring. }
  split.
  - apply (Qmult_le_l _ _ _ Hz). now rewrite E1.
  - apply (Qmult_le_l _ _ _ Hz). now rewrite E2.
Qed.

(** Rounding to binary64 changes a number by at most one part in [2^53]. *)
Lemma round_float_err (x : Q) :
  (Qabs (round_float x - x) <= unit_roundoff * Qabs x)%Q.
Proof.
  destruct x as [n d]. unfold round_float, int_true_div. cbn [Qnum Qden].
  destruct (Z.eqb_spec n 0) as [->|Hn0].
  - apply Qle_lteq. right. reflexivity.
  - destruct (Z.ltb_spec 0 n) as [Hpos|Hneg].
    + destruct (nearest_float_pos_rel n d Hpos) as [Hlo Hhi].
      assert (Hx : (0 < n # d)%Q) by (unfold Qlt; simpl; lia).
      rewrite (Qabs_pos (n # d)) by lra.
      apply Qabs_Qle_condition. split; lra.
    + assert (Hpos : 0 < - n) by lia.
      destruct (nearest_float_pos_rel (- n) d Hpos) as [Hlo Hhi].
      assert (Hx : (n # d < 0)%Q) by (unfold Qlt; simpl; lia).
      assert (E : ((- n # d) == - (n # d))%Q) by reflexivity.
      rewrite E in Hlo, Hhi.
      rewrite (Qabs_neg (n # d)) by lra.
      apply Qabs_Qle_condition. split; lra.
Qed.

Lemma round_float_sign (x : Q) :
  ((0 < x)%Q -> (0 < round_float x)%Q) /\ ((x < 0)%Q -> (round_float x < 0)%Q).
Proof.
  destruct x as [n d]. unfold round_float, int_true_div. cbn [Qnum Qden].
  split; intros Hx; unfold Qlt in Hx; simpl in Hx.
  - destruct (Z.eqb_spec n 0); [lia|]. destruct (Z.ltb_spec 0 n); [|lia].
    apply nearest_float_pos_pos; lia.
  - destruct (Z.eqb_spec n 0); [lia|]. destruct (Z.ltb_spec 0 n); [lia|].
    assert (Hp := nearest_float_pos_pos (- n) (Z.pos d) ltac:(lia) ltac:(lia)).
    lra.
Qed.

(** *** The error of the square root *)

Lemma lor_bit_ge a b : 0 <= a -> (b = 0 \/ b = 1) -> a <= Z.lor a b.
Proof.
  intros Ha Hb. pose proof (Z.add_lor_land a b) as H.
  assert (Hl : Z.land a b <= b).
  { destruct Hb as [-> | ->]; [rewrite Z.land_0_r; lia|].
    change 1 with (Z.ones 1). rewrite Z.land_ones by lia.
    pose proof (Z.mod_pos_bound a (2 ^ 1)). change (Z.ones 1) with 1. lia. }
  lia.
Qed.

(** The integer square root taken by [_float_sqrt_of_frac] has at least 55
    bits, and the next integer already exceeds the root. *)
Lemma integer_sqrt_of_frac_rto_bounds n m :
  0 < m -> 2 ^ 108 * m <= n ->
  let r := _integer_sqrt_of_frac_rto n m in
  2 ^ 54 <= r /\ n < (r + 1) * (r + 1) * m.
Proof.
  intros Hm Hn r. unfold r, _integer_sqrt_of_frac_rto.
  set (a := Z.sqrt (n / m)).
  set (b := if a * a * m =? n then 0 else 1).
  assert (Hq : 2 ^ 108 <= n / m) by (apply Z.div_le_lower_bound; lia).
  assert (Ha : 2 ^ 54 <= a).
  { change (2 ^ 54) with (Z.sqrt (2 ^ 108)). now apply Z.sqrt_le_mono. }
  assert (Hs : n / m < Z.succ a * Z.succ a)
    by (apply Z.sqrt_spec; lia).
  assert (Hab : a <= Z.lor a b).
  { apply lor_bit_ge; [lia|]. unfold b. destruct (_ =? _); auto. }
  split; [lia|].
  pose proof (Z.div_mod n m ltac:(lia)) as Hdm.
  pose proof (Z.mod_pos_bound n m Hm) as Hr.
  assert (H1 : n < (n / m + 1) * m) by lia.
  assert (H2 : (n / m + 1) * m <= (a + 1) * (a + 1) * m)
    by (apply Z.mul_le_mono_nonneg_r; lia).
  assert (H3 : (a + 1) * (a + 1) * m <= (Z.lor a b + 1) * (Z.lor a b + 1) * m).
  { apply Z.mul_le_mono_nonneg_r; [lia|].
    apply Z.mul_le_mono_nonneg; lia. }
  lia.
Qed.

Lemma Qmake_mult_den n (m : positive) : ((n # m) * zq (Z.pos m) == zq n)%Q.
Proof.
  unfold zq, Qeq, Qmult, inject_Z. cbn [Qnum Qden].
  rewrite Pos.mul_1_r. ring.
Qed.

Lemma int_true_div_lower n (d : positive) :
  0 < n -> ((1 - unit_roundoff) * (n # d) <= int_true_div n (Zpos d))%Q.
Proof.
  intros Hn. unfold int_true_div.
  destruct (Z.eqb_spec n 0); [lia|]. destruct (Z.ltb_spec 0 n); [|lia].
  now apply nearest_float_pos_rel.
Qed.

(** The square of [statistics]' float square root is within one part in a
    thousand of the fraction, from below. *)
Lemma float_sqrt_of_frac_lower n (m : positive) :
  0 < n ->
  let s := _float_sqrt_of_frac n (Zpos m) in
  ((999 # 1000) * (n # m) <= s * s)%Q.
Proof.
  intros Hn s. unfold s, _float_sqrt_of_frac.
  set (q := (bit_length n - bit_length (Z.pos m) - 109) / 2).
  assert (Hq2 : 2 * q <= bit_length n - bit_length (Z.pos m) - 109)
    by (apply Z.mul_div_le; lia).
  pose proof (scaled_quotient_ge n (Z.pos m) (2 * q) 108 Hn ltac:(lia) ltac:(lia)
                ltac:(lia)) as Hsc.
  assert (Hu : (unit_roundoff == 1 # 9007199254740992)%Q) by reflexivity.
  destruct (Z.leb_spec 0 q) as [Hq|Hq].
  - rewrite (Z.max_r 0 (2 * q)), (Z.max_l 0 (- (2 * q))) in Hsc by lia.
    rewrite Z.pow_0_r, Z.mul_1_r in Hsc.
    assert (HM : 0 < Z.pos m * 2 ^ (2 * q))
      by (apply Z.mul_pos_pos; [lia|apply Z.pow_pos_nonneg; lia]).
    destruct (integer_sqrt_of_frac_rto_bounds n (Z.pos m * 2 ^ (2 * q)) HM Hsc)
      as [Hr Hrn].
    set (r := _integer_sqrt_of_frac_rto n (Z.pos m * 2 ^ (2 * q))) in *.
    assert (HT : 0 < 2 ^ q) by (apply Z.pow_pos_nonneg; lia).
    set (T := 2 ^ q) in *.
    assert (HTT : 2 ^ (2 * q) = T * T)
      by (unfold T; rewrite <- Z.pow_add_r by lia; f_equal; lia).
    rewrite HTT in Hrn.
    pose proof (int_true_div_lower (r * T) 1 ltac:(apply Z.mul_pos_pos; lia)) as Hlo.
    set (f := int_true_div (r * T) 1) in *.
    assert (Hrho : ((r * T # 1) == zq r * zq T)%Q)
      by (unfold zq; rewrite <- inject_Z_mult; reflexivity).
    rewrite Hrho in Hlo.
    assert (Hx : (zq n < (zq r + 1) * (zq r + 1) * (zq (Z.pos m) * (zq T * zq T)))%Q).
    { unfold zq. change 1%Q with (inject_Z 1).
      rewrite <- !inject_Z_plus, <- !inject_Z_mult, <- Zlt_Qlt. lia. }
    assert (Hxq : ((n # m) * zq (Z.pos m) == zq n)%Q)
      by apply Qmake_mult_den.
    assert (Hmq : (0 < zq (Z.pos m))%Q) by reflexivity.
    assert (Hrq : (18014398509481984 <= zq r)%Q).
    { unfold zq. change 18014398509481984%Q with (inject_Z (2 ^ 54)).
      now rewrite <- Zle_Qle. }
    assert (HTq : (0 < zq T)%Q)
      by (unfold zq; change 0%Q with (inject_Z 0); now rewrite <- Zlt_Qlt).
    assert (Hnq : (0 < n # m)%Q) by (unfold Qlt; simpl; lia).
    revert Hlo Hx Hxq Hmq Hrq HTq Hnq Hu.
    generalize (zq r) (zq T) (zq (Z.pos m)) (zq n) (n # m) unit_roundoff f.
    intros R T' M N x u f' Hlo Hx Hxq Hmq Hrq HTq Hnq Hu.
    rewrite Hu in Hlo. clear Hu.
    assert (Hrho' : (0 < R * T')%Q) by nra.
    assert (Hf : ((9999 # 10000) * (R * T') <= f')%Q) by nra.
    assert (Hxx : (x < (R + 1) * (R + 1) * (T' * T'))%Q).
    { apply (Qmult_lt_r _ _ M Hmq). rewrite Hxq. nra. }
    assert (Hrr : (9999 * ((R + 1) * (R + 1)) <= 10000 * (R * R))%Q) by nra.
    assert (Hff : ((9999 # 10000) * (R * T') * ((9999 # 10000) * (R * T'))
                   <= f' * f')%Q) by nra.
    nra.
  - rewrite (Z.max_l 0 (2 * q)), (Z.max_r 0 (- (2 * q))) in Hsc by lia.
    rewrite Z.pow_0_r, Z.mul_1_r in Hsc.
    replace (-2 * q) with (- (2 * q)) by lia.
    destruct (integer_sqrt_of_frac_rto_bounds (n * 2 ^ (- (2 * q))) (Z.pos m)
                ltac:(lia) Hsc) as [Hr Hrn].
    set (r := _integer_sqrt_of_frac_rto (n * 2 ^ (- (2 * q))) (Z.pos m)) in *.
    assert (HU : 0 < 2 ^ (- q)) by (apply Z.pow_pos_nonneg; lia).
    assert (HUU : 2 ^ (- (2 * q)) = 2 ^ (- q) * 2 ^ (- q))
      by (rewrite <- Z.pow_add_r by lia; f_equal; lia).
    rewrite HUU in Hrn.
    destruct (2 ^ (- q)) as [|U|U] eqn:EU; try lia.
    pose proof (int_true_div_lower r U ltac:(lia)) as Hlo.
    set (f := int_true_div r (Z.pos U)) in *.
    assert (Hrho : ((r # U) * zq (Z.pos U) == zq r)%Q)
      by apply Qmake_mult_den.
    assert (Hx : (zq n * (zq (Z.pos U) * zq (Z.pos U))
                  < (zq r + 1) * (zq r + 1) * zq (Z.pos m))%Q).
    { unfold zq. change 1%Q with (inject_Z 1).
      rewrite <- !inject_Z_plus, <- !inject_Z_mult, <- Zlt_Qlt. lia. }
    assert (Hxq : ((n # m) * zq (Z.pos m) == zq n)%Q)
      by apply Qmake_mult_den.
    assert (Hmq : (0 < zq (Z.pos m))%Q) by reflexivity.
    assert (HUq : (0 < zq (Z.pos U))%Q) by reflexivity.
    assert (Hrq : (18014398509481984 <= zq r)%Q).
    { unfold zq. change 18014398509481984%Q with (inject_Z (2 ^ 54)).
      now rewrite <- Zle_Qle. }
    assert (Hnq : (0 < n # m)%Q) by (unfold Qlt; simpl; lia).
    assert (Hrhoq : (0 < r # U)%Q) by (unfold Qlt; simpl; lia).
    revert Hlo Hx Hxq Hmq Hrq HUq Hnq Hu Hrho Hrhoq.
    generalize (zq r) (zq (Z.pos U)) (zq (Z.pos m)) (zq n) (n # m) (r # U)
      unit_roundoff f.
    intros R U' M N x rho u f' Hlo Hx Hxq Hmq Hrq HUq Hnq Hu Hrho Hrhoq.
    rewrite Hu in Hlo. clear Hu.
    assert (Hf : ((9999 # 10000) * rho <= f')%Q) by nra.
    assert (Hff : ((9999 # 10000) * rho * ((9999 # 10000) * rho) <= f' * f')%Q)
      by nra.
    assert (Hrr : (9999 * ((R + 1) * (R + 1)) <= 10000 * (R * R))%Q) by nra.
    (* x * M * U^2 < (R+1)^2 * M, and rho * U = R *)
    assert (Hx2 : (x * (U' * U') < (R + 1) * (R + 1))%Q).
    { apply (Qmult_lt_r _ _ M Hmq).
      assert (E : (x * (U' * U') * M == N * (U' * U'))%Q)
        by (rewrite <- Hxq; ring).
      rewrite E. exact Hx. }
    assert (Hx3 : (9999 * (x * (U' * U')) <= 10000 * (rho * U' * (rho * U')))%Q)
      by (rewrite Hrho; nra).
    assert (HUU' : (0 < U' * U')%Q) by nra.
    assert (Hx4 : (9999 * x <= 10000 * (rho * rho))%Q).
    { apply (Qmult_le_r _ _ (U' * U') HUU').
      assert (E1 : (9999 * x * (U' * U') == 9999 * (x * (U' * U')))%Q) by ring.
      assert (E2 : (10000 * (rho * rho) * (U' * U')
                    == 10000 * (rho * U' * (rho * U')))%Q) by ring.
      rewrite E1, E2. exact Hx3. }
    nra.
Qed.

(** *** The least variance, and the largest deviation, of a sample *)

Lemma zq_minus a b : (zq (a - b) == zq a - zq b)%Q.
Proof.
  unfold zq. rewrite <- Z.add_opp_r, inject_Z_plus, inject_Z_opp. ring.
Qed.

Lemma qsum_app l1 l2 : (qsum (l1 ++ l2) == qsum l1 + qsum l2)%Q.
Proof.
  induction l1 as [|q l1 IH]; simpl; [ring|].
  fold (qsum (l1 ++ l2)). fold (qsum l1). rewrite IH. ring.
Qed.

(** The squared deviations from any centre [c], expanded. *)
Lemma qsum_sq_dev (c : Q) xs :
  (qsum (map (fun x => qsq (zq x - c)) xs)
   == zq (zsum (map (fun x => (x * x)%Z) xs)) - 2 * c * zq (zsum xs)
      + zq (Z.of_nat (length xs)) * (c * c))%Q.
Proof.
  induction xs as [|x xs IH].
  - simpl. unfold zq. simpl. ring.
  - cbn [map qsum foldr zsum length].
    fold (zsum xs). fold (zsum (map (fun x => (x * x)%Z) xs)).
    fold (qsum (map (fun x => qsq (zq x - c)) xs)). rewrite IH.
    unfold zq, qsq.
    rewrite Nat2Z.inj_succ, <- Z.add_1_r, !inject_Z_plus, inject_Z_mult. ring.
Qed.

(** [n] times the sum of the squared deviations from the mean is the
    integer [n * sum(x^2) - sum(x)^2]. *)
Lemma sum_sq_dev_integer xs :
  xs <> [] ->
  (zq (Z.of_nat (length xs)) * qsum (map (fun x => qsq (zq x - zmean xs)) xs)
   == zq (Z.of_nat (length xs) * zsum (map (fun x => (x * x)%Z) xs)
          - zsum xs * zsum xs))%Q.
Proof.
  intros Hne. rewrite qsum_sq_dev. unfold zmean.
  fold (zq (zsum xs)). fold (zq (Z.of_nat (length xs))).
  assert (Hn : ~ (zq (Z.of_nat (length xs)) == 0)%Q).
  { destruct xs as [|x xs]; [congruence|]. unfold zq, Qeq. simpl. lia. }
  rewrite zq_minus. unfold zq at 7 8. rewrite !inject_Z_mult.
  fold (zq (zsum xs)) (zq (Z.of_nat (length xs)))
    (zq (zsum (map (fun x => (x * x)%Z) xs))).
  field. exact Hn.
Qed.

(** A variance that is not zero is at least [1 / (n * (n - 1))]. *)
Lemma variance_lower xs :
  (0 < variance xs)%Q ->
  (2 <= length xs)%nat
  /\ (1 <= zq (Z.of_nat (length xs) * (Z.of_nat (length xs) - 1)) * variance xs)%Q.
Proof.
  intros Hv.
  assert (Hlen : (2 <= length xs)%nat).
  { destruct xs as [|x [|y xs]]; simpl; try lia.
    - vm_compute in Hv. discriminate.
    - exfalso. unfold variance in Hv. cbn [length] in Hv.
      change (zq (Z.of_nat 1 - 1)) with 0%Q in Hv.
      unfold Qdiv in Hv. change (/ 0)%Q with 0%Q in Hv.
      rewrite Qmult_0_r in Hv. now apply Qlt_irrefl in Hv. }
  split; [exact Hlen|].
  assert (Hne : xs <> []) by (intros ->; simpl in Hlen; lia).
  pose proof (sum_sq_dev_integer xs Hne) as Hint.
  set (n := Z.of_nat (length xs)) in *.
  assert (Hn : 2 <= n) by (unfold n; lia).
  set (S := qsum (map (fun x => qsq (zq x - zmean xs)) xs)) in *.
  set (K := n * zsum (map (fun x => (x * x)%Z) xs) - zsum xs * zsum xs) in *.
  assert (HV : (variance xs == S / zq (n - 1))%Q) by reflexivity.
  assert (Hn1 : (0 < zq (n - 1))%Q)
    by (unfold zq; change 0%Q with (inject_Z 0); rewrite <- Zlt_Qlt; lia).
  assert (Hnq : (0 < zq n)%Q)
    by (unfold zq; change 0%Q with (inject_Z 0); rewrite <- Zlt_Qlt; lia).
  assert (HS : (S == variance xs * zq (n - 1))%Q).
  { rewrite HV. field. intros H0. rewrite H0 in Hn1. now apply Qlt_irrefl in Hn1. }
  assert (HSpos : (0 < S)%Q) by (rewrite HS; nra).
  assert (HK : 1 <= K).
  { assert (HKq : (0 < zq K)%Q) by (rewrite <- Hint; nra).
    unfold zq in HKq. change 0%Q with (inject_Z 0) in HKq.
    rewrite <- Zlt_Qlt in HKq. lia. }
  assert (HKq : (1 <= zq K)%Q)
    by (unfold zq; change 1%Q with (inject_Z 1); now rewrite <- Zle_Qle).
  unfold zq at 1. rewrite inject_Z_mult. fold (zq n) (zq (n - 1)).
  rewrite <- Hint in HKq. rewrite HS in HKq. nra.
Qed.

(** The square of a sum of [m] numbers is at most [m] times the sum of
    their squares. *)
Lemma qsum_sq_bound l :
  (qsq (qsum l) <= zq (Z.of_nat (length l)) * qsum (map qsq l))%Q.
Proof.
  induction l as [|a l IH].
  - simpl. unfold qsq. discriminate.
  - destruct l as [|b l'].
    + cbn [length map qsum foldr]. unfold qsq, zq.
      change (inject_Z (Z.of_nat 1)) with 1%Q. lra.
    + remember (b :: l') as l eqn:El.
      cbn [length map qsum foldr]. fold (qsum l). fold (qsum (map qsq l)).
      pose proof (qsum_sq_nonneg l) as Hq.
      assert (HM : (zq (Z.of_nat (S (length l))) == zq (Z.of_nat (length l)) + 1)%Q).
      { unfold zq. rewrite Nat2Z.inj_succ, <- Z.add_1_r, inject_Z_plus. reflexivity. }
      rewrite HM.
      assert (HM1 : (1 <= zq (Z.of_nat (length l)))%Q).
      { unfold zq. rewrite <- (Zle_Qle 1). subst l. simpl length. lia. }
      generalize dependent (qsum (map qsq l)). intros q IH Hq.
      generalize dependent (qsum l). intros s IH.
      generalize dependent (zq (Z.of_nat (length l))). intros M _ IH HM1.
      unfold qsq in *. clear El.
      pose proof (qsq_nonneg (M * a - s)) as H1.
      assert (H2 : (0 <= (M + 1) * (M * q - s * s))%Q)
        by (apply Qmult_le_0_compat; lra).
      assert (H3 : (M * ((M + 1) * (a * a + q) - (a + s) * (a + s))
                    == (M * a - s) * (M * a - s) + (M + 1) * (M * q - s * s))%Q)
        by ring.
      assert (H4 : (0 <= M * ((M + 1) * (a * a + q) - (a + s) * (a + s)))%Q)
        by (rewrite H3; lra).
      assert (H5 : (0 <= (M + 1) * (a * a + q) - (a + s) * (a + s))%Q).
      { apply (Qmult_le_l _ _ M); [lra|]. rewrite Qmult_0_r. exact H4. }
      lra.
Qed.

Lemma qsum_dev (c : Q) xs :
  (qsum (map (fun x => zq x - c) xs)
   == zq (zsum xs) - zq (Z.of_nat (length xs)) * c)%Q.
Proof.
  induction xs as [|x xs IH].
  - simpl. unfold zq. simpl. ring.
  - cbn [map qsum foldr zsum length]. fold (zsum xs).
    fold (qsum (map (fun x => zq x - c)%Q xs)). rewrite IH.
    unfold zq. rewrite Nat2Z.inj_succ, <- Z.add_1_r, !inject_Z_plus. ring.
Qed.

(** The deviations from the mean add up to zero. *)
Lemma dev_sum_zero xs :
  xs <> [] -> (qsum (map (fun x => zq x - zmean xs) xs) == 0)%Q.
Proof.
  intros Hne. rewrite qsum_dev. unfold zmean.
  fold (zq (zsum xs)). fold (zq (Z.of_nat (length xs))).
  rewrite Qmult_div_r; [ring|].
  destruct xs as [|x xs]; [congruence|].
  unfold zq, Qeq. simpl. lia.
Qed.

(** Samuelson's inequality: in a sample of [n] values no value lies further
    from the mean than [n * d^2 <= (n - 1)^2 * variance] allows. *)
Lemma deviation_bound v xs :
  In v xs ->
  (zq (Z.of_nat (length xs)) * qsq (zq v - zmean xs)
   <= zq (Z.of_nat (length xs) - 1) * zq (Z.of_nat (length xs) - 1)
      * variance xs)%Q.
Proof.
  intros Hin. apply in_split in Hin as (l1 & l2 & Hxs).
  set (m := zmean xs).
  set (dev := fun x => (zq x - m)%Q).
  assert (Hzero : (qsum (map dev xs) == 0)%Q)
    by (apply dev_sum_zero; rewrite Hxs; destruct l1; discriminate).
  assert (Hsplit : (qsum (map dev xs) == qsum (map dev (l1 ++ l2)) + dev v)%Q).
  { rewrite Hxs, !map_app, !qsum_app. cbn [map qsum foldr].
    fold (qsum (map dev l2)). ring. }
  assert (Ho : (qsum (map dev (l1 ++ l2)) == - dev v)%Q) by lra.
  assert (Hsq : (qsum (map (fun x => qsq (zq x - m)) xs)
                 == qsum (map qsq (map dev (l1 ++ l2))) + qsq (dev v))%Q).
  { rewrite Hxs, map_map, !map_app, !qsum_app. cbn [map qsum foldr].
    fold (qsum (map (fun x => qsq (zq x - m)) l2)).
    fold (qsum (map (fun x => qsq (dev x)) l2)). unfold dev. ring. }
  pose proof (qsum_sq_bound (map dev (l1 ++ l2))) as Hcs.
  rewrite length_map in Hcs. unfold qsq in Hcs at 1. rewrite Ho in Hcs.
  assert (Hlen : Z.of_nat (length xs) - 1 = Z.of_nat (length (l1 ++ l2))).
  { rewrite Hxs, !length_app. simpl. lia. }
  assert (Hn : (zq (Z.of_nat (length xs))
                == zq (Z.of_nat (length (l1 ++ l2))) + 1)%Q).
  { rewrite <- Hlen. unfold zq. change 1%Q with (inject_Z 1).
    rewrite <- inject_Z_plus. apply inject_Z_injective. lia. }
  assert (Hn0 : (0 <= zq (Z.of_nat (length (l1 ++ l2))))%Q).
  { unfold zq. change 0%Q with (inject_Z 0). rewrite <- Zle_Qle. lia. }
  assert (HV : (zq (Z.of_nat (length xs) - 1) * variance xs
                == qsum (map (fun x => qsq (zq x - m)) xs)
                   * (zq (Z.of_nat (length xs) - 1) / zq (Z.of_nat (length xs) - 1)))%Q).
  { unfold variance. fold m. unfold Qdiv. ring. }
  rewrite Hlen in *. rewrite Hn.
  destruct (Z.eq_dec (Z.of_nat (length (l1 ++ l2))) 0) as [H0|H0].
  - rewrite H0 in *. change (zq 0) with 0%Q in *.
    assert (Hd : (dev v * dev v <= 0)%Q) by (unfold qsq in *; nra).
    fold (dev v). unfold qsq. pose proof (qsq_nonneg (dev v)). nra.
  - assert (Hpos : (0 < zq (Z.of_nat (length (l1 ++ l2))))%Q).
    { unfold zq. change 0%Q with (inject_Z 0). rewrite <- Zlt_Qlt. lia. }
    assert (Hone : (zq (Z.of_nat (length (l1 ++ l2)))
                    / zq (Z.of_nat (length (l1 ++ l2))) == 1)%Q).
    { field. intros E. rewrite E in Hpos. now apply Qlt_irrefl in Hpos. }
    rewrite Hone, Qmult_1_r in HV.
    rewrite <- Qmult_assoc, HV, Hsq.
    fold (dev v). unfold qsq in *.
    revert Hcs Hpos.
    generalize (zq (Z.of_nat (length (l1 ++ l2))))
      (qsum (map (fun q => q * q)%Q (map dev (l1 ++ l2)))) (dev v).
    intros N A d Hcs Hpos. nra.
Qed.

(** *** The float z-score against the exact one *)

Lemma Qabs_cases (a : Q) :
  ((0 <= a)%Q /\ (Qabs a == a)%Q) \/ ((a < 0)%Q /\ (Qabs a == - a)%Q).
Proof.
  destruct (Qlt_le_dec a 0) as [H|H].
  - right. split; [exact H|]. apply Qabs_neg. lra.
  - left. split; [exact H|]. now apply Qabs_pos.
Qed.

Lemma zsum_within_bound xs :
  within_bound xs ->
  Z.abs (zsum xs) <= Z.of_nat (length xs) * count_bound.
Proof.
  induction 1 as [|x xs Hx _ IH]; [simpl; lia|].
  cbn [zsum foldr length]. fold (zsum xs). lia.
Qed.

Lemma zmean_within_bound xs :
  xs <> [] -> within_bound xs ->
  (- zq count_bound <= zmean xs)%Q /\ (zmean xs <= zq count_bound)%Q.
Proof.
  intros Hne Hb. pose proof (zsum_within_bound xs Hb) as Hs.
  set (n := Z.of_nat (length xs)) in *.
  assert (Hn : 0 < n) by (unfold n; destruct xs; [congruence|simpl; lia]).
  assert (Hnq : (0 < zq n)%Q)
    by (unfold zq; change 0%Q with (inject_Z 0); now rewrite <- Zlt_Qlt).
  unfold zmean. fold n. fold (zq (zsum xs)) (zq n).
  assert (H1 : (zq (zsum xs) <= zq count_bound * zq n)%Q).
  { unfold zq. rewrite <- inject_Z_mult, <- Zle_Qle. lia. }
  assert (H2 : (- zq count_bound * zq n <= zq (zsum xs))%Q).
  { unfold zq. rewrite <- inject_Z_opp, <- inject_Z_mult, <- Zle_Qle. lia. }
  split.
  - apply Qle_shift_div_l; [exact Hnq|]. lra.
  - apply Qle_shift_div_r; [exact Hnq|]. lra.
Qed.

Lemma Qabs_zq (z : Z) : Qabs (zq z) = zq (Z.abs z).
Proof. reflexivity. Qed.

(** The float numerator [abs(v - mean)] of the z-score is within rounding
    of the exact deviation. *)
Lemma deviation_float_bound v xs :
  xs <> [] -> within_bound xs -> Z.abs v <= count_bound ->
  let a := to_float (py_abs (int_sub v (statistics_mean xs))) in
  (0 <= a)%Q
  /\ (a <= (1 + unit_roundoff) * (Qabs (zq v - zmean xs) + (1 # 4096)))%Q.
Proof.
  intros Hne Hb Hv a.
  destruct (zmean_within_bound xs Hne Hb) as [Hm1 Hm2].
  assert (Hu : (unit_roundoff == 1 # 9007199254740992)%Q) by reflexivity.
  assert (HB : (zq count_bound == 1099511627776)%Q) by reflexivity.
  assert (Hvq : (Qabs (zq v) <= zq count_bound)%Q).
  { rewrite Qabs_zq. unfold zq. now rewrite <- Zle_Qle. }
  unfold a, statistics_mean.
  pose proof (Qred_correct (zmean xs)) as Hf.
  destruct (Qred (zmean xs)) as [fn fd] eqn:Ef. cbn [Qnum Qden].
  destruct (Z.eqb_spec (Z.pos fd) 1) as [Hd|Hd].
  - assert (fd = 1%positive) by lia. subst fd.
    change (fn # 1) with (zq fn) in Hf.
    cbn [int_sub py_abs to_float].
    change (int_true_div (Z.abs (v - fn)) 1)
      with (round_float (zq (Z.abs (v - fn)))).
    pose proof (round_float_err (zq (Z.abs (v - fn)))) as Herr.
    assert (HD : (Qabs (zq v - zmean xs) == zq (Z.abs (v - fn)))%Q).
    { rewrite <- Hf, <- zq_minus. now rewrite Qabs_zq. }
    rewrite HD.
    assert (H0 : (0 <= zq (Z.abs (v - fn)))%Q).
    { unfold zq. change 0%Q with (inject_Z 0). rewrite <- Zle_Qle. lia. }
    rewrite (Qabs_pos _ H0) in Herr.
    apply Qabs_Qle_condition in Herr as [He1 He2].
    rewrite Hu in *. split; lra.
  - cbn [int_sub py_abs to_float].
    change (int_true_div fn (Z.pos fd)) with (round_float (fn # fd)).
    change (int_true_div v 1) with (round_float (zq v)).
    pose proof (round_float_err (fn # fd)) as Hem.
    pose proof (round_float_err (zq v)) as Hev.
    pose proof (round_float_err (round_float (zq v) - round_float (fn # fd)))
      as Hed.
    set (mf := round_float (fn # fd)) in *.
    set (vf := round_float (zq v)) in *.
    set (df := round_float (vf - mf)) in *.
    rewrite Hf in Hem.
    split; [apply Qabs_nonneg|].
    rewrite Hu in *. rewrite HB in *.
    destruct (Qabs_cases (zmean xs)) as [[Hs1 E1]|[Hs1 E1]]; rewrite E1 in Hem;
    destruct (Qabs_cases (zq v)) as [[Hs2 E2]|[Hs2 E2]]; rewrite E2 in Hev, Hvq;
    destruct (Qabs_cases (vf - mf)) as [[Hs3 E3]|[Hs3 E3]]; rewrite E3 in Hed;
    destruct (Qabs_cases (zq v - zmean xs)) as [[Hs4 E4]|[Hs4 E4]]; rewrite E4;
    destruct (Qabs_cases df) as [[Hs5 E5]|[Hs5 E5]]; rewrite E5;
    apply Qabs_Qle_condition in Hem as [Hem1 Hem2];
    apply Qabs_Qle_condition in Hev as [Hev1 Hev2];
    apply Qabs_Qle_condition in Hed as [Hed1 Hed2];
    lra.
Qed.

(** A float z-score above [k] needs an exact deviation of nearly as much:
    [(v - mean)^2 >= 0.98 * k^2 * variance], for a sample of at most ten
    values within the bound. *)
Lemma float_z_score_exact k v xs :
  within_bound xs -> In v xs -> (length xs <= 10)%nat -> 1 <= k ->
  z_exceeds k v xs ->
  (0 < variance xs)%Q
  /\ (98 * (zq k * zq k) * variance xs <= 100 * qsq (zq v - zmean xs))%Q.
Proof.
  intros Hb Hin Hlen Hk [Hs Hz].
  assert (Hne : xs <> []) by (intros ->; destruct Hin).
  assert (Hv : Z.abs v <= count_bound)
    by (unfold within_bound in Hb; rewrite List.Forall_forall in Hb; now apply Hb).
  assert (HV : (0 < variance xs)%Q) by (now apply stdev_positive).
  split; [exact HV|].
  destruct (variance_lower xs HV) as [Hn2 Hvl].
  destruct (deviation_float_bound v xs Hne Hb Hv) as [Ha0 Ha].
  unfold z_score, div_float in Hz.
  set (a := to_float (py_abs (int_sub v (statistics_mean xs)))) in *.
  set (s := statistics_stdev xs) in *.
  pose proof (round_float_err (a / s)) as Hr.
  assert (Hq0 : (0 <= a / s)%Q).
  { apply Qle_shift_div_l; [exact Hs|]. lra. }
  rewrite (Qabs_pos _ Hq0) in Hr. apply Qabs_Qle_condition in Hr as [_ Hr].
  assert (Has : (a / s * s == a)%Q).
  { field. intros E. rewrite E in Hs. now apply Qlt_irrefl in Hs. }
  (* the square of the float deviation against the variance *)
  assert (Hss : ((999 # 1000) * variance xs <= s * s)%Q).
  { unfold s, statistics_stdev.
    pose proof (Qred_correct (variance xs)) as Hred.
    destruct (Qred (variance xs)) as [rn rd]. cbn [Qnum Qden].
    rewrite <- Hred. apply float_sqrt_of_frac_lower.
    rewrite <- Hred in HV. unfold Qlt in HV. simpl in HV. lia. }
  assert (Hn90 : (zq (Z.of_nat (length xs) * (Z.of_nat (length xs) - 1)) <= 90)%Q).
  { unfold zq. change 90%Q with (inject_Z 90). rewrite <- Zle_Qle. nia. }
  assert (Hkq : (1 <= zq k)%Q)
    by (unfold zq; change 1%Q with (inject_Z 1); now rewrite <- Zle_Qle).
  assert (Hu : (unit_roundoff == 1 # 9007199254740992)%Q) by reflexivity.
  rewrite Hu in *. clear Hu.
  unfold qsq.
  assert (HX : (Qabs (zq v - zmean xs) * Qabs (zq v - zmean xs)
                == (zq v - zmean xs) * (zq v - zmean xs))%Q).
  { destruct (Qabs_cases (zq v - zmean xs)) as [[_ E]|[_ E]]; rewrite E; ring. }
  rewrite <- HX.
  pose proof (Qabs_nonneg (zq v - zmean xs)) as HX0.
  revert Hz Hr Has Hss Hvl Hn90 Hkq HV Ha0 Ha Hs HX0.
  generalize s a (zq k) (variance xs)
    (zq (Z.of_nat (length xs) * (Z.of_nat (length xs) - 1)))
    (Qabs (zq v - zmean xs)) (a / s)%Q (round_float (a / s)).
  clear. intros S A K V N X t z Hz Hr Has Hss Hvl Hn90 Hkq HV Ha0 Ha Hs HX0.
  assert (HV90 : (1 <= 90 * V)%Q) by nra.
  assert (HKS : (K * S <= (10001 # 10000) * (X + (1 # 4096)))%Q).
  { assert (Ht : (K < (1 + (1 # 9007199254740992)) * t)%Q) by lra.
    assert (Hts : (K * S < (1 + (1 # 9007199254740992)) * A)%Q).
    { rewrite <- Has. nra. }
    lra. }
  assert (HKS0 : (0 <= K * S)%Q) by nra.
  assert (Hsq : (K * S * (K * S)
                 <= (10001 # 10000) * (X + (1 # 4096))
                    * ((10001 # 10000) * (X + (1 # 4096))))%Q) by nra.
  assert (HKK : (1 <= K * K)%Q) by nra.
  assert (Hy : (0 <= (X - 100 * (1 # 4096)) * (X - 100 * (1 # 4096)))%Q)
    by apply qsq_nonneg.
  assert (HKV : (K * K * ((999 # 1000) * V) <= K * S * (K * S))%Q) by nra.
  assert (HKV1 : (V <= K * K * V)%Q) by nra.
  nra.
Qed.

(** A value of the sample itself reaches a float z-score above [k] only in
    a sample large enough. *)
Lemma z_exceeds_sample_size k v xs :
  within_bound xs -> In v xs -> (length xs <= 10)%nat -> 1 <= k ->
  z_exceeds k v xs ->
  98 * (k * k) * Z.of_nat (length xs)
  <= 100 * ((Z.of_nat (length xs) - 1) * (Z.of_nat (length xs) - 1)).
Proof.
  intros Hb Hin Hlen Hk Hz.
  destruct (float_z_score_exact k v xs Hb Hin Hlen Hk Hz) as [HV Hex].
  pose proof (deviation_bound v xs Hin) as Hdev.
  set (n := Z.of_nat (length xs)) in *.
  assert (Hn : (0 <= zq n)%Q).
  { unfold zq, n. change 0%Q with (inject_Z 0). rewrite <- Zle_Qle. lia. }
  rewrite Zle_Qle. rewrite !inject_Z_mult.
  fold (zq k) (zq n) (zq (n - 1)).
  change (inject_Z 98) with 98%Q. change (inject_Z 100) with 100%Q.
  revert HV Hex Hdev Hn.
  generalize (zq k) (zq n) (zq (n - 1)) (variance xs) (qsq (zq v - zmean xs)).
  intros K N N1 V D HV Hex Hdev Hn.
  apply (Qmult_le_r _ _ V HV). nra.
Qed.

(** *** Sample sizes *)

Lemma agent_days_within_bound agent results :
  rows_within_bound results ->
  within_bound (map dd_interactions (agent_days agent results))
  /\ within_bound (map dd_tokens (agent_days agent results)).
Proof.
  intros Hb. unfold agent_days, within_bound. rewrite !map_map.
  split; apply Forall_map; apply List.Forall_forall; intros r Hr;
    apply List.filter_In in Hr as [Hr _];
    unfold rows_within_bound in Hb; rewrite List.Forall_forall in Hb;
    destruct (Hb r Hr) as [H1 H2]; assumption.
Qed.

(** A day that is flagged stems from a value of its agent's sample with a
    float z-score above 2, and above 3 when the severity is high. *)
Lemma flagged_value_in_data agent data d an :
  In d data ->
  flags_interactions agent data d an \/ flags_tokens agent data d an ->
  an_agent_id an = agent
  /\ ((In (dd_interactions d) (map dd_interactions data)
       /\ z_exceeds 2 (dd_interactions d) (map dd_interactions data)
       /\ (an_severity an = "high"%string ->
           z_exceeds 3 (dd_interactions d) (map dd_interactions data)))
      \/ (In (dd_tokens d) (map dd_tokens data)
          /\ z_exceeds 2 (dd_tokens d) (map dd_tokens data)
          /\ (an_severity an = "high"%string ->
              z_exceeds 3 (dd_tokens d) (map dd_tokens data)))).
Proof.
  intros Hd [[Hz ->]|[Hz ->]]; (split; [reflexivity|]).
  - left. split; [now apply in_map|]. split; [exact Hz|].
    apply (mk_anomaly_labels "interaction" interaction_description agent
             (dd_date d) _ _ Hz).
  - right. split; [now apply in_map|]. split; [exact Hz|].
    apply (mk_anomaly_labels "token" token_description agent (dd_date d) _ _ Hz).
Qed.

Lemma sample_size_two (n : nat) :
  (n <= 10)%nat ->
  98 * (2 * 2) * Z.of_nat n <= 100 * ((Z.of_nat n - 1) * (Z.of_nat n - 1)) ->
  (n = 0 \/ 6 <= n)%nat.
Proof.
  intros Hn H. do 6 (destruct n as [|n]; [simpl in H; lia|]). lia.
Qed.

Lemma sample_size_three (n : nat) :
  (n <= 10)%nat ->
  98 * (3 * 3) * Z.of_nat n <= 100 * ((Z.of_nat n - 1) * (Z.of_nat n - 1)) ->
  (n = 0)%nat.
Proof.
  intros Hn H. do 11 (destruct n as [|n]; [simpl in H; lia|]). lia.
Qed.

(** Within the bound, the number [n] of days of a flagged agent satisfies
    [0.98 * 4 * n <= (n - 1)^2] unless it exceeds ten, and
    [0.98 * 9 * n <= (n - 1)^2] when the severity is high. *)
Lemma flagged_sample_size (results : list DailyRow) (an : Anomaly) :
  rows_within_bound results ->
  In an (detect_usage_anomalies results) ->
  let n := length (agent_days (an_agent_id an) results) in
  (3 <= n)%nat
  /\ ((n <= 10)%nat ->
      98 * (2 * 2) * Z.of_nat n <= 100 * ((Z.of_nat n - 1) * (Z.of_nat n - 1)))
  /\ (an_severity an = "high"%string -> (n <= 10)%nat ->
      98 * (3 * 3) * Z.of_nat n <= 100 * ((Z.of_nat n - 1) * (Z.of_nat n - 1))).
Proof.
  intros Hb Han.
  apply detect_usage_anomalies_spec in Han as (agent & d & Hlen3 & Hd & Hflag).
  cbv zeta in *.
  destruct (agent_days_within_bound agent results Hb) as [Hbi Hbt].
  destruct (flagged_value_in_data _ _ _ _ Hd Hflag) as [-> Hcase].
  set (data := agent_days agent results) in *.
  assert (Hsize : forall k v xs,
            length xs = length data -> within_bound xs -> In v xs -> 1 <= k ->
            z_exceeds k v xs -> (length data <= 10)%nat ->
            98 * (k * k) * Z.of_nat (length data)
            <= 100 * ((Z.of_nat (length data) - 1) * (Z.of_nat (length data) - 1))).
  { intros k v xs Hl Hbx Hv Hk Hz H10. rewrite <- Hl.
    apply (z_exceeds_sample_size k v xs); try assumption. lia. }
  split; [exact Hlen3|]. split.
  - intros H10. destruct Hcase as [(Hv & Hz & _)|(Hv & Hz & _)].
    + exact (Hsize 2 _ _ (length_map _ _) Hbi Hv ltac:(lia) Hz H10).
    + exact (Hsize 2 _ _ (length_map _ _) Hbt Hv ltac:(lia) Hz H10).
  - intros Hhigh H10. destruct Hcase as [(Hv & _ & Hz)|(Hv & _ & Hz)].
    + exact (Hsize 3 _ _ (length_map _ _) Hbi Hv ltac:(lia) (Hz Hhigh) H10).
    + exact (Hsize 3 _ _ (length_map _ _) Hbt Hv ltac:(lia) (Hz Hhigh) H10).
Qed.

(** X15.  For daily counts of at most [2^40], the detector reports an
    anomaly only for an agent with at least six days of data in the window,
    and an anomaly of severity high only for an agent with at least eleven:
    with the sample standard deviation, fewer values cannot lie more than
    two (three) deviations from their own mean, and the roundings of the
    float computation are too small to change that. *)
Theorem anomaly_needs_six_days (results : list DailyRow) (an : Anomaly) :
  rows_within_bound results ->
  In an (detect_usage_anomalies results) ->
  (6 <= length (agent_days (an_agent_id an) results))%nat
  /\ (an_severity an = "high"%string ->
      (11 <= length (agent_days (an_agent_id an) results))%nat).
Proof.
  intros Hb Han.
  destruct (flagged_sample_size results an Hb Han) as (H3 & H2s & H3s).
  set (n := length (agent_days (an_agent_id an) results)) in *.
  split.
  - destruct (Nat.le_gt_cases 6 n) as [H6|H6]; [exact H6|exfalso].
    assert (H10 : (n <= 10)%nat) by lia.
    destruct (sample_size_two n H10 (H2s H10)); lia.
  - intros Hhigh.
    destruct (Nat.le_gt_cases 11 n) as [H11|H11]; [exact H11|exfalso].
    assert (H10 : (n <= 10)%nat) by lia.
    pose proof (sample_size_three n H10 (H3s Hhigh H10)). lia.
Qed.

Lemma anomaly_needs_six_days_witness :
  rows_within_bound seven_days
  /\ exists an, In an (detect_usage_anomalies seven_days)
                /\ (6 <= length (agent_days (an_agent_id an) seven_days))%nat.
Proof.
  assert (Hb : rows_within_bound seven_days).
  { unfold rows_within_bound, seven_days.
    repeat constructor; vm_compute; discriminate. }
  split; [exact Hb|].
  destruct (detect_usage_anomalies seven_days) as [|an l] eqn:E;
    [vm_compute in E; discriminate E|].
  exists an. split; [now left|].
  apply (anomaly_needs_six_days seven_days an Hb). rewrite E. now left.
Defined.

(** Beyond that size the roundings do matter: for five days with counts
    just above [2^53] the float mean is off by one, and every one of the
    five days is reported. *)
Lemma five_huge_days_flagged :
  map (fun an => (an_type an, an_date an, an_severity an))
      (detect_usage_anomalies five_huge_days)
  = [("interaction_drop", 1, "medium"); ("interaction_drop", 2, "medium");
     ("interaction_drop", 3, "medium"); ("interaction_drop", 4, "medium");
     ("interaction_spike", 5, "medium")]%string.
Proof. vm_compute. reflexivity. Qed.



(** ** The usage-limit monitor: the thresholds in float arithmetic *)

Lemma tier_limit_cases tier :
  tier_limit tier = 50000 \/ tier_limit tier = 150000
  \/ tier_limit tier = 500000 \/ tier_limit tier = 1000000.
Proof.
  unfold tier_limit, tier_limits. simpl.
  repeat (destruct (decide _); [simpl; tauto|]). simpl. tauto.
Qed.

Lemma int_true_div_rel n (d : positive) :
  0 < n ->
  ((1 - unit_roundoff) * (n # d) <= int_true_div n (Zpos d))%Q
  /\ (int_true_div n (Zpos d) <= (1 + unit_roundoff) * (n # d))%Q.
Proof.
  intros Hn. unfold int_true_div.
  destruct (Z.eqb_spec n 0); [lia|]. destruct (Z.ltb_spec 0 n); [|lia].
  now apply nearest_float_pos_rel.
Qed.

(** A threshold [tn / td] that the quotients [tokens / L] reach exactly at
    [tokens = T0], with the neighbouring quotients more than a rounding
    away: the float test and the exact test agree. *)
Lemma threshold_float_exact (L : positive) (T0 tn : Z) (td : positive) tokens :
  0 < T0 -> (tn # td == T0 # L)%Q ->
  let tf := int_true_div tn (Zpos td) in
  (0 < tf)%Q ->
  ((1 + unit_roundoff) * ((T0 - 1) # L) < tf)%Q ->
  (tf < (1 - unit_roundoff) * ((T0 + 1) # L))%Q ->
  (tf <= int_true_div T0 (Zpos L))%Q ->
  Qle_bool tf (int_true_div tokens (Zpos L))
  = Qle_bool (tn # td) (zq tokens / zq (Zpos L)).
Proof.
  intros HT0 Hexact tf Htf Hlo Hhi Heq.
  assert (Hx : (zq tokens / zq (Z.pos L) == tokens # L)%Q)
    by (symmetry; apply Qmake_Qdiv).
  rewrite Hx, Hexact.
  assert (Hu : (unit_roundoff == 1 # 9007199254740992)%Q) by reflexivity.
  destruct (Z.lt_trichotomy tokens T0) as [Hlt|[->|Hgt]].
  - (* below the threshold *)
    assert (E1 : Qle_bool (T0 # L) (tokens # L) = false).
    { apply Qle_bool_false. unfold Qlt. simpl. nia. }
    rewrite E1. apply Qle_bool_false.
    destruct (Z.lt_trichotomy tokens 0) as [Hneg|[->|Hpos]].
    + unfold int_true_div. destruct (Z.eqb_spec tokens 0); [lia|].
      destruct (Z.ltb_spec 0 tokens); [lia|].
      pose proof (nearest_float_pos_pos (- tokens) (Z.pos L) ltac:(lia) ltac:(lia)).
      lra.
    + exact Htf.
    + destruct (int_true_div_rel tokens L Hpos) as [_ Hup].
      assert (Hq : (tokens # L <= (T0 - 1) # L)%Q) by (unfold Qle; simpl; nia).
      rewrite Hu in *. 
      assert (Hq0 : (0 < tokens # L)%Q) by (unfold Qlt; simpl; lia).
      nra.
  - (* at the threshold *)
    assert (E1 : Qle_bool (T0 # L) (T0 # L) = true)
      by (apply Qle_bool_iff; apply Qle_refl).
    rewrite E1. now apply Qle_bool_iff.
  - (* above the threshold *)
    assert (E1 : Qle_bool (T0 # L) (tokens # L) = true).
    { apply Qle_bool_iff. unfold Qle. simpl. nia. }
    rewrite E1. apply Qle_bool_iff.
    destruct (int_true_div_rel tokens L ltac:(lia)) as [Hdn _].
    assert (Hq : ((T0 + 1) # L <= tokens # L)%Q) by (unfold Qle; simpl; nia).
    rewrite Hu in *.
    assert (Hq0 : (0 < (T0 + 1) # L)%Q) by (unfold Qlt; simpl; lia).
    nra.
Qed.

(** X17.  The usage percentage of the usage-limit monitor as Python
    computes it, the float [monthly_tokens / limit], set against the float
    literals 0.8, 0.85 and 0.95: for every tier limit and every token count
    the comparisons of the monitor come out as they do on the exact
    quotient, so no row is classified by a rounding. *)
Theorem usage_thresholds_float_exact (row : UsageRow) :
  let tokens := default 0 (us_monthly_tokens row) in
  let limit := tier_limit (us_subscription_tier row) in
  let pf := int_true_div tokens limit in
  let pct := usage_percentage_of row in
  Qle_bool (int_true_div 8 10) pf = Qle_bool threshold_usage_warning pct
  /\ Qltb pf (int_true_div 95 100) = Qltb pct threshold_usage_critical
  /\ Qle_bool (int_true_div 95 100) pf = Qle_bool threshold_usage_critical pct
  /\ Qle_bool (int_true_div 85 100) pf = Qle_bool (85 # 100) pct.
Proof.
  intros tokens limit pf pct.
  unfold pf, pct, usage_percentage_of, threshold_usage_warning,
    threshold_usage_critical, Qltb.
  fold tokens limit.
  destruct (tier_limit_cases (us_subscription_tier row)) as [E|[E|[E|E]]];
    fold limit in E; rewrite E; (split; [|split; [f_equal|split]]).
  - apply (threshold_float_exact 50000 40000 8 10); vm_compute; first [reflexivity|discriminate].
  - apply (threshold_float_exact 50000 47500 95 100); vm_compute; first [reflexivity|discriminate].
  - apply (threshold_float_exact 50000 47500 95 100); vm_compute; first [reflexivity|discriminate].
  - apply (threshold_float_exact 50000 42500 85 100); vm_compute; first [reflexivity|discriminate].
  - apply (threshold_float_exact 150000 120000 8 10); vm_compute; first [reflexivity|discriminate].
  - apply (threshold_float_exact 150000 142500 95 100); vm_compute; first [reflexivity|discriminate].
  - apply (threshold_float_exact 150000 142500 95 100); vm_compute; first [reflexivity|discriminate].
  - apply (threshold_float_exact 150000 127500 85 100); vm_compute; first [reflexivity|discriminate].
  - apply (threshold_float_exact 500000 400000 8 10); vm_compute; first [reflexivity|discriminate].
  - apply (threshold_float_exact 500000 475000 95 100); vm_compute; first [reflexivity|discriminate].
  - apply (threshold_float_exact 500000 475000 95 100); vm_compute; first [reflexivity|discriminate].
  - apply (threshold_float_exact 500000 425000 85 100); vm_compute; first [reflexivity|discriminate].
  - apply (threshold_float_exact 1000000 800000 8 10); vm_compute; first [reflexivity|discriminate].
  - apply (threshold_float_exact 1000000 950000 95 100); vm_compute; first [reflexivity|discriminate].
  - apply (threshold_float_exact 1000000 950000 95 100); vm_compute; first [reflexivity|discriminate].
  - apply (threshold_float_exact 1000000 850000 85 100); vm_compute; first [reflexivity|discriminate].
Qed.
